(** * CortexAI plugins: a shallow embedding of the tool handlers

    The repository is a set of plugins (command, filesystem, web, web
    analysis, encoding).  Every plugin registers tool handlers: asynchronous
    JavaScript functions from an arguments object to a JSON-encoded string.

    The handlers are translated function by function.  What the platform
    does (the file system, the network, the shell, the headless browser,
    the regular-expression engine, the URL parser) is not part of the
    repository: it is taken as a record of oracles over an abstract world
    state, so that every statement below holds for every behaviour of the
    platform.  [Buffer]'s UTF-8 and base64 codecs, [String.prototype.trim],
    [Array.prototype.slice] and [Set] are modelled concretely. *)

From Stdlib Require Import DecimalString DecimalPos DecimalFacts.
From Stdlib Require Import ZArith String Ascii Bool Lia List.
Import ListNotations.

Local Open Scope Z_scope.

(** ** JavaScript strings

    A JavaScript string is a sequence of 16-bit code units. *)

Definition jsstring := list Z.

Definition code_unit (u : Z) : Prop := 0 <= u < 65536.

Definition lit (s : string) : jsstring :=
  map (fun a => Z.of_nat (nat_of_ascii a)) (list_ascii_of_string s).

Definition jslength (s : jsstring) : Z := Z.of_nat (List.length s).

Definition jsstring_eq_dec : forall s t : jsstring, {s = t} + {s <> t} :=
  list_eq_dec Z.eq_dec.

Definition jsstring_eqb (s t : jsstring) : bool :=
  if jsstring_eq_dec s t then true else false.

(** ** UTF-16, UTF-8 and base64, as [Buffer] implements them *)

Module Codec.

Definition is_high (u : Z) : bool := (0xD800 <=? u) && (u <=? 0xDBFF).
Definition is_low (u : Z) : bool := (0xDC00 <=? u) && (u <=? 0xDFFF).

Definition replacement : Z := 0xFFFD.

(** The UTF-8 bytes of one code point. *)
Definition encode_cp (c : Z) : list Z :=
  if c <? 0x80 then [c]
  else if c <? 0x800 then [0xC0 + c / 64; 0x80 + c mod 64]
  else if c <? 0x10000 then
    [0xE0 + c / 4096; 0x80 + (c / 64) mod 64; 0x80 + c mod 64]
  else
    [0xF0 + c / 262144; 0x80 + (c / 4096) mod 64;
     0x80 + (c / 64) mod 64; 0x80 + c mod 64].

Definition pair_cp (h l : Z) : Z := 0x10000 + (h - 0xD800) * 0x400 + (l - 0xDC00).

(** [Buffer.from(text, 'utf-8')]: a surrogate pair is one code point of
    four bytes; a surrogate that has no partner is written as U+FFFD. *)
Fixpoint utf8_encode (s : jsstring) : list Z :=
  match s with
  | [] => []
  | u :: rest =>
      if is_high u then
        match rest with
        | v :: rest' =>
            if is_low v then encode_cp (pair_cp u v) ++ utf8_encode rest'
            else encode_cp replacement ++ utf8_encode rest
        | [] => encode_cp replacement
        end
      else if is_low u then encode_cp replacement ++ utf8_encode rest
      else encode_cp u ++ utf8_encode rest
  end.

(** The state of the UTF-8 decoder between two bytes: the code point under
    construction, the continuation bytes still expected, and the range
    allowed for the next byte. *)
Record dstate := mkD {
  d_cp : Z;
  d_needed : Z;
  d_lower : Z;
  d_upper : Z
}.

Definition d_init : dstate := mkD 0 0 0x80 0xBF.

(** A byte met when no sequence is open. *)
Definition lead_step (b : Z) : list Z * dstate :=
  if b <=? 0x7F then ([b], d_init)
  else if (0xC2 <=? b) && (b <=? 0xDF) then ([], mkD (b - 0xC0) 1 0x80 0xBF)
  else if (0xE0 <=? b) && (b <=? 0xEF) then
    ([], mkD (b - 0xE0) 2 (if b =? 0xE0 then 0xA0 else 0x80)
                          (if b =? 0xED then 0x9F else 0xBF))
  else if (0xF0 <=? b) && (b <=? 0xF4) then
    ([], mkD (b - 0xF0) 3 (if b =? 0xF0 then 0x90 else 0x80)
                          (if b =? 0xF4 then 0x8F else 0xBF))
  else ([replacement], d_init).

(** One byte: a byte outside the allowed range closes the open sequence
    with U+FFFD and is then read again as a lead byte. *)
Definition decode_step (st : dstate) (b : Z) : list Z * dstate :=
  if d_needed st =? 0 then lead_step b
  else if (d_lower st <=? b) && (b <=? d_upper st) then
    let cp := d_cp st * 64 + (b - 0x80) in
    if d_needed st =? 1 then ([cp], d_init)
    else ([], mkD cp (d_needed st - 1) 0x80 0xBF)
  else
    let '(out, st') := lead_step b in (replacement :: out, st').

Fixpoint decode_from (st : dstate) (bs : list Z) : list Z :=
  match bs with
  | [] => if d_needed st =? 0 then [] else [replacement]
  | b :: bs' =>
      let '(out, st') := decode_step st b in out ++ decode_from st' bs'
  end.

(** A code point as UTF-16 code units. *)
Definition utf16_of_cp (c : Z) : jsstring :=
  if c <? 0x10000 then [c]
  else [0xD800 + (c - 0x10000) / 0x400; 0xDC00 + (c - 0x10000) mod 0x400].

(** [buf.toString('utf-8')]. *)
Definition utf8_decode (bs : list Z) : jsstring :=
  flat_map utf16_of_cp (decode_from d_init bs).

(** The base64 alphabet. *)
Definition b64char (v : Z) : Z :=
  if v <? 26 then 65 + v
  else if v <? 52 then 97 + (v - 26)
  else if v <? 62 then 48 + (v - 52)
  else if v =? 62 then 43
  else 47.

Definition pad : Z := 61.

(** [buf.toString('base64')]: three bytes give four characters, and the
    last group is padded with [=]. *)
Fixpoint base64_encode (bs : list Z) : jsstring :=
  match bs with
  | a :: b :: c :: rest =>
      [b64char (a / 4); b64char ((a mod 4) * 16 + b / 16);
       b64char ((b mod 16) * 4 + c / 64); b64char (c mod 64)]
      ++ base64_encode rest
  | [a; b] =>
      [b64char (a / 4); b64char ((a mod 4) * 16 + b / 16);
       b64char ((b mod 16) * 4); pad]
  | [a] => [b64char (a / 4); b64char ((a mod 4) * 16); pad; pad]
  | [] => []
  end.

(** The decoder reads a code unit by its low byte: the other byte of a
    character above U+00FF is dropped. *)
Definition low_byte (c : Z) : Z := c mod 256.

(** The value of a base64 character; the URL-safe characters [-] and [_]
    are accepted next to [+] and [/]. *)
Definition unbase64 (c : Z) : option Z :=
  let x := low_byte c in
  if (65 <=? x) && (x <=? 90) then Some (x - 65)
  else if (97 <=? x) && (x <=? 122) then Some (x - 71)
  else if (48 <=? x) && (x <=? 57) then Some (x + 4)
  else if (x =? 43) || (x =? 45) then Some 62
  else if (x =? 47) || (x =? 95) then Some 63
  else None.

(** [Buffer.from(s, 'base64')] never fails: a character whose low byte is
    outside the alphabet is skipped, and the first character whose low
    byte is [=] ends the input. *)
Fixpoint sextets (cs : jsstring) : list Z :=
  match cs with
  | [] => []
  | c :: cs' =>
      match unbase64 c with
      | Some v => v :: sextets cs'
      | None => if low_byte c =? pad then [] else sextets cs'
      end
  end.

Fixpoint bytes_of_sextets (vs : list Z) : list Z :=
  match vs with
  | a :: b :: c :: d :: vs' =>
      [a * 4 + b / 16; (b mod 16) * 16 + c / 4; (c mod 4) * 64 + d]
      ++ bytes_of_sextets vs'
  | [a; b; c] => [a * 4 + b / 16; (b mod 16) * 16 + c / 4]
  | [a; b] => [a * 4 + b / 16]
  | _ => []
  end.

Definition base64_decode (cs : jsstring) : list Z :=
  bytes_of_sextets (sextets cs).

(** Text without an unpaired surrogate. *)
Inductive well_formed : jsstring -> Prop :=
| wf_nil : well_formed []
| wf_unit u s :
    code_unit u -> is_high u = false -> is_low u = false ->
    well_formed s -> well_formed (u :: s)
| wf_pair h l s :
    is_high h = true -> is_low l = true ->
    well_formed s -> well_formed (h :: l :: s).

Definition byte (b : Z) : Prop := 0 <= b < 256.

(** The code points that UTF-8 encodes: all but the surrogates. *)
Definition scalar (c : Z) : Prop := 0 <= c < 0xD800 \/ 0xE000 <= c < 0x110000.

End Codec.

(** ** JavaScript values

    The values that reach [JSON.stringify] or come out of [JSON.parse]:
    numbers are the integers the handlers count with. *)

#[warnings="-register-all"] Inductive jsval : Type :=
| VUndef
| VNull
| VBool (b : bool)
| VNum (n : Z)
| VStr (s : jsstring)
| VArr (items : list jsval)
| VObj (fields : list (jsstring * jsval)).

Definition object := list (jsstring * jsval).

(** [o[k]]: [undefined] when the object has no such property. *)
Fixpoint get_field (k : jsstring) (o : object) : jsval :=
  match o with
  | [] => VUndef
  | (k', v) :: o' => if jsstring_eqb k k' then v else get_field k o'
  end.

(** [o[k] = v]: an existing property keeps its place, a new one goes last. *)
Fixpoint set_field (k : jsstring) (v : jsval) (o : object) : object :=
  match o with
  | [] => [(k, v)]
  | (k', v') :: o' =>
      if jsstring_eqb k k' then (k, v) :: o' else (k', v') :: set_field k v o'
  end.

(** [{...a, ...b}] *)
Definition spread (a b : object) : object :=
  fold_left (fun acc kv => set_field (fst kv) (snd kv) acc) b a.

Definition field (k : string) (v : jsval) : jsval :=
  match v with
  | VObj o => get_field (lit k) o
  | _ => VUndef
  end.

Definition truthy (v : jsval) : bool :=
  match v with
  | VUndef | VNull => false
  | VBool b => b
  | VNum n => negb (n =? 0)
  | VStr s => match s with [] => false | _ => true end
  | VArr _ | VObj _ => true
  end.

(** [a || b] *)
Definition js_or (a b : jsval) : jsval := if truthy a then a else b.

(** [a && b] *)
Definition js_and (a b : jsval) : jsval := if truthy a then b else a.

(** *** Strings *)

(** White space and line terminators, as [String.prototype.trim] sees them. *)
Definition is_space (u : Z) : bool :=
  ((9 <=? u) && (u <=? 13)) || (u =? 0x20) || (u =? 0xA0) || (u =? 0x1680)
  || ((0x2000 <=? u) && (u <=? 0x200A)) || (u =? 0x2028) || (u =? 0x2029)
  || (u =? 0x202F) || (u =? 0x205F) || (u =? 0x3000) || (u =? 0xFEFF).

Fixpoint trim_start (s : jsstring) : jsstring :=
  match s with
  | u :: s' => if is_space u then trim_start s' else s
  | [] => []
  end.

Definition trim (s : jsstring) : jsstring :=
  rev (trim_start (rev (trim_start s))).

Fixpoint starts_with (p s : jsstring) : bool :=
  match p, s with
  | [], _ => true
  | a :: p', b :: s' => (a =? b) && starts_with p' s'
  | _ :: _, [] => false
  end.

(** [s.includes(p)] *)
Fixpoint includes (p s : jsstring) : bool :=
  starts_with p s ||
  match s with
  | [] => false
  | _ :: s' => includes p s'
  end.

(** [s.split(sep)[0]]: the text before the first separator. *)
Fixpoint before (sep s : jsstring) : jsstring :=
  match s with
  | [] => []
  | u :: s' =>
      match sep with
      | [] => [u]
      | _ => if starts_with sep s then [] else u :: before sep s'
      end
  end.

Definition decimal (n : Z) : jsstring :=
  lit (NilZero.string_of_int (Z.to_int n)).

(** [String(v)], as template literals and [+=] convert. *)
Fixpoint to_string (v : jsval) : jsstring :=
  match v with
  | VUndef => lit "undefined"
  | VNull => lit "null"
  | VBool true => lit "true"
  | VBool false => lit "false"
  | VNum n => decimal n
  | VStr s => s
  | VArr items =>
      (fix join (l : list jsval) : jsstring :=
         match l with
         | [] => []
         | [x] => match x with VUndef | VNull => [] | _ => to_string x end
         | x :: l' =>
             match x with VUndef | VNull => [] | _ => to_string x end
             ++ [44] ++ join l'
         end) items
  | VObj _ => lit "[object Object]"
  end.

(** *** Arrays *)

(** [a.slice(0, e)] for an integer [e]: a negative end counts from the back. *)
Definition slice0 {A : Type} (e : Z) (a : list A) : list A :=
  let len := Z.of_nat (List.length a) in
  let stop := if e <? 0 then Z.max (len + e) 0 else Z.min e len in
  firstn (Z.to_nat stop) a.

(** *** [Set]: insertion order, no value twice *)

Section OrderedSet.
Context {A : Type} (eqb : A -> A -> bool).

Definition set_has (x : A) (s : list A) : bool := existsb (eqb x) s.

Definition set_add (s : list A) (x : A) : list A :=
  if set_has x s then s else s ++ [x].

(** [xs.forEach(x => s.add(x))] *)
Definition set_add_all (s : list A) (xs : list A) : list A :=
  fold_left set_add xs s.
End OrderedSet.

(** Equality of values is decidable: [Set] compares its members. *)
Fixpoint jsval_eqb (a b : jsval) : bool :=
  match a, b with
  | VUndef, VUndef => true
  | VNull, VNull => true
  | VBool x, VBool y => Bool.eqb x y
  | VNum x, VNum y => x =? y
  | VStr x, VStr y => jsstring_eqb x y
  | VArr xs, VArr ys =>
      (fix all2 (xs ys : list jsval) : bool :=
         match xs, ys with
         | [], [] => true
         | x :: xs', y :: ys' => jsval_eqb x y && all2 xs' ys'
         | _, _ => false
         end) xs ys
  | VObj xs, VObj ys =>
      (fix all2 (xs ys : list (jsstring * jsval)) : bool :=
         match xs, ys with
         | [], [] => true
         | (k, x) :: xs', (k', y) :: ys' =>
             jsstring_eqb k k' && jsval_eqb x y && all2 xs' ys'
         | _, _ => false
         end) xs ys
  | _, _ => false
  end.

(** *** [JSON.stringify] *)

Definition hex_digit (d : Z) : Z := if d <? 10 then 48 + d else 87 + d.

Definition unicode_escape (u : Z) : jsstring :=
  [92; 117; hex_digit ((u / 4096) mod 16); hex_digit ((u / 256) mod 16);
   hex_digit ((u / 16) mod 16); hex_digit (u mod 16)].

Definition escape_unit (u : Z) : jsstring :=
  if u =? 34 then [92; 34]
  else if u =? 92 then [92; 92]
  else if u =? 8 then [92; 98]
  else if u =? 9 then [92; 116]
  else if u =? 10 then [92; 110]
  else if u =? 12 then [92; 102]
  else if u =? 13 then [92; 114]
  else if u <? 32 then unicode_escape u
  else [u].

(** A surrogate without its partner is written as an escape. *)
Fixpoint escape_units (s : jsstring) : jsstring :=
  match s with
  | [] => []
  | u :: rest =>
      if Codec.is_high u then
        match rest with
        | v :: rest' =>
            if Codec.is_low v then u :: v :: escape_units rest'
            else unicode_escape u ++ escape_units rest
        | [] => unicode_escape u
        end
      else if Codec.is_low u then unicode_escape u ++ escape_units rest
      else escape_unit u ++ escape_units rest
  end.

Definition quote (s : jsstring) : jsstring := [34] ++ escape_units s ++ [34].

Fixpoint join_commas (parts : list jsstring) : jsstring :=
  match parts with
  | [] => []
  | [p] => p
  | p :: ps => p ++ [44] ++ join_commas ps
  end.

(** A property whose value is [undefined] is left out of an object, and
    [undefined] in an array is written [null].  The handlers only ever
    serialise objects. *)
Fixpoint JSON_stringify (v : jsval) : jsstring :=
  match v with
  | VUndef | VNull => lit "null"
  | VBool true => lit "true"
  | VBool false => lit "false"
  | VNum n => decimal n
  | VStr s => quote s
  | VArr items => [91] ++ join_commas (map JSON_stringify items) ++ [93]
  | VObj fields =>
      [123] ++
      join_commas
        ((fix members (fs : list (jsstring * jsval)) : list jsstring :=
            match fs with
            | [] => []
            | (_, VUndef) :: fs' => members fs'
            | (k, x) :: fs' => (quote k ++ [58] ++ JSON_stringify x) :: members fs'
            end) fields)
      ++ [125]
  end.

(** *** JSON texts

    The grammar of RFC 8259 for the texts that [JSON.stringify] writes:
    no white space between tokens, and numbers without fraction or
    exponent. *)

Definition digit (u : Z) : bool := (48 <=? u) && (u <=? 57).

Definition hex (u : Z) : bool :=
  digit u || ((97 <=? u) && (u <=? 102)) || ((65 <=? u) && (u <=? 70)).

Inductive json_int : jsstring -> Prop :=
| int_zero : json_int [48]
| int_digits d ds :
    49 <= d <= 57 -> Forall (fun u => digit u = true) ds -> json_int (d :: ds).

Inductive json_number : jsstring -> Prop :=
| number_int s : json_int s -> json_number s
| number_minus s : json_int s -> json_number (45 :: s).

(** The characters between the quotes of a string. *)
Inductive json_chars : jsstring -> Prop :=
| chars_nil : json_chars []
| chars_plain u s :
    32 <= u -> u <> 34 -> u <> 92 ->
    Codec.is_high u = false -> Codec.is_low u = false ->
    json_chars s -> json_chars (u :: s)
| chars_pair h l s :
    Codec.is_high h = true -> Codec.is_low l = true ->
    json_chars s -> json_chars (h :: l :: s)
| chars_escape c s :
    In c [34; 92; 47; 98; 102; 110; 114; 116] ->
    json_chars s -> json_chars (92 :: c :: s)
| chars_unicode a b c d s :
    hex a = true -> hex b = true -> hex c = true -> hex d = true ->
    json_chars s -> json_chars (92 :: 117 :: a :: b :: c :: d :: s).

#[warnings="-register-all"] Inductive json_text : jsstring -> Prop :=
| text_null : json_text (lit "null")
| text_true : json_text (lit "true")
| text_false : json_text (lit "false")
| text_number s : json_number s -> json_text s
| text_string s : json_chars s -> json_text ([34] ++ s ++ [34])
| text_array items :
    Forall json_text items -> json_text ([91] ++ join_commas items ++ [93])
| text_object members :
    Forall json_member members -> json_text ([123] ++ join_commas members ++ [125])
with json_member : jsstring -> Prop :=
| member_of k v :
    json_chars k -> json_text v -> json_member ([34] ++ k ++ [34] ++ [58] ++ v).

(** ** Errors, completions and the handler monad *)

(** An [Error] object: its message and the properties the handlers read. *)
Record error := mkError {
  message : jsstring;
  code : jsval;
  err_stdout : option jsstring;
  err_stderr : option jsstring
}.

Definition Error (msg : jsstring) : error := mkError msg VUndef None None.

(** How an asynchronous call ends: its promise is fulfilled, or rejected
    (which [try]/[catch] around an [await] sees), or an event callback
    throws after the promise was handed out.  Such an exception belongs to
    no [try] block: the promise is never settled and the exception reaches
    the process as an uncaught exception.  Or nothing happens at all: no
    event arrives that would settle the promise, and the call stays
    pending for ever. *)
Inductive completion (A : Type) : Type :=
| Normal (a : A)
| Throw (e : error)
| Uncaught (e : error)
| Pending.

Arguments Normal {A} a.
Arguments Throw {A} e.
Arguments Uncaught {A} e.
Arguments Pending {A}.

Definition M (S A : Type) : Type := S -> completion A * S.

Definition ret {S A} (a : A) : M S A := fun s => (Normal a, s).

Definition bind {S A B} (c : M S A) (k : A -> M S B) : M S B :=
  fun s =>
    match c s with
    | (Normal a, s') => k a s'
    | (Throw e, s') => (Throw e, s')
    | (Uncaught e, s') => (Uncaught e, s')
    | (Pending, s') => (Pending, s')
    end.

Definition throw {S A} (e : error) : M S A := fun s => (Throw e, s).

Definition uncaught {S A} (e : error) : M S A := fun s => (Uncaught e, s).

Definition pending {S A} : M S A := fun s => (Pending, s).

(** [try { c } catch (error) { h error }]: what [c] did to the world before
    it threw stays done. *)
Definition try_catch {S A} (c : M S A) (h : error -> M S A) : M S A :=
  fun s =>
    match c s with
    | (Throw e, s') => h e s'
    | r => r
    end.

(** A platform call that answers with an error or a value. *)
Definition lift {S A} (r : error + A) : M S A :=
  match r with
  | inl e => throw e
  | inr a => ret a
  end.

Declare Scope monad_scope.
Delimit Scope monad_scope with monad.
Notation "x <- c ;; k" := (bind c (fun x => k))
  (at level 61, c at next level, right associativity) : monad_scope.
Notation "' pat <- c ;; k" := (bind c (fun x => match x with pat => k end))
  (at level 61, pat pattern, c at next level, right associativity) : monad_scope.
Notation "c ;;; k" := (bind c (fun _ => k))
  (at level 61, right associativity) : monad_scope.

Fixpoint mapM {S A B} (f : A -> M S B) (l : list A) : M S (list B) :=
  match l with
  | [] => ret []
  | a :: l' => bind (f a) (fun b => bind (mapM f l') (fun bs => ret (b :: bs)))
  end.

(** [for (const x of l) { acc = f acc x }] *)
Fixpoint foldM {S A B} (f : B -> A -> M S B) (acc : B) (l : list A) : M S B :=
  match l with
  | [] => ret acc
  | a :: l' => bind (f acc a) (fun acc' => foldM f acc' l')
  end.

(** ** The platform

    Node's modules and the outside world, as far as the handlers use them. *)

(** What [new URL(u)] gives. *)
Record URL := mkURL {
  protocol : jsstring;
  hostname : jsstring;
  port : jsstring;
  pathname : jsstring;
  search : jsstring;
  host : jsstring
}.

(** [fs.Stats]; [mtime] is kept as [JSON.stringify] writes a [Date]. *)
Record stats := mkStats {
  size : Z;
  mtime : jsval
}.

(** [fs.Dirent] *)
Record dirent := mkDirent {
  name : jsstring;
  isDirectory : bool
}.

(** A child process: it ran and exited with a code, or [exec] reports
    another error (it could not be started, was killed, or wrote more
    than [maxBuffer]). *)
Inductive exec_outcome :=
| Exited (exit_code : Z) (out err : jsstring)
| NotCompleted (e : error).

Record request_options := mkOptions {
  o_https : bool;
  o_hostname : jsstring;
  o_port : jsval;
  o_path : jsstring;
  o_method : jsstring;
  o_headers : object;
  o_timeout : Z;
  o_rejectUnauthorized : bool
}.

(** [http.IncomingMessage], with the chunks its [data] events bring. *)
Record response := mkResponse {
  statusCode : Z;
  statusMessage : jsstring;
  res_headers : object;
  res_chunks : list (list Z)
}.

(** What follows a request that was sent.  The handlers listen for three
    events, and the first of them settles the promise: the response has
    ended, the request failed, or the socket stayed idle for [timeout]
    milliseconds.  A request may get none of the three: when the
    connection is closed after the headers of the response and before its
    end, the response gets [aborted] and [close], for which nobody
    listens; and a body may go on for ever. *)
Inductive request_event :=
| OnEnd (res : response)
| OnError (e : error)
| OnTimeout
| NoEvent.

(** [request], [write] or [end] throws at once, or the request is on its
    way and an event follows. *)
Inductive http_outcome :=
| Threw (e : error)
| Sent (ev : request_event).

(** The regular-expression literals of the source. *)
Inductive regex :=
| RE_title | RE_script_block | RE_style_block | RE_tag | RE_spaces
| RE_anchor | RE_href | RE_anchor_text
| RE_form | RE_action | RE_method | RE_input | RE_name | RE_type | RE_value
| RE_script_src | RE_src
| RE_meta | RE_content | RE_property
| RE_lite_anchor | RE_lite_href | RE_lite_text
| RE_inline_script | RE_script_tags
| RE_api_path | RE_api_url | RE_fetch | RE_axios | RE_ajax | RE_xhr
| RE_graphql | RE_websocket.

(** The elements of the document that the callbacks of [page.evaluate]
    visit, with the properties and attributes they read.  [a_shown] and
    the like stand for [offsetParent !== null]. *)
Record a_element := mkA {
  a_href : jsval;
  a_textContent : jsstring;
  a_attr_href : jsval;
  a_shown : bool
}.

Record button_element := mkButton {
  b_onclick : jsval;
  b_data_url : jsval;
  b_data_href : jsval;
  b_textContent : jsstring;
  b_className : jsval;
  b_shown : bool;
  b_id : jsval
}.

(** An [input], [textarea] or [select]; [i_tagName] is its tag name in
    lower case. *)
Record input_element := mkInput {
  i_name : jsval;
  i_type : jsval;
  i_tagName : jsstring;
  i_value : jsval;
  i_id : jsval;
  i_placeholder : jsval;
  i_required : jsval;
  i_shown : bool
}.

Record form_element := mkForm {
  f_action : jsval;
  f_method : jsstring;
  f_inputs : list input_element;
  f_id : jsval;
  f_className : jsval;
  f_shown : bool
}.

Record script_element := mkScript {
  s_src : jsval;
  s_attr_src : jsval
}.

Record meta_element := mkMeta {
  m_attr_name : jsval;
  m_attr_property : jsval;
  m_attr_content : jsval
}.

(** What the headless browser reports about a loaded page; a call of
    [page.evaluate] may be rejected. *)
Record page := mkPage {
  p_content : jsstring;
  p_status : Z;
  p_headers : object;
  p_title : error + jsstring;
  p_innerText : error + jsstring;
  p_links : error + list a_element * list button_element;
  p_forms : error + list form_element;
  p_scripts : error + list script_element;
  p_meta : error + list meta_element
}.

Record platform (W : Type) := mkPlatform {
  (* url *)
  url_parse : jsstring -> error + URL;
  url_resolve : jsstring -> jsstring -> error + jsstring;
  encodeURIComponent : jsstring -> error + jsstring;
  (* RegExp and String.prototype.match / replace *)
  match_all : regex -> jsstring -> list jsstring;
  capture : regex -> jsstring -> option jsstring;
  replace_all : regex -> jsstring -> jsstring -> jsstring;
  regex_source : regex -> jsstring;
  match_string : jsstring -> jsstring -> error + list (option jsstring);
  toUpperCase : jsstring -> jsstring;
  (* JSON, zlib, crypto *)
  JSON_parse : jsstring -> error + jsval;
  gunzipSync : list Z -> error + list Z;
  inflateSync : list Z -> error + list Z;
  digest : jsstring -> jsstring -> error + jsstring;
  (* path, process *)
  path_resolve : W -> jsstring -> jsstring;
  path_dirname : jsstring -> jsstring;
  path_join : jsstring -> jsstring -> jsstring;
  process_cwd : W -> jsstring;
  (* child_process *)
  exec : jsstring -> jsstring -> Z -> W -> exec_outcome * W;
  (* fs/promises; [stat] also tells when its promise settles *)
  fs_readFile : jsstring -> W -> (error + jsstring) * W;
  fs_writeFile : jsstring -> jsstring -> W -> (error + unit) * W;
  fs_mkdir : jsstring -> W -> (error + unit) * W;
  fs_readdir : jsstring -> W -> (error + list dirent) * W;
  fs_stat : jsstring -> W -> (nat * (error + stats)) * W;
  (* http, https *)
  http_request : request_options -> option jsstring -> W -> http_outcome * W;
  (* puppeteer *)
  browser_launch : W -> (error + unit) * W;
  browser_load : jsstring -> option jsstring -> W -> (error + page) * W;
  browser_close : W -> (error + unit) * W
}.

Arguments url_parse {W}.
Arguments url_resolve {W}.
Arguments encodeURIComponent {W}.
Arguments match_all {W}.
Arguments capture {W}.
Arguments replace_all {W}.
Arguments regex_source {W}.
Arguments match_string {W}.
Arguments toUpperCase {W}.
Arguments JSON_parse {W}.
Arguments gunzipSync {W}.
Arguments inflateSync {W}.
Arguments digest {W}.
Arguments path_resolve {W}.
Arguments path_dirname {W}.
Arguments path_join {W}.
Arguments process_cwd {W}.
Arguments exec {W}.
Arguments fs_readFile {W}.
Arguments fs_writeFile {W}.
Arguments fs_mkdir {W}.
Arguments fs_readdir {W}.
Arguments fs_stat {W}.
Arguments http_request {W}.
Arguments browser_launch {W}.
Arguments browser_load {W}.
Arguments browser_close {W}.

(** What a handler does that its caller can observe besides the result. *)
Inductive event :=
| EvRequest (o : request_options) (body : option jsstring)
| EvDestroy
| EvConsole (msg : jsstring).

Record state (W : Type) := mkState {
  world : W;
  trace : list event
}.

Arguments mkState {W}.
Arguments world {W}.
Arguments trace {W}.

Definition JS (W A : Type) : Type := M (state W) A.

Definition call {W A} (f : W -> A * W) : JS W A :=
  fun s => let (a, w) := f (world s) in (Normal a, mkState w (trace s)).

Definition ask {W A} (f : W -> A) : JS W A :=
  fun s => (Normal (f (world s)), s).

Definition emit {W} (ev : event) : JS W unit :=
  fun s => (Normal tt, mkState (world s) (trace s ++ [ev])).

(** [await f(...)] for a platform call that may reject. *)
Definition await {W A} (f : W -> (error + A) * W) : JS W A :=
  bind (call f) lift.

Definition success (b : bool) : jsstring * jsval := (lit "success", VBool b).

(** A parameter with a default value. *)
Definition default {A} (d : A) (x : option A) : A :=
  match x with
  | Some a => a
  | None => d
  end.

(** [promisify(exec)(cmd, {cwd, maxBuffer})]: fulfilled with the output
    when the command exits with code 0; otherwise rejected with an error
    that carries the exit code and the output. *)
Definition execAsync {W} (P : platform W) (cmd cwd : jsstring) (maxBuffer : Z)
  : JS W (jsstring * jsstring) :=
  bind (call (exec P cmd cwd maxBuffer)) (fun r =>
    match r with
    | Exited n out err =>
        if n =? 0 then ret (out, err)
        else throw (mkError (lit "Command failed: " ++ cmd ++ [10] ++ err)
                            (VNum n) (Some out) (Some err))
    | NotCompleted e => throw e
    end).

(** The [maxBuffer] of [exec] when none is given. *)
Definition defaultMaxBuffer : Z := 1024 * 1024.

(** [x?.trim() || ''] *)
Definition trim_or_empty (x : option jsstring) : jsval :=
  match x with
  | Some s => js_or (VStr (trim s)) (VStr [])
  | None => VStr []
  end.

(** ** Command plugin *)

Module execute_command.
Record args := mk {
  command : jsstring;
  working_directory : option jsstring
}.
End execute_command.

Module Command.
Section Handlers.
Context {W : Type} (P : platform W).
Local Open Scope monad_scope.

(** The directory the command runs in. *)
Definition cwd_of (args : execute_command.args) (s : state W) : jsstring :=
  default (process_cwd P (world s)) (execute_command.working_directory args).

Definition executeCommandHandler (args : execute_command.args) : JS W jsstring :=
  try_catch
    (working_directory <-
       match execute_command.working_directory args with
       | Some d => ret d
       | None => ask (process_cwd P)
       end ;;
     ' (stdout, stderr) <-
       execAsync P (execute_command.command args) working_directory
                 (1024 * 1024 * 10) ;;
     ret (JSON_stringify (VObj [
       success true;
       (lit "stdout", VStr (trim stdout));
       (lit "stderr", VStr (trim stderr));
       (lit "working_directory", VStr working_directory)])))
    (fun error =>
     ret (JSON_stringify (VObj [
       success false;
       (lit "error", VStr (message error));
       (lit "stdout", trim_or_empty (err_stdout error));
       (lit "stderr", trim_or_empty (err_stderr error));
       (lit "exit_code", code error)]))).
End Handlers.
End Command.

(** ** Filesystem plugin *)

Module read_file.
Record args := mk { file_path : jsstring }.
End read_file.

Module write_file.
Record args := mk { file_path : jsstring; content : jsstring }.
End write_file.

Module list_directory.
Record args := mk { directory_path : option jsstring }.
End list_directory.

(** [Promise.all]: fulfilled with all the values, in the order of the
    promises, or rejected with the reason of the promise that is rejected
    first in time. *)
Fixpoint first_rejection {A} (l : list (nat * (error + A))) : option (nat * error) :=
  match l with
  | [] => None
  | (t, inl e) :: l' =>
      match first_rejection l' with
      | Some (t', e') => if (t' <? t)%nat then Some (t', e') else Some (t, e)
      | None => Some (t, e)
      end
  | (_, inr _) :: l' => first_rejection l'
  end.

Fixpoint fulfilled {A} (l : list (nat * (error + A))) : list A :=
  match l with
  | [] => []
  | (_, inr a) :: l' => a :: fulfilled l'
  | (_, inl _) :: l' => fulfilled l'
  end.

Definition Promise_all {S A} (l : list (nat * (error + A))) : M S (list A) :=
  match first_rejection l with
  | Some (_, e) => throw e
  | None => ret (fulfilled l)
  end.

(** The record of one entry of a listing. *)
Definition entry_record (entry : dirent) (stats : stats) : jsval :=
  VObj [(lit "name", VStr (name entry));
        (lit "type", VStr (if isDirectory entry then lit "directory" else lit "file"));
        (lit "size", VNum (size stats));
        (lit "modified", mtime stats)].

(** A promise of the list given to [Promise.all] that is rejected, and one
    that is fulfilled. *)
Definition rejected {A} (p : nat * (error + A)) : Prop :=
  exists e, snd p = inl e.

Definition settled_ok {A} (p : nat * (error + A)) : Prop :=
  exists a, snd p = inr a.

Module Filesystem.
Section Handlers.
Context {W : Type} (P : platform W).
Local Open Scope monad_scope.

Definition stat (p : jsstring) : JS W stats :=
  bind (call (fs_stat P p)) (fun r => lift (snd r)).

Definition readFileHandler (args : read_file.args) : JS W jsstring :=
  try_catch
    (let file_path := read_file.file_path args in
     absolutePath <- ask (fun w => path_resolve P w file_path) ;;
     content <- await (fs_readFile P absolutePath) ;;
     stats <- stat absolutePath ;;
     ret (JSON_stringify (VObj [
       success true;
       (lit "content", VStr content);
       (lit "path", VStr absolutePath);
       (lit "size", VNum (size stats));
       (lit "modified", mtime stats)])))
    (fun error =>
     ret (JSON_stringify (VObj [
       success false;
       (lit "error", VStr (message error));
       (lit "path", VStr (read_file.file_path args))]))).

Definition writeFileHandler (args : write_file.args) : JS W jsstring :=
  try_catch
    (let file_path := write_file.file_path args in
     let content := write_file.content args in
     absolutePath <- ask (fun w => path_resolve P w file_path) ;;
     await (fs_mkdir P (path_dirname P absolutePath)) ;;;
     await (fs_writeFile P absolutePath content) ;;;
     stats <- stat absolutePath ;;
     ret (JSON_stringify (VObj [
       success true;
       (lit "path", VStr absolutePath);
       (lit "bytes_written", VNum (size stats))])))
    (fun error =>
     ret (JSON_stringify (VObj [
       success false;
       (lit "error", VStr (message error));
       (lit "path", VStr (write_file.file_path args))]))).

(** [args.directory_path || "."] *)
Definition directory_or_dot (args : list_directory.args) : jsstring :=
  match list_directory.directory_path args with
  | Some (u :: d) => u :: d
  | _ => lit "."
  end.

(** The callback of [entries.map]: every call starts its [stat] at once
    and gives a promise for the entry's record. *)
Definition describe (absolutePath : jsstring) (entry : dirent)
  : JS W (nat * (error + jsval)) :=
  let fullPath := path_join P absolutePath (name entry) in
  r <- call (fs_stat P fullPath) ;;
  ret (fst r,
       match snd r with
       | inl e => inl e
       | inr stats => inr (entry_record entry stats)
       end).

Definition listDirectoryHandler (args : list_directory.args) : JS W jsstring :=
  try_catch
    (let directoryPath := directory_or_dot args in
     absolutePath <- ask (fun w => path_resolve P w directoryPath) ;;
     entries <- await (fs_readdir P absolutePath) ;;
     promises <- mapM (describe absolutePath) entries ;;
     details <- Promise_all promises ;;
     ret (JSON_stringify (VObj [
       success true;
       (lit "path", VStr absolutePath);
       (lit "entries", VArr details)])))
    (fun error =>
     ret (JSON_stringify (VObj [
       success false;
       (lit "error", VStr (message error));
       (lit "path", VStr (directory_or_dot args))]))).

Definition getCwdHandler : JS W jsstring :=
  cwd <- ask (process_cwd P) ;;
  ret (JSON_stringify (VObj [success true; (lit "cwd", VStr cwd)])).
End Handlers.
End Filesystem.

(** ** Example plugin: encoding and hashing *)

Module base64_encode.
Record args := mk { text : jsstring }.
End base64_encode.

Module base64_decode.
Record args := mk { encoded_text : jsstring }.
End base64_decode.

Module hash_text.
Record args := mk { text : jsstring; algorithm : option jsstring }.
End hash_text.

Module Example.
Section Handlers.
Context {W : Type} (P : platform W).
Local Open Scope monad_scope.

Definition base64EncodeHandler (args : base64_encode.args) : JS W jsstring :=
  try_catch
    (let text := base64_encode.text args in
     let encoded := Codec.base64_encode (Codec.utf8_encode text) in
     ret (JSON_stringify (VObj [
       success true;
       (lit "original", VStr text);
       (lit "encoded", VStr encoded);
       (lit "length", VNum (jslength encoded))])))
    (fun error =>
     ret (JSON_stringify (VObj [
       success false;
       (lit "error", VStr (message error))]))).

Definition base64DecodeHandler (args : base64_decode.args) : JS W jsstring :=
  try_catch
    (let encoded_text := base64_decode.encoded_text args in
     let decoded := Codec.utf8_decode (Codec.base64_decode encoded_text) in
     ret (JSON_stringify (VObj [
       success true;
       (lit "encoded", VStr encoded_text);
       (lit "decoded", VStr decoded);
       (lit "length", VNum (jslength decoded))])))
    (fun error =>
     ret (JSON_stringify (VObj [
       success false;
       (lit "error", VStr (message error))]))).

Definition hashTextHandler (args : hash_text.args) : JS W jsstring :=
  try_catch
    (let text := hash_text.text args in
     let algorithm :=
       match hash_text.algorithm args with
       | Some a => a
       | None => lit "sha256"
       end in
     digest <- lift (digest P algorithm text) ;;
     ret (JSON_stringify (VObj [
       success true;
       (lit "original", VStr text);
       (lit "algorithm", VStr algorithm);
       (lit "hash", VStr digest);
       (lit "length", VNum (jslength digest))])))
    (fun error =>
     ret (JSON_stringify (VObj [
       success false;
       (lit "error", VStr (message error))]))).
End Handlers.
End Example.

(** ** Web plugin *)

Module web_request.
Record args := mk {
  url : jsstring;
  method : option jsstring;
  headers : option object;
  data : option jsstring;
  follow_redirects : option bool
}.
End web_request.

Module browse_website.
Record args := mk {
  url : jsstring;
  extract_links : option bool;
  extract_forms : option bool;
  extract_scripts : option bool;
  user_agent : option jsstring
}.
End browse_website.

Module web_search.
Record args := mk {
  query : jsstring;
  num_results : option Z
}.
End web_search.

(** A string argument used as a condition. *)
Definition nonempty (x : option jsstring) : option jsstring :=
  match x with
  | Some (u :: s) => Some (u :: s)
  | _ => None
  end.

Definition dq : jsstring := [34].

(** The fields of a parsed response, where the handler has checked
    [success] and knows their types. *)
Definition object_of (v : jsval) : object :=
  match v with
  | VObj o => o
  | _ => []
  end.

Definition string_of (v : jsval) : jsstring :=
  match v with
  | VStr s => s
  | _ => []
  end.

(** [o.p] on a parsed JSON value: reading a property of [null] or
    [undefined] is a [TypeError]. *)
Definition prop {S} (v : jsval) (k : string) : M S jsval :=
  match v with
  | VUndef | VNull =>
      throw (Error (lit "Cannot read properties of " ++ to_string v
                    ++ lit " (reading '" ++ lit k ++ lit "')"))
  | VObj o => ret (get_field (lit k) o)
  | _ => ret VUndef
  end.

Definition securityHeaders : list jsstring :=
  [lit "strict-transport-security"; lit "content-security-policy";
   lit "x-frame-options"; lit "x-content-type-options";
   lit "x-xss-protection"; lit "referrer-policy"].

(** [for (const header of securityHeaders) if (headers[header]) ...] *)
Definition security_headers (hs : object) : object :=
  fold_left
    (fun acc header =>
       if truthy (get_field header hs)
       then set_field header (get_field header hs) acc else acc)
    securityHeaders [].

(** The properties of the object that both paths of [browse_website]
    build. *)
Definition browse_fields : list jsstring :=
  [lit "success"; lit "url"; lit "status_code"; lit "headers"; lit "content_length";
   lit "title"; lit "text_content"; lit "links"; lit "forms"; lit "scripts";
   lit "meta_tags"; lit "security_headers"; lit "rendered_with"].

(** The requests among the events of a run. *)
Definition is_request (ev : event) : bool :=
  match ev with
  | EvRequest _ _ => true
  | _ => false
  end.

Definition requests {W} (s : state W) : list event := filter is_request (trace s).

Module Web.
Section Handlers.
Context {W : Type} (P : platform W).
Local Open Scope monad_scope.

Definition browserHeaders : object :=
  [(lit "User-Agent", VStr (lit "Mozilla/5.0 (X11; Linux x86_64) AppleWebKit/537.36 (KHTML, like Gecko) Chrome/120.0.0.0 Safari/537.36"));
   (lit "Accept", VStr (lit "text/html,application/xhtml+xml,application/xml;q=0.9,image/webp,*/*;q=0.8"));
   (lit "Accept-Language", VStr (lit "en-US,en;q=0.5"));
   (lit "Accept-Encoding", VStr (lit "gzip, deflate"));
   (lit "Connection", VStr (lit "keep-alive"));
   (lit "Upgrade-Insecure-Requests", VStr (lit "1"))].

Definition redirect_codes : list Z := [301; 302; 303; 307; 308].

Definition failure (error : error) (url method : jsstring) : jsval :=
  VObj [success false;
        (lit "error", VStr (message error));
        (lit "url", VStr url);
        (lit "method", VStr method)].

(** The listener of the response's [end] event. *)
Definition on_end (url method : jsstring) (follow_redirects : bool)
           (res : response) : JS W jsval :=
  let raw := List.concat (res_chunks res) in
  let encoding := get_field (lit "content-encoding") (res_headers res) in
  responseData <-
    try_catch
      (if jsval_eqb encoding (VStr (lit "gzip")) then lift (gunzipSync P raw)
       else if jsval_eqb encoding (VStr (lit "deflate")) then lift (inflateSync P raw)
       else ret raw)
      (fun decompressError =>
         emit (EvConsole (lit "Decompression failed: " ++ message decompressError)) ;;;
         ret raw) ;;
  let body := Codec.utf8_decode responseData in
  let result :=
    [success true;
     (lit "status_code", VNum (statusCode res));
     (lit "status_message", VStr (statusMessage res));
     (lit "headers", VObj (res_headers res));
     (lit "body", VStr body);
     (lit "url", VStr url);
     (lit "method", VStr method);
     (lit "redirected", VBool false)] in
  let location := get_field (lit "location") (res_headers res) in
  if follow_redirects
     && existsb (Z.eqb (statusCode res)) redirect_codes
     && truthy location
  then
    match url_resolve P (to_string location) url with
    | inl e => uncaught e
    | inr redirectUrl =>
        ret (VObj (set_field (lit "redirect_url") (VStr redirectUrl)
                     (set_field (lit "redirected") (VBool true) result)))
    end
  else ret (VObj result).

(** The headers of the request: the browser-like defaults, the caller's
    headers over them, and the length and type of a body that is sent. *)
Definition request_headers (method : jsstring) (headers : object)
           (data : option jsstring) : object :=
  let defaultHeaders := spread browserHeaders headers in
  match data with
  | Some d =>
      if jsstring_eqb method (lit "POST") || jsstring_eqb method (lit "PUT")
      then
        let hs := set_field (lit "Content-Length")
                    (VNum (jslength (Codec.utf8_encode d))) defaultHeaders in
        if truthy (get_field (lit "Content-Type") hs) then hs
        else set_field (lit "Content-Type")
               (VStr (lit "application/x-www-form-urlencoded")) hs
      else defaultHeaders
  | None => defaultHeaders
  end.

Definition options (urlObj : URL) (method : jsstring) (defaultHeaders : object)
  : request_options :=
  let isHttps := jsstring_eqb (protocol urlObj) (lit "https:") in
  mkOptions isHttps (hostname urlObj)
    (js_or (VStr (port urlObj)) (VNum (if isHttps then 443 else 80)))
    (pathname urlObj ++ search urlObj) method defaultHeaders 30000 false.

(** The options and the body of the request that an invocation sends. *)
Definition request_of (args : web_request.args) (urlObj : URL) : request_options :=
  let method := default (lit "GET") (web_request.method args) in
  options urlObj method
    (request_headers method (default [] (web_request.headers args))
                     (nonempty (web_request.data args))).

Definition method_of (args : web_request.args) : jsstring :=
  default (lit "GET") (web_request.method args).

(** The body written to the request: [data] when it is not empty. *)
Definition body_sent (args : web_request.args) : option jsstring :=
  nonempty (web_request.data args).

(** The object that [webRequestHandler] serialises. *)
Definition webRequest (args : web_request.args) : JS W jsval :=
  let url := web_request.url args in
  let method := default (lit "GET") (web_request.method args) in
  let data := nonempty (web_request.data args) in
  let follow_redirects := default true (web_request.follow_redirects args) in
  started <-
    try_catch
      (urlObj <- lift (url_parse P url) ;;
       let options := request_of args urlObj in
       emit (EvRequest options data) ;;;
       outcome <- call (http_request P options data) ;;
       match outcome with
       | Threw e => throw e
       | Sent ev => ret (inr ev)
       end)
      (fun error => ret (inl (failure error url method))) ;;
  match started with
  | inl result => ret result
  | inr (OnEnd res) => on_end url method follow_redirects res
  | inr (OnError error) => ret (failure error url method)
  | inr OnTimeout =>
      emit EvDestroy ;;;
      ret (failure (Error (lit "Request timeout (30s)")) url method)
  | inr NoEvent => pending
  end.

Definition webRequestHandler (args : web_request.args) : JS W jsstring :=
  result <- webRequest args ;;
  ret (JSON_stringify result).

(** *** Browse website *)

Definition or_else {A} (d : A) (r : error + A) : A :=
  match r with
  | inl _ => d
  | inr a => a
  end.

(** The callbacks of [page.evaluate]: the records they build from the
    elements of the document. *)
Definition linkElements (found : list a_element * list button_element) : list jsval :=
  map (fun link =>
         VObj [(lit "type", VStr (lit "link"));
               (lit "url", a_href link);
               (lit "text", VStr (trim (a_textContent link)));
               (lit "relative", a_attr_href link);
               (lit "visible", VBool (a_shown link))])
      (fst found)
  ++
  map (fun button =>
         VObj [(lit "type", VStr (lit "button"));
               (lit "onclick", b_onclick button);
               (lit "data_url", js_or (b_data_url button) (b_data_href button));
               (lit "text", VStr (trim (b_textContent button)));
               (lit "class", b_className button);
               (lit "visible", VBool (b_shown button));
               (lit "id", b_id button)])
      (snd found).

Definition formElements (forms : list form_element) : list jsval :=
  map (fun form =>
         let inputs :=
           map (fun input =>
                  VObj [(lit "name", i_name input);
                        (lit "type", js_or (i_type input) (VStr (i_tagName input)));
                        (lit "value", i_value input);
                        (lit "id", i_id input);
                        (lit "placeholder", i_placeholder input);
                        (lit "required", i_required input);
                        (lit "visible", VBool (i_shown input))])
               (f_inputs form) in
         VObj [(lit "action", f_action form);
               (lit "method",
                  js_or (VStr (toUpperCase P (f_method form))) (VStr (lit "GET")));
               (lit "inputs", VArr inputs);
               (lit "id", f_id form);
               (lit "class", f_className form);
               (lit "visible", VBool (f_shown form))])
      forms.

Definition scriptElements (scripts : list script_element) : list jsval :=
  map (fun script =>
         VObj [(lit "type", VStr (lit "external"));
               (lit "url", s_src script);
               (lit "relative", s_attr_src script)])
      scripts.

Definition tags (metas : list meta_element) : list jsval :=
  fold_left
    (fun tags meta =>
       let name := js_or (m_attr_name meta) (m_attr_property meta) in
       let content := m_attr_content meta in
       if truthy name && truthy content then
         tags ++ [VObj [(lit "name", name);
                        (lit "content", content);
                        (lit "type",
                           VStr (if truthy (m_attr_name meta)
                                 then lit "name" else lit "property"))]]
       else tags)
    metas [].

(** [await page.evaluate(callback).catch(() => [])] *)
Definition evaluated {A} (callback : A -> list jsval) (r : error + A) : jsval :=
  match r with
  | inl _ => VArr []
  | inr found => VArr (callback found)
  end.

Definition browseWithPuppeteer (url : jsstring)
           (extractLinks extractForms extractScripts : bool)
           (userAgent : option jsstring) : JS W jsstring :=
  launched <- call (browser_launch P) ;;
  match launched with
  | inl error => throw error
  | inr _ =>
      try_catch
        (page <- await (browser_load P url (nonempty userAgent)) ;;
         let htmlContent := p_content page in
         let headers := p_headers page in
         let result :=
           VObj [success true;
                 (lit "url", VStr url);
                 (lit "status_code", VNum (p_status page));
                 (lit "headers", VObj headers);
                 (lit "content_length", VNum (jslength htmlContent));
                 (lit "title", VStr (or_else [] (p_title page)));
                 (lit "text_content",
                    VStr (or_else [] (match p_innerText page with
                                      | inl e => inl e
                                      | inr t => inr (firstn 2000 t)
                                      end)));
                 (lit "links",
                    if extractLinks then evaluated linkElements (p_links page)
                    else VArr []);
                 (lit "forms",
                    if extractForms then evaluated formElements (p_forms page)
                    else VArr []);
                 (lit "scripts",
                    if extractScripts then evaluated scriptElements (p_scripts page)
                    else VArr []);
                 (lit "meta_tags", evaluated tags (p_meta page));
                 (lit "security_headers", VObj (security_headers headers));
                 (lit "rendered_with", VStr (lit "puppeteer"))] in
         await (browser_close P) ;;;
         ret (JSON_stringify result))
        (fun error =>
           await (browser_close P) ;;;
           throw error)
  end.

Definition extractLinksFromHTML (htmlContent url : jsstring) : list jsval :=
  fold_left
    (fun links m =>
       let hrefMatch := capture P RE_href m in
       let textMatch := capture P RE_anchor_text m in
       let text := match textMatch with Some t => trim t | None => [] end in
       match hrefMatch with
       | Some href =>
           match url_resolve P href url with
           | inr abs =>
               links ++ [VObj [(lit "type", VStr (lit "link"));
                               (lit "url", VStr abs);
                               (lit "text", VStr text);
                               (lit "relative", VStr href)]]
           | inl _ =>
               links ++ [VObj [(lit "type", VStr (lit "link"));
                               (lit "url", VStr href);
                               (lit "text", VStr text);
                               (lit "relative", VStr href);
                               (lit "invalid_url", VBool true)]]
           end
       | None => links
       end)
    (match_all P RE_anchor htmlContent) [].

Definition extractFormsFromHTML (htmlContent url : jsstring) : list jsval :=
  map
    (fun formMatch =>
       let actionMatch := capture P RE_action formMatch in
       let methodMatch := capture P RE_method formMatch in
       let inputMatches := match_all P RE_input formMatch in
       let inputs :=
         map (fun input =>
                VObj [(lit "name", VStr (default [] (capture P RE_name input)));
                      (lit "type", VStr (default (lit "text") (capture P RE_type input)));
                      (lit "value", VStr (default [] (capture P RE_value input)))])
             inputMatches in
       VObj [(lit "action", VStr (default [] actionMatch));
             (lit "method",
                VStr (match methodMatch with
                      | Some m => toUpperCase P m
                      | None => lit "GET"
                      end));
             (lit "inputs", VArr inputs)])
    (match_all P RE_form htmlContent).

Definition extractScriptsFromHTML (htmlContent url : jsstring) : list jsval :=
  fold_left
    (fun scripts m =>
       match capture P RE_src m with
       | Some src =>
           match url_resolve P src url with
           | inr abs =>
               scripts ++ [VObj [(lit "type", VStr (lit "external"));
                                 (lit "url", VStr abs);
                                 (lit "relative", VStr src)]]
           | inl _ =>
               scripts ++ [VObj [(lit "type", VStr (lit "external"));
                                 (lit "url", VStr src);
                                 (lit "relative", VStr src);
                                 (lit "invalid_url", VBool true)]]
           end
       | None => scripts
       end)
    (match_all P RE_script_src htmlContent) [].

Definition extractMetaTagsFromHTML (htmlContent : jsstring) : list jsval :=
  fold_left
    (fun metaTags meta =>
       let nameMatch := capture P RE_name meta in
       let contentMatch := capture P RE_content meta in
       let propertyMatch := capture P RE_property meta in
       match contentMatch with
       | Some content =>
           match nameMatch, propertyMatch with
           | Some n, _ =>
               metaTags ++ [VObj [(lit "name", VStr n);
                                  (lit "content", VStr content);
                                  (lit "type", VStr (lit "name"))]]
           | None, Some p =>
               metaTags ++ [VObj [(lit "name", VStr p);
                                  (lit "content", VStr content);
                                  (lit "type", VStr (lit "property"))]]
           | None, None => metaTags
           end
       | None => metaTags
       end)
    (match_all P RE_meta htmlContent) [].

(** The string that [webRequestHandler] returns is parsed again at once;
    [JSON.parse(JSON.stringify(o))] is [o] for the objects [webRequest]
    builds, so the object itself is handed over. *)
Definition browseStatic (url : jsstring)
           (extractLinks extractForms extractScripts : bool)
           (userAgent : option jsstring) : JS W jsstring :=
  let headers :=
    match nonempty userAgent with
    | Some ua => [(lit "User-Agent", VStr ua)]
    | None => []
    end in
  responseData <-
    webRequest (web_request.mk url (Some (lit "GET")) (Some headers) None None) ;;
  if negb (truthy (field "success" responseData)) then
    ret (JSON_stringify (VObj [success false;
                               (lit "error", field "error" responseData);
                               (lit "url", VStr url)]))
  else
    let htmlContent := string_of (field "body" responseData) in
    let title :=
      match capture P RE_title htmlContent with
      | Some t => trim t
      | None => []
      end in
    let text_content :=
      firstn 2000
        (trim (replace_all P RE_spaces (lit " ")
                 (replace_all P RE_tag (lit " ")
                    (replace_all P RE_style_block []
                       (replace_all P RE_script_block [] htmlContent))))) in
    ret (JSON_stringify (VObj [
      success true;
      (lit "url", VStr url);
      (lit "status_code", field "status_code" responseData);
      (lit "headers", field "headers" responseData);
      (lit "content_length", VNum (jslength htmlContent));
      (lit "title", VStr title);
      (lit "text_content", VStr text_content);
      (lit "links",
         VArr (if extractLinks then extractLinksFromHTML htmlContent url else []));
      (lit "forms",
         VArr (if extractForms then extractFormsFromHTML htmlContent url else []));
      (lit "scripts",
         VArr (if extractScripts then extractScriptsFromHTML htmlContent url else []));
      (lit "meta_tags", VArr (extractMetaTagsFromHTML htmlContent));
      (lit "security_headers",
         VObj (security_headers (object_of (field "headers" responseData))));
      (lit "rendered_with", VStr (lit "static"))])).

(** The two paths of [browseWebsiteHandler] at the arguments of an
    invocation, the request of the static path, and the state after the
    failure of the first path has been logged. *)
Definition primary (args : browse_website.args) : JS W jsstring :=
  browseWithPuppeteer (browse_website.url args)
    (default false (browse_website.extract_links args))
    (default false (browse_website.extract_forms args))
    (default false (browse_website.extract_scripts args))
    (browse_website.user_agent args).

Definition fallback (args : browse_website.args) : JS W jsstring :=
  browseStatic (browse_website.url args)
    (default false (browse_website.extract_links args))
    (default false (browse_website.extract_forms args))
    (default false (browse_website.extract_scripts args))
    (browse_website.user_agent args).

Definition static_request (args : browse_website.args) : web_request.args :=
  web_request.mk (browse_website.url args) (Some (lit "GET"))
    (Some match nonempty (browse_website.user_agent args) with
          | Some ua => [(lit "User-Agent", VStr ua)]
          | None => []
          end)
    None None.

Definition logged (s : state W) (e : error) : state W :=
  mkState (world s)
    (trace s ++ [EvConsole (lit "Puppeteer failed, falling back to static parsing: "
                            ++ message e)]).

Definition browseWebsiteHandler (args : browse_website.args) : JS W jsstring :=
  let url := browse_website.url args in
  let extract_links := default false (browse_website.extract_links args) in
  let extract_forms := default false (browse_website.extract_forms args) in
  let extract_scripts := default false (browse_website.extract_scripts args) in
  let user_agent := browse_website.user_agent args in
  try_catch
    (browseWithPuppeteer url extract_links extract_forms extract_scripts user_agent)
    (fun puppeteerError =>
       emit (EvConsole (lit "Puppeteer failed, falling back to static parsing: "
                        ++ message puppeteerError)) ;;;
       browseStatic url extract_links extract_forms extract_scripts user_agent).


(** *** Web search *)

(** [searchData.RelatedTopics.slice(0, n)], then [for ... of]: an array
    gives its items; a string has [slice] too and gives its characters;
    any other value that passed [if (searchData.RelatedTopics)] has no
    [slice]. *)
Definition related_topics (v : jsval) (n : Z) : JS W (list jsval) :=
  match v with
  | VArr items => ret (slice0 n items)
  | VStr s => ret (map (fun u => VStr [u]) (slice0 n s))
  | _ => throw (Error (lit "searchData.RelatedTopics.slice is not a function"))
  end.

(** [topic.Text.split(' - ')[0] || "Related Topic"] *)
Definition topic_title (text : jsval) : JS W jsval :=
  match text with
  | VStr s => ret (js_or (VStr (before (lit " - ") s)) (VStr (lit "Related Topic")))
  | _ => throw (Error (lit "topic.Text.split is not a function"))
  end.

Definition add_topic (results : list jsval) (topic : jsval) : JS W (list jsval) :=
  text <- prop topic "Text" ;;
  if truthy text then
    firstURL <- prop topic "FirstURL" ;;
    if truthy firstURL then
      title <- topic_title text ;;
      ret (results ++ [VObj [(lit "title", title);
                             (lit "snippet", text);
                             (lit "url", firstURL);
                             (lit "type", VStr (lit "related_topic"))]])
    else ret results
  else ret results.

Definition curlCommand (encodedQuery : jsstring) (num_results : Z) : jsstring :=
  lit "curl -s " ++ dq ++ lit "https://lite.duckduckgo.com/lite/?q="
  ++ encodedQuery ++ dq
  ++ lit " | grep -o '<a href=" ++ dq ++ lit "[^" ++ dq ++ lit "]*" ++ dq
  ++ lit "[^>]*>[^<]*</a>' | head -" ++ decimal num_results.

Definition add_web_results (results : list jsval) (stdout : jsstring) : list jsval :=
  fold_left
    (fun results m =>
       match capture P RE_lite_href m, capture P RE_lite_text m with
       | Some u, Some t =>
           results ++ [VObj [(lit "title", VStr (trim t));
                             (lit "snippet", VStr (lit "Search result"));
                             (lit "url", VStr u);
                             (lit "type", VStr (lit "web_result"))]]
       | _, _ => results
       end)
    (match_all P RE_lite_anchor stdout) results.

Definition webSearchHandler (args : web_search.args) : JS W jsstring :=
  try_catch
    (let query := web_search.query args in
     let num_results := default 10 (web_search.num_results args) in
     encoded <- lift (encodeURIComponent P query) ;;
     let searchUrl :=
       lit "https://api.duckduckgo.com/?q=" ++ encoded
       ++ lit "&format=json&no_html=1&skip_disambig=1" in
     responseData <- webRequest (web_request.mk searchUrl None None None None) ;;
     if negb (truthy (field "success" responseData)) then
       ret (JSON_stringify (VObj [success false;
                                  (lit "error", VStr (lit "Failed to perform web search"));
                                  (lit "query", VStr query)]))
     else
       searchData <- lift (JSON_parse P (string_of (field "body" responseData))) ;;
       abstract <- prop searchData "Abstract" ;;
       results <-
         (if truthy abstract then
            heading <- prop searchData "Heading" ;;
            abstractURL <- prop searchData "AbstractURL" ;;
            ret [VObj [(lit "title", js_or heading (VStr (lit "Instant Answer")));
                       (lit "snippet", abstract);
                       (lit "url", abstractURL);
                       (lit "type", VStr (lit "instant_answer"))]]
          else ret []) ;;
       relatedTopics <- prop searchData "RelatedTopics" ;;
       results <-
         (if truthy relatedTopics then
            topics <- related_topics relatedTopics
                        (num_results - Z.of_nat (List.length results)) ;;
            foldM add_topic results topics
          else ret results) ;;
       results <-
         (if Z.of_nat (List.length results) <? 3 then
            try_catch
              (encoded <- lift (encodeURIComponent P query) ;;
               cwd <- ask (process_cwd P) ;;
               ' (stdout, _) <- execAsync P (curlCommand encoded num_results) cwd defaultMaxBuffer ;;
               ret (match stdout with
                    | [] => results
                    | _ => add_web_results results stdout
                    end))
              (fun curlError => ret results)
          else ret results) ;;
       ret (JSON_stringify (VObj [
         success true;
         (lit "query", VStr query);
         (lit "results", VArr (slice0 num_results results));
         (lit "total_results", VNum (Z.of_nat (List.length results)))])))
    (fun error =>
       ret (JSON_stringify (VObj [
         success false;
         (lit "error", VStr (message error));
         (lit "query", VStr (web_search.query args))]))).

End Handlers.
End Web.

(** ** Web analysis plugin *)

Module analyze_javascript.
Record args := mk {
  url : jsstring;
  search_patterns : option (list jsstring)
}.
End analyze_javascript.

Module probe_api_endpoints.
Record args := mk {
  base_url : jsstring;
  paths : option (list jsstring)
}.
End probe_api_endpoints.

(** A search pattern: one of the regular expressions of [defaultPatterns],
    or a string of the caller. *)
Inductive pattern :=
| Builtin (r : regex)
| Custom (src : jsstring).

Definition defaultPatterns : list pattern :=
  map Builtin [RE_api_path; RE_api_url; RE_fetch; RE_axios; RE_ajax; RE_xhr;
               RE_graphql; RE_websocket].

Definition commonPaths : list jsstring :=
  [lit "/api"; lit "/api/v1"; lit "/api/v2"; lit "/v1"; lit "/v2";
   lit "/graphql"; lit "/gql"; lit "/rest"; lit "/api/rest"; lit "/api/graphql";
   lit "/api/users"; lit "/api/auth"; lit "/api/login"; lit "/api/data";
   lit "/api/search"; lit "/api/public"; lit "/endpoints"; lit "/swagger";
   lit "/docs"; lit "/openapi.json"; lit "/api-docs";
   lit "/.well-known/openapi_description"].

(** [v < n] for a status code. *)
Definition js_lt (v : jsval) (n : Z) : bool :=
  match v with
  | VNum x => x <? n
  | _ => false
  end.

(** [v?.length] *)
Definition opt_length (v : jsval) : jsval :=
  match v with
  | VStr s => VNum (jslength s)
  | VArr l => VNum (Z.of_nat (List.length l))
  | _ => VUndef
  end.

(** [v?.includes(needle)] *)
Definition opt_includes {S} (v : jsval) (needle : jsstring) : M S jsval :=
  match v with
  | VUndef | VNull => ret VUndef
  | VStr s => ret (VBool (includes needle s))
  | VArr items => ret (VBool (existsb (jsval_eqb (VStr needle)) items))
  | _ => throw (Error (lit "includes is not a function"))
  end.

(** [o?.[k]] *)
Definition opt_field (k : string) (v : jsval) : jsval :=
  match v with
  | VObj o => get_field (lit k) o
  | _ => VUndef
  end.

(** Every endpoint that the entry of a file lists is in the aggregated
    set. *)
Definition listed (entry : jsval) (found : list jsval) : Prop :=
  forall l x, field "endpoints_found" entry = VArr l -> In x l -> In x found.

Module Analysis.
Section Handlers.
Context {W : Type} (P : platform W).
Local Open Scope monad_scope.

(** The helper resolves with [JSON.stringify(o)] and both callers parse it
    at once: the object [o] is handed over. *)
Definition makeWebRequest (url method : jsstring) (headers : object) : JS W jsval :=
  let failed (error : error) :=
    VObj [success false; (lit "error", VStr (message error))] in
  started <-
    try_catch
      (urlObj <- lift (url_parse P url) ;;
       let isHttps := jsstring_eqb (protocol urlObj) (lit "https:") in
       let defaultHeaders :=
         spread [(lit "User-Agent",
                  VStr (lit "Mozilla/5.0 (X11; Linux x86_64) AppleWebKit/537.36"))]
                headers in
       let options :=
         mkOptions isHttps (hostname urlObj)
           (js_or (VStr (port urlObj)) (VNum (if isHttps then 443 else 80)))
           (pathname urlObj ++ search urlObj) method defaultHeaders 30000 false in
       emit (EvRequest options None) ;;;
       outcome <- call (http_request P options None) ;;
       match outcome with
       | Threw e => throw e
       | Sent ev => ret (inr ev)
       end)
      (fun error => ret (inl (failed error))) ;;
  match started with
  | inl result => ret result
  | inr (OnEnd res) =>
      let responseData :=
        fold_left (fun acc chunk => acc ++ Codec.utf8_decode chunk) (res_chunks res) [] in
      ret (VObj [success true;
                 (lit "status_code", VNum (statusCode res));
                 (lit "headers", VObj (res_headers res));
                 (lit "body", VStr responseData)])
  | inr (OnError error) => ret (failed error)
  | inr OnTimeout =>
      emit EvDestroy ;;;
      ret (failed (Error (lit "Request timeout")))
  | inr NoEvent => pending
  end.

(** [content.match(pattern) || []].  The patterns of [defaultPatterns] are
    global: the array holds the matched strings.  A string of the caller is
    compiled without flags, which may throw; the array then holds the
    first match and its groups, [undefined] for a group that took no part. *)
Definition matches (p : pattern) (content : jsstring) : error + list jsval :=
  match p with
  | Builtin r => inr (map VStr (match_all P r content))
  | Custom src =>
      match match_string P src content with
      | inl e => inl e
      | inr ms => inr (map (fun m => match m with
                                     | Some s => VStr s
                                     | None => VUndef
                                     end) ms)
      end
  end.

Definition patterns_of (search_patterns : option (list jsstring)) : list pattern :=
  match search_patterns with
  | Some l => map Custom l
  | None => defaultPatterns
  end.

(** The script sources of the page, made absolute where that works. *)
Definition script_files (htmlContent url : jsstring) : list jsstring :=
  fold_left
    (fun jsFiles m =>
       match capture P RE_src m with
       | Some src =>
           match url_resolve P src url with
           | inr scriptUrl => jsFiles ++ [scriptUrl]
           | inl _ => jsFiles ++ [src]
           end
       | None => jsFiles
       end)
    (match_all P RE_script_src htmlContent) [].

(** The pattern loop over one inline script. *)
Definition scan_inline (patterns : list pattern) (foundEndpoints : list jsval)
           (script : jsstring) : JS W (list jsval) :=
  let content := replace_all P RE_script_tags [] script in
  foldM (fun found pattern =>
           ms <- lift (matches pattern content) ;;
           ret (set_add_all jsval_eqb found ms))
        foundEndpoints patterns.

(** The pattern loop over one downloaded file.  Both sets are updated in
    place: what was added before a pattern throws stays added. *)
Fixpoint scan_file (patterns : list pattern) (jsContent : jsstring)
         (foundEndpoints fileEndpoints : list jsval)
  : list jsval * list jsval * option error :=
  match patterns with
  | [] => (foundEndpoints, fileEndpoints, None)
  | pattern :: rest =>
      match matches pattern jsContent with
      | inl e => (foundEndpoints, fileEndpoints, Some e)
      | inr ms =>
          scan_file rest jsContent
            (set_add_all jsval_eqb foundEndpoints ms)
            (set_add_all jsval_eqb fileEndpoints ms)
      end
  end.

Definition file_error (jsFile : jsstring) (error : error) : jsval :=
  VObj [(lit "file", VStr jsFile); (lit "error", VStr (message error))].

(** One turn of the loop over [jsFiles.slice(0, 10)]; the state of the
    loop is [foundEndpoints] and [jsAnalysis]. *)
Definition analyze_file (patterns : list pattern)
           (acc : list jsval * list jsval) (jsFile : jsstring)
  : JS W (list jsval * list jsval) :=
  let '(foundEndpoints, jsAnalysis) := acc in
  try_catch
    (jsData <- makeWebRequest jsFile (lit "GET") [] ;;
     if truthy (field "success" jsData) then
       let jsContent := string_of (field "body" jsData) in
       match scan_file patterns jsContent foundEndpoints [] with
       | (found, fileEndpoints, None) =>
           ret (found,
                jsAnalysis ++
                [VObj [(lit "file", VStr jsFile);
                       (lit "size", VNum (jslength jsContent));
                       (lit "endpoints_found", VArr fileEndpoints);
                       (lit "contains_api_calls",
                          VBool (0 <? Z.of_nat (List.length fileEndpoints)))]])
       | (found, _, Some error) => ret (found, jsAnalysis ++ [file_error jsFile error])
       end
     else ret (foundEndpoints, jsAnalysis))
    (fun error => ret (foundEndpoints, jsAnalysis ++ [file_error jsFile error])).

Definition pattern_text (p : pattern) : jsval :=
  match p with
  | Builtin r => VStr (regex_source P r)
  | Custom src => VStr src
  end.

(** An inline script without its tags. *)
Definition content_of (script : jsstring) : jsstring :=
  replace_all P RE_script_tags [] script.

(** The object of a completed analysis. *)
Definition analysis_result (url : jsstring) (patterns : list pattern)
           (foundEndpoints jsAnalysis : list jsval) : jsval :=
  VObj [success true;
        (lit "url", VStr url);
        (lit "total_endpoints_found", VNum (Z.of_nat (List.length foundEndpoints)));
        (lit "endpoints", VArr foundEndpoints);
        (lit "js_files_analyzed", VNum (Z.of_nat (List.length jsAnalysis)));
        (lit "js_files", VArr jsAnalysis);
        (lit "patterns_used", VArr (map pattern_text patterns))].

Definition analyzeJavaScriptHandler (args : analyze_javascript.args) : JS W jsstring :=
  try_catch
    (let url := analyze_javascript.url args in
     let patterns := patterns_of (analyze_javascript.search_patterns args) in
     responseData <- makeWebRequest url (lit "GET") [] ;;
     if negb (truthy (field "success" responseData)) then
       ret (JSON_stringify (VObj [success false;
                                  (lit "error", VStr (lit "Failed to fetch main page"));
                                  (lit "url", VStr url)]))
     else
       let htmlContent := string_of (field "body" responseData) in
       let jsFiles := script_files htmlContent url in
       let inlineScripts := match_all P RE_inline_script htmlContent in
       foundEndpoints <- foldM (scan_inline patterns) [] inlineScripts ;;
       ' (foundEndpoints, jsAnalysis) <-
         foldM (analyze_file patterns) (foundEndpoints, []) (firstn 10 jsFiles) ;;
       ret (JSON_stringify (analysis_result url patterns foundEndpoints jsAnalysis)))
    (fun error =>
       ret (JSON_stringify (VObj [
         success false;
         (lit "error", VStr (message error));
         (lit "url", VStr (analyze_javascript.url args))]))).

(** [a || b || c || d], each operand evaluated only when the ones before
    it are falsy. *)
Definition likely_api (responseData : jsval) : JS W jsval :=
  let body := opt_field "body" responseData in
  let contentType := opt_field "content-type" (opt_field "headers" responseData) in
  a <- opt_includes body (lit "{" ++ dq) ;;
  if truthy a then ret a else
  b <- opt_includes body (lit "[{") ;;
  if truthy b then ret b else
  c <- opt_includes contentType (lit "json") ;;
  if truthy c then ret c else
  opt_includes contentType (lit "xml").

(** One turn of the loop over the paths. *)
Definition probe (baseDomain : jsstring) (results : list jsval) (path : jsstring)
  : JS W (list jsval) :=
  let testUrl := baseDomain ++ path in
  try_catch
    (responseData <- makeWebRequest testUrl (lit "GET") [] ;;
     likely <- likely_api responseData ;;
     ret (results ++
          [VObj [(lit "url", VStr testUrl);
                 (lit "status_code",
                    js_or (field "status_code" responseData) (VStr (lit "error")));
                 (lit "accessible",
                    js_and (field "success" responseData)
                           (VBool (js_lt (field "status_code" responseData) 400)));
                 (lit "content_type",
                    js_or (opt_field "content-type" (opt_field "headers" responseData))
                          (VStr (lit "unknown")));
                 (lit "response_size",
                    js_or (opt_length (opt_field "body" responseData)) (VNum 0));
                 (lit "likely_api", likely)]]))
    (fun error =>
       ret (results ++
            [VObj [(lit "url", VStr testUrl);
                   (lit "error", VStr (message error));
                   (lit "accessible", VBool false)]])).

(** The object of a completed probe. *)
Definition probe_result (base_url : jsstring) (results : list jsval) : jsval :=
  let accessibleEndpoints := filter (fun r => truthy (field "accessible" r)) results in
  let likelyApiEndpoints := filter (fun r => truthy (field "likely_api" r)) results in
  VObj [success true;
        (lit "base_url", VStr base_url);
        (lit "total_paths_tested", VNum (Z.of_nat (List.length results)));
        (lit "accessible_endpoints", VNum (Z.of_nat (List.length accessibleEndpoints)));
        (lit "likely_api_endpoints", VNum (Z.of_nat (List.length likelyApiEndpoints)));
        (lit "results", VArr results);
        (lit "summary",
           VObj [(lit "accessible", VArr (map (field "url") accessibleEndpoints));
                 (lit "likely_apis", VArr (map (field "url") likelyApiEndpoints))])].

Definition probeApiEndpointsHandler (args : probe_api_endpoints.args) : JS W jsstring :=
  try_catch
    (let base_url := probe_api_endpoints.base_url args in
     urlObj <- lift (url_parse P base_url) ;;
     let baseDomain := protocol urlObj ++ lit "//" ++ host urlObj in
     let paths := default commonPaths (probe_api_endpoints.paths args) in
     results <- foldM (probe baseDomain) [] paths ;;
     ret (JSON_stringify (probe_result base_url results)))
    (fun error =>
       ret (JSON_stringify (VObj [
         success false;
         (lit "error", VStr (message error));
         (lit "base_url", VStr (probe_api_endpoints.base_url args))]))).

End Handlers.
End Analysis.

(** ** The registry

    Every plugin's [init] registers its handlers under the names of their
    definitions.  An invocation is a registered tool with an arguments
    object of the shape its schema asks for. *)

Inductive invocation :=
| execute_command_ (args : execute_command.args)
| read_file_ (args : read_file.args)
| write_file_ (args : write_file.args)
| list_directory_ (args : list_directory.args)
| get_cwd_
| web_request_ (args : web_request.args)
| browse_website_ (args : browse_website.args)
| web_search_ (args : web_search.args)
| analyze_javascript_ (args : analyze_javascript.args)
| probe_api_endpoints_ (args : probe_api_endpoints.args)
| base64_encode_ (args : base64_encode.args)
| base64_decode_ (args : base64_decode.args)
| hash_text_ (args : hash_text.args).

Definition handler {W} (P : platform W) (i : invocation) : JS W jsstring :=
  match i with
  | execute_command_ args => Command.executeCommandHandler P args
  | read_file_ args => Filesystem.readFileHandler P args
  | write_file_ args => Filesystem.writeFileHandler P args
  | list_directory_ args => Filesystem.listDirectoryHandler P args
  | get_cwd_ => Filesystem.getCwdHandler P
  | web_request_ args => Web.webRequestHandler P args
  | browse_website_ args => Web.browseWebsiteHandler P args
  | web_search_ args => Web.webSearchHandler P args
  | analyze_javascript_ args => Analysis.analyzeJavaScriptHandler P args
  | probe_api_endpoints_ args => Analysis.probeApiEndpointsHandler P args
  | base64_encode_ args => Example.base64EncodeHandler args
  | base64_decode_ args => Example.base64DecodeHandler args
  | hash_text_ args => Example.hashTextHandler P args
  end.

(** The name under which each handler is registered. *)
Definition tool_name (i : invocation) : jsstring :=
  match i with
  | execute_command_ _ => lit "execute_command"
  | read_file_ _ => lit "read_file"
  | write_file_ _ => lit "write_file"
  | list_directory_ _ => lit "list_directory"
  | get_cwd_ => lit "get_cwd"
  | web_request_ _ => lit "web_request"
  | browse_website_ _ => lit "browse_website"
  | web_search_ _ => lit "web_search"
  | analyze_javascript_ _ => lit "analyze_javascript"
  | probe_api_endpoints_ _ => lit "probe_api_endpoints"
  | base64_encode_ _ => lit "base64_encode"
  | base64_decode_ _ => lit "base64_decode"
  | hash_text_ _ => lit "hash_text"
  end.



(** ** What a handler owes its caller *)

(** A string a handler may return: a JSON text, the serialisation of an
    object with a boolean [success]. *)
Definition reply (out : jsstring) : Prop :=
  json_text out /\
  exists o b, out = JSON_stringify (VObj o) /\ get_field (lit "success") o = VBool b.

Definition reply_object (v : jsval) : Prop :=
  exists o b, v = VObj o /\ get_field (lit "success") o = VBool b.

(** The ways in which a call may fail to settle: an exception that no
    [try] block sees ([Some e]), or waiting for ever ([None]).  [c] fails
    to settle in the ways [U] allows only, and a value it returns
    satisfies [Q]; it may throw. *)
Definition safe {S A} (U : option error -> Prop) (Q : A -> Prop) (c : M S A) : Prop :=
  forall s, match fst (c s) with
            | Normal a => Q a
            | Throw _ => True
            | Uncaught e => U (Some e)
            | Pending => U None
            end.

(** [c] moreover does not throw. *)
Definition total {S A} (U : option error -> Prop) (Q : A -> Prop) (c : M S A) : Prop :=
  forall s, match fst (c s) with
            | Normal a => Q a
            | Throw _ => False
            | Uncaught e => U (Some e)
            | Pending => U None
            end.

(** The error of a redirect whose [Location] cannot be resolved. *)
Definition unresolved {W} (P : platform W) (e : error) : Prop :=
  exists location url, url_resolve P location url = inl e.

(** The platform leaves a request without any of the three events. *)
Definition unanswered {W} (P : platform W) : Prop :=
  exists options body w, fst (http_request P options body w) = Sent NoEvent.

(** Every request that is sent gets one of the three events. *)
Definition answered {W} (P : platform W) : Prop :=
  forall options body w, fst (http_request P options body w) <> Sent NoEvent.


(** How a call that goes through [webRequestHandler] may fail to settle,
    and how one that goes through [makeWebRequest] may. *)
Definition astray {W} (P : platform W) (x : option error) : Prop :=
  match x with
  | Some e => unresolved P e
  | None => unanswered P
  end.


(** ** A small world for examples

    One host, [example.test]: a page with two external scripts and an
    inline one, of which [/app.js] cannot be fetched; a JSON endpoint; two
    redirects; a path that never answers.  The instant-answer API with 25
    related topics.  A shell that knows two commands.  A directory with a
    file and a dangling link.  No browser. *)

Scheme Equality for regex.

Module Demo.

(** [s] up to the first occurrence of [sep], and what follows it. *)
Fixpoint split_at (sep s : jsstring) : jsstring * option jsstring :=
  match s with
  | [] => ([], None)
  | u :: s' =>
      if starts_with sep s then ([], Some (skipn (List.length sep) s))
      else let '(a, b) := split_at sep s' in (u :: a, b)
  end.

Fixpoint from_first (u : Z) (s : jsstring) : jsstring :=
  match s with
  | [] => []
  | v :: s' => if v =? u then s else from_first u s'
  end.

Fixpoint up_to_first (u : Z) (s : jsstring) : jsstring :=
  match s with
  | [] => []
  | v :: s' => if v =? u then [] else v :: up_to_first u s'
  end.

Definition invalid_url : error :=
  mkError (lit "Invalid URL") (VStr (lit "ERR_INVALID_URL")) None None.

Definition host_char (u : Z) : bool :=
  ((97 <=? u) && (u <=? 122)) || ((48 <=? u) && (u <=? 57)) || (u =? 46) || (u =? 45).

(** [new URL(u)] for [scheme://host/path?query] with a host of letters,
    digits, dots and hyphens; anything else is invalid. *)
Definition parse (u : jsstring) : error + URL :=
  match split_at (lit "://") u with
  | (scheme, Some rest) =>
      let h := up_to_first 63 (up_to_first 47 rest) in
      let after := from_first 47 rest in
      let path := up_to_first 63 (match after with [] => lit "/" | _ => after end) in
      let query := from_first 63 rest in
      if (jsstring_eqb scheme (lit "http") || jsstring_eqb scheme (lit "https"))
         && negb (jsstring_eqb h []) && forallb host_char h
      then inr (mkURL (scheme ++ lit ":") h [] path query h)
      else inl invalid_url
  | (_, None) => inl invalid_url
  end.

Definition origin (u : URL) : jsstring := protocol u ++ lit "//" ++ host u.

Definition href (u : URL) : jsstring := origin u ++ pathname u ++ search u.

(** [new URL(rel, base).href] for a path or an absolute URL. *)
Definition resolve (rel base : jsstring) : error + jsstring :=
  match parse base with
  | inl e => inl e
  | inr b =>
      if starts_with (lit "/") rel then inr (origin b ++ rel)
      else
        match parse rel with
        | inl e => inl e
        | inr r => inr (href r)
        end
  end.

Definition app_tag : jsstring := lit "<script src='/app.js'>".
Definition lib_tag : jsstring := lit "<script src='/lib.js'>".
Definition app_script : jsstring := app_tag ++ lit "</script>".
Definition lib_script : jsstring := lib_tag ++ lit "</script>".
Definition call_users : jsstring := lit "fetch('/api/users')".
Definition inline_script : jsstring := lit "<script>" ++ call_users ++ lit "</script>".
Definition page_html : jsstring := app_script ++ lib_script ++ inline_script.

Definition regex_is (a b : regex) : bool := regex_beq a b.

Definition all_matches (r : regex) (s : jsstring) : list jsstring :=
  if jsstring_eqb s page_html then
    if regex_is r RE_script_src then [app_tag; lib_tag]
    else if regex_is r RE_inline_script then [app_script; lib_script; inline_script]
    else []
  else if jsstring_eqb s call_users then
    if regex_is r RE_api_path then [lit "/api/users"]
    else if regex_is r RE_fetch then [call_users]
    else []
  else [].

Definition first_group (r : regex) (s : jsstring) : option jsstring :=
  if regex_is r RE_src && jsstring_eqb s app_tag then Some (lit "/app.js")
  else if regex_is r RE_src && jsstring_eqb s lib_tag then Some (lit "/lib.js")
  else None.

Definition replaced (r : regex) (by_ s : jsstring) : jsstring :=
  if regex_is r RE_script_block && jsstring_eqb s page_html then []
  else if regex_is r RE_script_tags then
    if jsstring_eqb s app_script || jsstring_eqb s lib_script then []
    else if jsstring_eqb s inline_script then call_users
    else s
  else s.

Definition source (r : regex) : jsstring :=
  match r with
  | RE_api_path => lit "/\/api\/[^\s" ++ dq ++ lit "']+/g"
  | RE_api_url =>
      lit "/https?:\/\/[^\s" ++ dq ++ lit "']*api[^\s" ++ dq ++ lit "']*/g"
  | RE_fetch =>
      lit "/fetch\s*\(\s*['" ++ dq ++ lit "](.*?)['" ++ dq ++ lit "][^)]*\)/g"
  | RE_axios =>
      lit "/axios\.(get|post|put|delete)\s*\(\s*['" ++ dq ++ lit "](.*?)['"
      ++ dq ++ lit "][^)]*\)/g"
  | RE_ajax =>
      lit "/\$\.ajax\s*\(\s*{[^}]*url\s*:\s*['" ++ dq ++ lit "](.*?)['"
      ++ dq ++ lit "][^}]*}/g"
  | RE_xhr =>
      lit "/XMLHttpRequest[^;]*\.open\s*\(\s*[^,]*,\s*['" ++ dq ++ lit "](.*?)['"
      ++ dq ++ lit "][^)]*\)/g"
  | RE_graphql => lit "/graphql|gql/gi"
  | RE_websocket => lit "/websocket|ws:/gi"
  | _ => lit "/(?:)/"
  end.

Definition topic (i : nat) : jsval :=
  VObj [(lit "Text", VStr (lit "Topic " ++ decimal (Z.of_nat i) ++ lit " - about it"));
        (lit "FirstURL", VStr (lit "https://duckduckgo.com/t" ++ decimal (Z.of_nat i)))].

Definition searchData : jsval :=
  VObj [(lit "Abstract", VStr []);
        (lit "RelatedTopics", VArr (map topic (seq 1 25)))].

Definition parse_json (s : jsstring) : error + jsval :=
  if jsstring_eqb s (JSON_stringify searchData) then inr searchData
  else if jsstring_eqb s (lit "[]") then inr (VArr [])
  else inl (Error (lit "Unexpected token"))
.

Definition ok (hs : object) (body : jsstring) : http_outcome :=
  Sent (OnEnd (mkResponse 200 (lit "OK") hs [Codec.utf8_encode body])).

Definition hang_up : error :=
  mkError (lit "socket hang up") (VStr (lit "ECONNRESET")) None None.

Definition request (o : request_options) (body : option jsstring) (w : unit)
  : http_outcome * unit :=
  (if jsstring_eqb (o_hostname o) (lit "api.duckduckgo.com") then
     ok [(lit "content-type", VStr (lit "application/x-javascript"))]
        (JSON_stringify searchData)
   else if jsstring_eqb (o_path o) (lit "/") then
     ok [(lit "content-type", VStr (lit "text/html"))] page_html
   else if jsstring_eqb (o_path o) (lit "/lib.js") then
     ok [(lit "content-type", VStr (lit "text/javascript"))] call_users
   else if jsstring_eqb (o_path o) (lit "/api") then
     ok [(lit "content-type", VStr (lit "application/json"))] (lit "[]")
   else if jsstring_eqb (o_path o) (lit "/old") then
     Sent (OnEnd (mkResponse 301 (lit "Moved Permanently")
                    [(lit "location", VStr (lit "/new"))] []))
   else if jsstring_eqb (o_path o) (lit "/bad") then
     Sent (OnEnd (mkResponse 302 (lit "Found")
                    [(lit "location", VStr (lit "http://["))] []))
   else if jsstring_eqb (o_path o) (lit "/slow") then Sent OnTimeout
   else Sent (OnError hang_up),
   w).

Definition shell (cmd cwd : jsstring) (maxBuffer : Z) (w : unit)
  : exec_outcome * unit :=
  (if jsstring_eqb cmd (lit "exit 3") then Exited 3 [] []
   else if jsstring_eqb cmd (lit "echo hello") then Exited 0 (lit "hello" ++ [10]) []
   else Exited 127 [] (lit "/bin/sh: 1: " ++ cmd ++ lit ": not found" ++ [10]),
   w).

Definition cwd : jsstring := lit "/srv".

Definition join (a b : jsstring) : jsstring := a ++ lit "/" ++ b.

Definition absolute (p : jsstring) : jsstring :=
  if starts_with (lit "/") p then p
  else if jsstring_eqb p (lit ".") then cwd
  else join cwd p.

Definition enoent (what p : jsstring) : error :=
  mkError (lit "ENOENT: no such file or directory, " ++ what ++ lit " '" ++ p ++ lit "'")
          (VStr (lit "ENOENT")) None None.

Definition entries : list dirent :=
  [mkDirent (lit "notes.txt") false; mkDirent (lit "dangling") false].

Definition readdir (p : jsstring) (w : unit) : (error + list dirent) * unit :=
  (if jsstring_eqb p cwd then inr entries else inl (enoent (lit "scandir") p), w).

Definition new_year : jsval := VStr (lit "2025-01-01T00:00:00.000Z").

Definition stat (p : jsstring) (w : unit) : (nat * (error + stats)) * unit :=
  (if jsstring_eqb p cwd then (1%nat, inr (mkStats 4096 new_year))
   else if jsstring_eqb p (lit "/srv/notes.txt") then (1%nat, inr (mkStats 12 new_year))
   else (1%nat, inl (enoent (lit "stat") p)),
   w).

Definition readFile (p : jsstring) (w : unit) : (error + jsstring) * unit :=
  (if jsstring_eqb p (lit "/srv/notes.txt") then inr (lit "hello world" ++ [10])
   else inl (enoent (lit "open") p),
   w).

Definition read_only (p : jsstring) : error :=
  mkError (lit "EROFS: read-only file system, open '" ++ p ++ lit "'")
          (VStr (lit "EROFS")) None None.

Definition no_browser : error := Error (lit "Could not find Chrome").

Definition node : platform unit :=
  mkPlatform unit
    parse resolve (fun s => inr s)
    all_matches first_group replaced source (fun _ _ => inr []) (fun s => s)
    parse_json
    (fun _ => inl (Error (lit "incorrect header check")))
    (fun _ => inl (Error (lit "incorrect header check")))
    (fun _ _ => inl (Error (lit "Digest method not supported")))
    (fun _ => absolute) (fun p => p) join (fun _ => cwd)
    shell
    readFile (fun p _ w => (inl (read_only p), w)) (fun _ w => (inr tt, w)) readdir stat
    request
    (fun w => (inl no_browser, w)) (fun _ _ w => (inl no_browser, w))
    (fun w => (inr tt, w)).

Definition start : state unit := mkState tt [].

Definition home : jsstring := lit "http://example.test/".

(** The arguments [{url: u}] of [web_request]. *)
Definition get (u : jsstring) : web_request.args :=
  web_request.mk u None None None None.

(** The path of a request. *)
Definition path_of (ev : event) : jsstring :=
  match ev with
  | EvRequest o _ => o_path o
  | _ => []
  end.

(** The results that [web_search] builds from the topics. *)
Definition result_of (i : nat) : jsval :=
  VObj [(lit "title", VStr (lit "Topic " ++ decimal (Z.of_nat i)));
        (lit "snippet", field "Text" (topic i));
        (lit "url", field "FirstURL" (topic i));
        (lit "type", VStr (lit "related_topic"))].

(** The entry of [probe_api_endpoints] for [/api]. *)
Definition api_entry : jsval :=
  VObj [(lit "url", VStr (lit "http://example.test/api"));
        (lit "status_code", VNum 200);
        (lit "accessible", VBool true);
        (lit "content_type", VStr (lit "application/json"));
        (lit "response_size", VNum 2);
        (lit "likely_api", VBool true)].

(** The entry of [analyze_javascript] for [/lib.js]. *)
Definition lib_entry : jsval :=
  VObj [(lit "file", VStr (lit "http://example.test/lib.js"));
        (lit "size", VNum 19);
        (lit "endpoints_found", VArr [VStr (lit "/api/users"); VStr call_users]);
        (lit "contains_api_calls", VBool true)].

End Demo.
(** ** Notions used to state what the handlers keep *)

(** [String.prototype.toWellFormed]: the text with U+FFFD in the place of
    every surrogate that has no partner. *)
Fixpoint toWellFormed (s : jsstring) : jsstring :=
  match s with
  | [] => []
  | u :: rest =>
      if Codec.is_high u then
        match rest with
        | v :: rest' =>
            if Codec.is_low v then u :: v :: toWellFormed rest'
            else Codec.replacement :: toWellFormed rest
        | [] => [Codec.replacement]
        end
      else if Codec.is_low u then Codec.replacement :: toWellFormed rest
      else u :: toWellFormed rest
  end.

(** A character that the base64 decoder skips: its low byte is not of the
    alphabet and is not the padding character. *)
Definition skipped (c : Z) : Prop :=
  Codec.unbase64 c = None /\ Codec.low_byte c <> Codec.pad.

(** The URL-safe spelling of a base64 character. *)
Definition url_safe (c : Z) : Z :=
  if c =? 43 then 45 else if c =? 47 then 95 else c.

(** [s] neither starts nor ends with white space. *)
Definition trimmed (s : jsstring) : Prop :=
  (forall u, hd_error s = Some u -> is_space u = false) /\
  (forall u, hd_error (rev s) = Some u -> is_space u = false).

(** [t] is [s] without the white space at its two ends. *)
Definition stripped (s t : jsstring) : Prop :=
  exists front back,
    s = front ++ t ++ back /\
    Forall (fun u => is_space u = true) front /\
    Forall (fun u => is_space u = true) back /\
    trimmed t.

(** The [stat] of every entry of a directory, the calls made in the order
    of the entries: what each call answers, and the world they leave. *)
Fixpoint stat_entries {W} (P : platform W) (dir : jsstring) (entries : list dirent)
         (w : W) : list (nat * (error + stats)) * W :=
  match entries with
  | [] => ([], w)
  | entry :: rest =>
      let '(answer, w1) := fs_stat P (path_join P dir (name entry)) w in
      let '(answers, w2) := stat_entries P dir rest w1 in
      (answer :: answers, w2)
  end.

(** The promise that the callback of [entries.map] gives for an entry whose [stat] has
    answered. *)
Definition promise_of (entry : dirent) (answer : nat * (error + stats))
  : nat * (error + jsval) :=
  (fst answer,
   match snd answer with
   | inl e => inl e
   | inr stats => inr (entry_record entry stats)
   end).

Fixpoint promises_of (entries : list dirent) (answers : list (nat * (error + stats)))
  : list (nat * (error + jsval)) :=
  match entries, answers with
  | entry :: entries', answer :: answers' =>
      promise_of entry answer :: promises_of entries' answers'
  | _, _ => []
  end.

(** The [stat] of an entry failed. *)
Definition stat_failed (answer : nat * (error + stats)) : Prop :=
  exists e, snd answer = inl e.

(** The answers to the requests for the script files, each with its file,
    in the order in which the loop of [analyze_javascript] gets them. *)
Fixpoint fetched {W} (P : platform W) (files : list jsstring) (s : state W)
  : list (jsstring * jsval) :=
  match files with
  | [] => []
  | jsFile :: rest =>
      match Analysis.makeWebRequest P jsFile (lit "GET") [] s with
      | (Normal jsData, s') => (jsFile, jsData) :: fetched P rest s'
      | _ => []
      end
  end.

(** What [analyze_javascript] owes its set of endpoints, [s1] being the
    state in which the page has been fetched: it holds no value twice; it
    holds every match of every pattern in every inline script; and it
    holds every match, in the body of every script file that was fetched,
    of every pattern that runs on that body -- a pattern runs when none
    before it has thrown. *)
Definition aggregated {W} (P : platform W) (patterns : list pattern)
           (htmlContent url : jsstring) (s1 : state W) (endpoints : list jsval) : Prop :=
  NoDup endpoints
  /\ (forall script pattern ms x,
        In script (match_all P RE_inline_script htmlContent) ->
        In pattern patterns ->
        Analysis.matches P pattern (Analysis.content_of P script) = inr ms ->
        In x ms -> In x endpoints)
  /\ (forall jsFile jsData ahead pattern rest ms x,
        In (jsFile, jsData)
           (fetched P (firstn 10 (Analysis.script_files P htmlContent url)) s1) ->
        truthy (field "success" jsData) = true ->
        patterns = ahead ++ pattern :: rest ->
        Forall (fun q => exists qs,
                  Analysis.matches P q (string_of (field "body" jsData)) = inr qs)
               ahead ->
        Analysis.matches P pattern (string_of (field "body" jsData)) = inr ms ->
        In x ms -> In x endpoints).

(** No string twice. *)
Fixpoint distinct (l : list jsstring) : bool :=
  match l with
  | [] => true
  | x :: l' => negb (existsb (jsstring_eqb x) l') && distinct l'
  end.

(** [c] sends at most [n] requests through [http] or [https], whatever
    the state it starts in and however it ends; the requests sent before
    stay in the trace. *)
Definition sends {W A} (n : nat) (c : JS W A) : Prop :=
  forall s, exists new,
    requests (snd (c s)) = requests s ++ new /\ (List.length new <= n)%nat.

(** The number of requests an invocation may send. *)
Definition budget (i : invocation) : nat :=
  match i with
  | web_request_ _ | browse_website_ _ | web_search_ _ => 1
  | analyze_javascript_ _ => 11
  | probe_api_endpoints_ args =>
      List.length (default commonPaths (probe_api_endpoints.paths args))
  | _ => 0
  end.

(** The keys of an object. *)
Definition keys (o : object) : list jsstring := map fst o.

(** One turn of the loop over [securityHeaders]. *)
Definition copy_header (hs acc : object) (header : jsstring) : object :=
  if truthy (get_field header hs)
  then set_field header (get_field header hs) acc else acc.

(** What both paths of [browse_website] keep: a result that reports
    success has at most 2000 characters of text and no header among its
    [security_headers] but the six. *)
Definition browse_ok (out : jsstring) : Prop :=
  exists o,
    out = JSON_stringify (VObj o) /\
    (get_field (lit "success") o = VBool false \/
     exists text kept,
       get_field (lit "success") o = VBool true /\
       get_field (lit "text_content") o = VStr text /\
       (List.length text <= 2000)%nat /\
       get_field (lit "security_headers") o = VObj kept /\
       forall k, In k (keys kept) -> In k securityHeaders).

(** A second example world: a host with a file system in memory (a file
    is its path and its bytes, the newest first) and a directory [/tmp] of
    two names that are no files; a browser that can open the home page and
    a page with one link; a server that sends one body with a wrong
    [Content-Encoding] and breaks off one response after its headers; and
    a regular-expression engine that refuses the pattern [(]. *)
Module Host.

Definition files := list (jsstring * list Z).

Fixpoint lookup (p : jsstring) (fs : files) : option (list Z) :=
  match fs with
  | [] => None
  | (q, c) :: fs' => if jsstring_eqb p q then Some c else lookup p fs'
  end.

(** [readFile(p, 'utf-8')] *)
Definition readFile (p : jsstring) (fs : files) : (error + jsstring) * files :=
  (match lookup p fs with
   | Some bytes => inr (Codec.utf8_decode bytes)
   | None => inl (Demo.enoent (lit "open") p)
   end, fs).

(** [writeFile(p, c, 'utf-8')] *)
Definition writeFile (p c : jsstring) (fs : files) : (error + unit) * files :=
  (inr tt, (p, Codec.utf8_encode c) :: fs).

(** The [stat] of [/tmp/zz] takes longer than any other. *)
Definition stat (p : jsstring) (fs : files) : (nat * (error + stats)) * files :=
  ((if jsstring_eqb p (lit "/tmp/zz") then 5%nat else 1%nat,
    match lookup p fs with
    | Some bytes => inr (mkStats (Z.of_nat (List.length bytes)) Demo.new_year)
    | None => inl (Demo.enoent (lit "stat") p)
    end), fs).

Definition readdir (p : jsstring) (fs : files) : (error + list dirent) * files :=
  (if jsstring_eqb p (lit "/tmp")
   then inr [mkDirent (lit "zz") false; mkDirent (lit "a") false]
   else inl (Demo.enoent (lit "scandir") p),
   fs).

Definition packed : response :=
  mkResponse 200 (lit "OK") [(lit "content-encoding", VStr (lit "gzip"))]
             [Codec.utf8_encode (lit "plain")].

(** A page with one link. *)
Definition links_html : jsstring := lit "<a href='/new'>New</a>".

Definition links : jsstring := lit "http://example.test/links".

Definition request (o : request_options) (body : option jsstring) (fs : files)
  : http_outcome * files :=
  (if jsstring_eqb (o_path o) (lit "/packed") then Sent (OnEnd packed)
   else if jsstring_eqb (o_path o) (lit "/cut") then Sent NoEvent
   else if jsstring_eqb (o_path o) (lit "/links") then
     Demo.ok [(lit "content-type", VStr (lit "text/html"))] links_html
   else fst (Demo.request o body tt),
   fs).

Definition all_matches (r : regex) (s : jsstring) : list jsstring :=
  if jsstring_eqb s links_html then
    if Demo.regex_is r RE_anchor then [links_html] else []
  else Demo.all_matches r s.

Definition first_group (r : regex) (s : jsstring) : option jsstring :=
  if jsstring_eqb s links_html then
    if Demo.regex_is r RE_href then Some (lit "/new")
    else if Demo.regex_is r RE_anchor_text then Some (lit "New")
    else None
  else Demo.first_group r s.

Definition replaced (r : regex) (by_ s : jsstring) : jsstring :=
  if jsstring_eqb s links_html then
    if Demo.regex_is r RE_tag then lit " New " else s
  else Demo.replaced r by_ s.

Definition unterminated : error :=
  Error (lit "Invalid regular expression: /(/: Unterminated group").

Definition compile (src content : jsstring) : error + list (option jsstring) :=
  if jsstring_eqb src (lit "(") then inl unterminated else inr [].

Definition home_page : page :=
  mkPage Demo.page_html 200
    [(lit "content-type", VStr (lit "text/html"));
     (lit "x-frame-options", VStr (lit "DENY"))]
    (inr (lit "Example")) (inr (lit "Example text"))
    (inr ([], [])) (inr []) (inr []) (inr []).

Definition links_page : page :=
  mkPage links_html 200
    [(lit "content-type", VStr (lit "text/html"))]
    (inr []) (inr (lit "New"))
    (inr ([mkA (VStr (lit "http://example.test/new")) (lit "New")
               (VStr (lit "/new")) true],
          []))
    (inr []) (inr []) (inr []).

Definition unreachable : error := Error (lit "net::ERR_NAME_NOT_RESOLVED").

Definition load (url : jsstring) (userAgent : option jsstring) (fs : files)
  : (error + page) * files :=
  (if jsstring_eqb url Demo.home then inr home_page
   else if jsstring_eqb url links then inr links_page
   else inl unreachable, fs).

(** The host, with its browser installed or not. *)
Definition installed (browser : bool) : platform files :=
  mkPlatform files
    Demo.parse Demo.resolve (fun s => inr s)
    all_matches first_group replaced Demo.source
    compile (fun s => s)
    Demo.parse_json
    (fun _ => inl (Error (lit "incorrect header check")))
    (fun _ => inl (Error (lit "incorrect header check")))
    (fun _ _ => inl (Error (lit "Digest method not supported")))
    (fun _ => Demo.absolute) (fun p => p) Demo.join (fun _ => Demo.cwd)
    (fun cmd cwd maxBuffer fs => (fst (Demo.shell cmd cwd maxBuffer tt), fs))
    readFile writeFile (fun _ fs => (inr tt, fs)) readdir stat
    request
    (fun fs => (if browser then inr tt else inl Demo.no_browser, fs))
    load (fun fs => (inr tt, fs)).

Definition node : platform files := installed true.

Definition headless : platform files := installed false.

Definition fresh : state files := mkState [] [].

(** [new URL("http://example.test/")] *)
Definition home_url : URL :=
  mkURL (lit "http:") (lit "example.test") [] (lit "/") [] (lit "example.test").

End Host.

(** * Properties *)

(** ** Tactics *)

Ltac zdm := Z.div_mod_to_equations; lia.

Ltac bool_dec :=
  repeat rewrite ?andb_true_iff, ?andb_false_iff, ?orb_true_iff, ?orb_false_iff,
     ?Z.leb_le, ?Z.leb_gt, ?Z.ltb_lt, ?Z.ltb_ge, ?Z.eqb_eq, ?Z.eqb_neq;
  zdm.

Ltac settle b :=
  first [ replace b with true by (symmetry; bool_dec)
        | replace b with false by (symmetry; bool_dec) ].

Ltac settle_ifs :=
  repeat match goal with
         | |- context [if ?b then _ else _] =>
             lazymatch b with
             | context [if _ then _ else _] => fail
             | _ => settle b
             end
         end.

(** Runs the monad of the handlers. *)
Ltac unfold_monad :=
  cbv [await bind try_catch ret throw uncaught pending lift call ask emit] in *;
  cbn [world trace] in *.

(** Splits on the answer of the next platform call in [H]. *)
Ltac case_oracle H :=
  match type of H with
  | context [let (_, _) := ?c in _] =>
      lazymatch c with
      | context [let (_, _) := _ in _] => fail
      | _ => destruct c as [[?|?] ?] eqn:?
      end
  end; cbv beta iota zeta in H; cbn [world trace] in H.

(** ** The codecs *)

Section CodecFacts.
Import Codec.

Lemma lead_ascii b : 0 <= b <= 0x7F -> lead_step b = ([b], d_init).
Proof. intros. unfold lead_step. settle_ifs. reflexivity. Qed.

Lemma lead_two b :
  0xC2 <= b <= 0xDF -> lead_step b = ([], mkD (b - 0xC0) 1 0x80 0xBF).
Proof. intros. unfold lead_step. settle_ifs. reflexivity. Qed.

Lemma lead_three b :
  0xE0 <= b <= 0xEF ->
  lead_step b = ([], mkD (b - 0xE0) 2 (if b =? 0xE0 then 0xA0 else 0x80)
                                      (if b =? 0xED then 0x9F else 0xBF)).
Proof.
  intros. unfold lead_step.
  replace (b <=? 0x7F) with false by (symmetry; bool_dec).
  replace ((0xC2 <=? b) && (b <=? 0xDF)) with false by (symmetry; bool_dec).
  replace ((0xE0 <=? b) && (b <=? 0xEF)) with true by (symmetry; bool_dec).
  reflexivity.
Qed.

Lemma lead_four b :
  0xF0 <= b <= 0xF4 ->
  lead_step b = ([], mkD (b - 0xF0) 3 (if b =? 0xF0 then 0x90 else 0x80)
                                      (if b =? 0xF4 then 0x8F else 0xBF)).
Proof.
  intros. unfold lead_step.
  replace (b <=? 0x7F) with false by (symmetry; bool_dec).
  replace ((0xC2 <=? b) && (b <=? 0xDF)) with false by (symmetry; bool_dec).
  replace ((0xE0 <=? b) && (b <=? 0xEF)) with false by (symmetry; bool_dec).
  replace ((0xF0 <=? b) && (b <=? 0xF4)) with true by (symmetry; bool_dec).
  reflexivity.
Qed.

Lemma cont_last cp lo hi b :
  lo <= b <= hi ->
  decode_step (mkD cp 1 lo hi) b = ([cp * 64 + (b - 0x80)], d_init).
Proof.
  intros. unfold decode_step. cbn [d_needed d_lower d_upper d_cp].
  replace ((lo <=? b) && (b <=? hi)) with true by (symmetry; bool_dec).
  reflexivity.
Qed.

Lemma cont_more cp n lo hi b :
  1 < n -> lo <= b <= hi ->
  decode_step (mkD cp n lo hi) b = ([], mkD (cp * 64 + (b - 0x80)) (n - 1) 0x80 0xBF).
Proof.
  intros. unfold decode_step. cbn [d_needed d_lower d_upper d_cp].
  replace (n =? 0) with false by (symmetry; bool_dec).
  replace (n =? 1) with false by (symmetry; bool_dec).
  replace ((lo <=? b) && (b <=? hi)) with true by (symmetry; bool_dec).
  reflexivity.
Qed.

Lemma decode_lead b bs :
  decode_from d_init (b :: bs) =
  fst (lead_step b) ++ decode_from (snd (lead_step b)) bs.
Proof.
  cbn [decode_from]. unfold decode_step. cbn [d_needed d_init Z.eqb].
  destruct (lead_step b); reflexivity.
Qed.

Lemma decode_cont st b bs :
  decode_from st (b :: bs) =
  fst (decode_step st b) ++ decode_from (snd (decode_step st b)) bs.
Proof. cbn [decode_from]. destruct (decode_step st b); reflexivity. Qed.

(** The decoder reads the bytes of a code point back as that code point. *)
Lemma decode_encode_cp c bs :
  scalar c -> decode_from d_init (encode_cp c ++ bs) = c :: decode_from d_init bs.
Proof.
  intros Hc. unfold scalar in Hc. unfold encode_cp.
  destruct (Z.ltb_spec c 0x80);
    [|destruct (Z.ltb_spec c 0x800); [|destruct (Z.ltb_spec c 0x10000)]];
    cbn [app]; rewrite decode_lead.
  - rewrite lead_ascii by lia. reflexivity.
  - rewrite lead_two by zdm. cbn [fst snd app].
    rewrite decode_cont, cont_last by zdm. cbn [fst snd app]. f_equal. zdm.
  - rewrite lead_three by zdm. cbn [fst snd app].
    rewrite decode_cont, cont_more;
      [| lia
       | destruct (Z.eqb_spec (0xE0 + c / 4096) 0xE0),
                  (Z.eqb_spec (0xE0 + c / 4096) 0xED); zdm].
    cbn [fst snd app]. rewrite decode_cont.
    replace (2 - 1) with 1 by reflexivity.
    rewrite cont_last by zdm. cbn [fst snd app]. f_equal. zdm.
  - rewrite lead_four by zdm. cbn [fst snd app].
    rewrite decode_cont, cont_more;
      [| lia
       | destruct (Z.eqb_spec (0xF0 + c / 262144) 0xF0),
                  (Z.eqb_spec (0xF0 + c / 262144) 0xF4); zdm].
    cbn [fst snd app]. rewrite decode_cont, cont_more by zdm. cbn [fst snd app].
    rewrite decode_cont. replace (3 - 1 - 1) with 1 by reflexivity.
    rewrite cont_last by zdm. cbn [fst snd app]. f_equal. zdm.
Qed.

Lemma encode_cp_bytes c : scalar c -> Forall byte (encode_cp c).
Proof.
  intros Hc. unfold scalar in Hc. unfold encode_cp, byte.
  destruct (Z.ltb_spec c 0x80);
    [|destruct (Z.ltb_spec c 0x800); [|destruct (Z.ltb_spec c 0x10000)]];
    repeat constructor; zdm.
Qed.

Lemma utf16_of_unit c : code_unit c -> utf16_of_cp c = [c].
Proof. unfold code_unit, utf16_of_cp. intros. settle_ifs. reflexivity. Qed.

Lemma surrogates h l :
  is_high h = true -> is_low l = true ->
  0xD800 <= h <= 0xDBFF /\ 0xDC00 <= l <= 0xDFFF.
Proof.
  unfold is_high, is_low. intros Hh Hl.
  apply andb_true_iff in Hh, Hl. rewrite !Z.leb_le in Hh, Hl. lia.
Qed.

Lemma utf16_of_pair h l :
  is_high h = true -> is_low l = true -> utf16_of_cp (pair_cp h l) = [h; l].
Proof.
  intros Hh Hl. destruct (surrogates h l Hh Hl).
  unfold utf16_of_cp, pair_cp. settle_ifs. f_equal; [|f_equal]; zdm.
Qed.

Lemma pair_scalar h l :
  is_high h = true -> is_low l = true -> scalar (pair_cp h l).
Proof.
  intros Hh Hl. destruct (surrogates h l Hh Hl). unfold scalar, pair_cp. lia.
Qed.

Lemma unit_scalar u :
  code_unit u -> is_high u = false -> is_low u = false -> scalar u.
Proof.
  unfold code_unit, is_high, is_low, scalar. intros Hu Hh Hl.
  apply andb_false_iff in Hh, Hl. rewrite !Z.leb_gt in Hh, Hl. lia.
Qed.

(** UTF-8 keeps well-formed text. *)
Lemma utf8_round_trip s : well_formed s -> utf8_decode (utf8_encode s) = s.
Proof.
  unfold utf8_decode. induction 1 as [|u s Hu Hh Hl Hs IH|h l s Hh Hl Hs IH].
  - reflexivity.
  - cbn [utf8_encode]. rewrite Hh, Hl.
    rewrite decode_encode_cp by (apply unit_scalar; assumption).
    cbn [flat_map]. rewrite utf16_of_unit by assumption. cbn [app]. f_equal. exact IH.
  - cbn [utf8_encode]. rewrite Hh, Hl.
    rewrite decode_encode_cp by (apply pair_scalar; assumption).
    cbn [flat_map]. rewrite utf16_of_pair by assumption. cbn [app]. do 2 f_equal. exact IH.
Qed.

Lemma utf8_encode_bytes s : well_formed s -> Forall byte (utf8_encode s).
Proof.
  induction 1 as [|u s Hu Hh Hl Hs IH|h l s Hh Hl Hs IH].
  - constructor.
  - cbn [utf8_encode]. rewrite Hh, Hl. apply Forall_app. split; [|exact IH].
    apply encode_cp_bytes, unit_scalar; assumption.
  - cbn [utf8_encode]. rewrite Hh, Hl. apply Forall_app. split; [|exact IH].
    apply encode_cp_bytes, pair_scalar; assumption.
Qed.

Lemma unbase64_b64char v : 0 <= v < 64 -> unbase64 (b64char v) = Some v.
Proof.
  intros Hv. unfold b64char.
  destruct (Z.ltb_spec v 26);
    [|destruct (Z.ltb_spec v 52);
      [|destruct (Z.ltb_spec v 62); [|destruct (Z.eqb_spec v 62)]]];
    unfold unbase64, low_byte; rewrite Z.mod_small by lia; cbv zeta;
    settle_ifs; f_equal; lia.
Qed.

Lemma unbase64_pad : unbase64 pad = None.
Proof. reflexivity. Qed.

Lemma low_byte_pad : (low_byte pad =? pad) = true.
Proof. reflexivity. Qed.

Lemma list_ind3 (A : Type) (P : list A -> Prop) :
  P [] -> (forall a, P [a]) -> (forall a b, P [a; b]) ->
  (forall a b c l, P l -> P (a :: b :: c :: l)) ->
  forall l, P l.
Proof.
  intros H0 H1 H2 H3.
  fix IH 1. intros [|a [|b [|c l]]].
  - exact H0.
  - apply H1.
  - apply H2.
  - apply H3, IH.
Qed.

(** Base64 keeps every sequence of bytes. *)
Lemma base64_round_trip bs :
  Forall byte bs -> base64_decode (base64_encode bs) = bs.
Proof.
  unfold base64_decode. induction bs as [|a|a b|a b c l IH] using list_ind3; intros H.
  - reflexivity.
  - inversion_clear H as [|? ? Ha _]. unfold byte in *. cbn [base64_encode sextets].
    rewrite !unbase64_b64char by zdm. rewrite unbase64_pad, low_byte_pad.
    cbn [bytes_of_sextets]. f_equal. zdm.
  - inversion_clear H as [|? ? Ha H']. inversion_clear H' as [|? ? Hb _].
    unfold byte in *. cbn [base64_encode sextets].
    rewrite !unbase64_b64char by zdm. rewrite unbase64_pad, low_byte_pad.
    cbn [bytes_of_sextets]. f_equal; [|f_equal]; zdm.
  - inversion_clear H as [|? ? Ha H']. inversion_clear H' as [|? ? Hb H].
    inversion_clear H as [|? ? Hc Hl].
    unfold byte in *. cbn [base64_encode sextets app].
    rewrite !unbase64_b64char by zdm. cbn [bytes_of_sextets app].
    rewrite IH by assumption.
    f_equal; [|f_equal; [|f_equal]]; zdm.
Qed.
End CodecFacts.

(** ** [JSON.stringify] *)

Lemma hex_digit_hex d : 0 <= d < 16 -> hex (hex_digit d) = true.
Proof.
  intros H. unfold hex_digit, hex, digit.
  destruct (Z.ltb_spec d 10); bool_dec.
Qed.

Lemma unicode_escape_chars u s :
  json_chars s -> json_chars (unicode_escape u ++ s).
Proof.
  intros H. unfold unicode_escape. cbn [app].
  apply chars_unicode; try apply hex_digit_hex; try exact H; zdm.
Qed.

Lemma escape_unit_chars u s :
  Codec.is_high u = false -> Codec.is_low u = false ->
  json_chars s -> json_chars (escape_unit u ++ s).
Proof.
  intros Hh Hl H. unfold escape_unit.
  repeat match goal with
         | |- context [if ?x =? ?y then _ else _] => destruct (Z.eqb_spec x y)
         end;
    try (cbn [app]; apply chars_escape; [cbn; tauto | exact H]).
  destruct (Z.ltb_spec u 32).
  - apply unicode_escape_chars, H.
  - cbn [app]. apply chars_plain; assumption.
Qed.

Lemma escape_units_chars s : json_chars (escape_units s).
Proof.
  assert (G : forall n s, (List.length s <= n)%nat -> json_chars (escape_units s)).
  { induction n as [|n IH]; intros [|u rest] Hn; cbn [List.length] in Hn;
      try lia; try apply chars_nil.
    cbn [escape_units].
    destruct (Codec.is_high u) eqn:Hh.
    - destruct rest as [|v rest'].
      + rewrite <- (app_nil_r (unicode_escape u)).
        apply unicode_escape_chars, chars_nil.
      + destruct (Codec.is_low v) eqn:Hl.
        * apply chars_pair; [exact Hh | exact Hl |]. apply IH. cbn [List.length] in Hn. lia.
        * apply unicode_escape_chars, IH. lia.
    - destruct (Codec.is_low u) eqn:Hl.
      + apply unicode_escape_chars, IH. lia.
      + apply escape_unit_chars; [exact Hh | exact Hl |]. apply IH. lia. }
  apply (G (List.length s)). lia.
Qed.

Lemma digits_of_uint d :
  Forall (fun u => digit u = true) (lit (NilEmpty.string_of_uint d)).
Proof.
  induction d; cbn; constructor; try assumption; reflexivity.
Qed.

Lemma to_uint_normal p : Decimal.unorm (Pos.to_uint p) = Pos.to_uint p.
Proof.
  pose proof (Unsigned.to_of (Pos.to_uint p)) as H.
  rewrite Unsigned.of_to in H. symmetry. exact H.
Qed.

Lemma to_uint_head p : forall d, Pos.to_uint p <> Decimal.D0 d.
Proof.
  intros d E. pose proof (to_uint_normal p) as H. rewrite E in H.
  rewrite unorm_D0 in H. unfold Decimal.unorm in H.
  destruct (Decimal.nzhead d) eqn:Hd; try discriminate.
  - injection H as H. subst d. apply (Unsigned.to_uint_nonzero p). exact E.
  - exact (nzhead_nonzero _ _ Hd).
Qed.

Lemma decimal_pos p : json_int (lit (NilZero.string_of_uint (Pos.to_uint p))).
Proof.
  pose proof (to_uint_head p) as Hhead.
  pose proof (Unsigned.to_uint_nonnil p) as Hnil.
  destruct (Pos.to_uint p) as [|d|d|d|d|d|d|d|d|d|d] eqn:E;
    try (exfalso; apply Hnil; reflexivity);
    try (exfalso; eapply Hhead; reflexivity);
    cbn; apply int_digits; try lia; apply digits_of_uint.
Qed.

Lemma decimal_number n : json_number (decimal n).
Proof.
  unfold decimal. destruct n as [|p|p]; cbn [Z.to_int NilZero.string_of_int].
  - apply number_int. apply int_zero.
  - apply number_int. apply decimal_pos.
  - change (lit (String "-" (NilZero.string_of_uint (Pos.to_uint p))))
      with (45 :: lit (NilZero.string_of_uint (Pos.to_uint p))).
    apply number_minus. apply decimal_pos.
Qed.

Lemma member_quote k v : json_text v -> json_member (quote k ++ [58] ++ v).
Proof.
  intros H. unfold quote. rewrite <- !app_assoc.
  apply member_of; [apply escape_units_chars | exact H].
Qed.

(** What [JSON.stringify] writes is a JSON text. *)
Lemma JSON_stringify_text : forall v, json_text (JSON_stringify v).
Proof.
  fix IH 1. intros [| |[|]|n|s|items|fields]; cbn [JSON_stringify].
  - apply text_null.
  - apply text_null.
  - apply text_true.
  - apply text_false.
  - apply text_number, decimal_number.
  - apply text_string, escape_units_chars.
  - apply text_array. induction items as [|x items IHitems]; constructor.
    + apply IH.
    + exact IHitems.
  - apply text_object. induction fields as [|[k x] fields IHfields].
    + constructor.
    + pose proof (IH x) as Hx.
      destruct x; try exact IHfields; (constructor; [|exact IHfields]);
        apply member_quote, Hx.
Qed.

(** ** Values, sets and loops *)

Lemma returned {S A} (a b : A) (s t : S) :
  (Normal a, s) = (Normal b, t) -> a = b /\ s = t.
Proof. intros H. injection H as -> ->. auto. Qed.

Lemma jsstring_eqb_eq s t : jsstring_eqb s t = true <-> s = t.
Proof.
  unfold jsstring_eqb. destruct (jsstring_eq_dec s t); split; congruence.
Qed.

Lemma jsval_eqb_true : forall a b, jsval_eqb a b = true -> a = b.
Proof.
  fix IH 1.
  intros [| | x | x | x | xs | xs] [| | y | y | y | ys | ys] H;
    try discriminate; try reflexivity; cbn [jsval_eqb] in H.
  - f_equal. apply eqb_prop, H.
  - f_equal. apply Z.eqb_eq, H.
  - f_equal. apply jsstring_eqb_eq, H.
  - f_equal. revert ys H.
    induction xs as [|x xs IHxs]; intros [|y ys] H; try discriminate; [reflexivity|].
    apply andb_true_iff in H. destruct H as [H1 H2].
    f_equal; [apply IH, H1 | apply IHxs, H2].
  - f_equal. revert ys H.
    induction xs as [|[k x] xs IHxs]; intros [|[k' y] ys] H;
      try discriminate; [reflexivity|].
    apply andb_true_iff in H. destruct H as [H1 H2].
    apply andb_true_iff in H1. destruct H1 as [H0 H1].
    f_equal; [f_equal; [apply jsstring_eqb_eq, H0 | apply IH, H1] | apply IHxs, H2].
Qed.

Lemma jsval_eqb_refl : forall a, jsval_eqb a a = true.
Proof.
  fix IH 1.
  intros [| | x | x | x | xs | xs]; cbn [jsval_eqb]; try reflexivity.
  - apply eqb_reflx.
  - apply Z.eqb_refl.
  - apply jsstring_eqb_eq. reflexivity.
  - induction xs as [|x xs IHxs]; [reflexivity|].
    rewrite IH, IHxs. reflexivity.
  - induction xs as [|[k x] xs IHxs]; [reflexivity|].
    rewrite IH, IHxs. rewrite (proj2 (jsstring_eqb_eq k k) eq_refl). reflexivity.
Qed.

Lemma jsval_eqb_eq a b : jsval_eqb a b = true <-> a = b.
Proof.
  split; [apply jsval_eqb_true | intros ->; apply jsval_eqb_refl].
Qed.

Lemma trim_or_empty_some s : trim_or_empty (Some s) = VStr (trim s).
Proof.
  unfold trim_or_empty, js_or. cbn [truthy].
  destruct (trim s); reflexivity.
Qed.

(** [slice(0, n)] gives at most [n] items when [n] is not negative. *)
Lemma slice0_at_most {A} (n : Z) (l : list A) :
  0 <= n -> Z.of_nat (List.length (slice0 n l)) <= n.
Proof.
  intros Hn. unfold slice0.
  replace (n <? 0) with false by (symmetry; apply Z.ltb_ge; exact Hn).
  rewrite length_firstn. lia.
Qed.

Section SetFacts.
Context {A : Type} (eqb : A -> A -> bool).
Hypothesis eqb_eq : forall x y, eqb x y = true <-> x = y.

Lemma set_has_in x s : set_has eqb x s = true <-> In x s.
Proof.
  unfold set_has. rewrite existsb_exists. split.
  - intros (y & Hy & E). apply eqb_eq in E. subst. exact Hy.
  - intros H. exists x. split; [exact H | apply eqb_eq; reflexivity].
Qed.

Lemma set_add_nodup s x : NoDup s -> NoDup (set_add eqb s x).
Proof.
  intros H. unfold set_add. destruct (set_has eqb x s) eqn:E; [exact H|].
  apply NoDup_app; [exact H | repeat constructor; intros [] | ].
  intros y Hy [<-|[]]. apply set_has_in in Hy. congruence.
Qed.

Lemma set_add_in s x y : In y (set_add eqb s x) <-> In y s \/ y = x.
Proof.
  unfold set_add. destruct (set_has eqb x s) eqn:E.
  - apply set_has_in in E. split; [auto | intros [H| ->]; assumption].
  - rewrite in_app_iff. cbn. intuition.
Qed.

Lemma set_add_all_nodup xs : forall s, NoDup s -> NoDup (set_add_all eqb s xs).
Proof.
  induction xs as [|x xs IH]; intros s H; cbn; [exact H|].
  apply IH, set_add_nodup, H.
Qed.

Lemma set_add_all_in xs : forall s y,
  In y (set_add_all eqb s xs) <-> In y s \/ In y xs.
Proof.
  induction xs as [|x xs IH]; intros s y; cbn.
  - intuition.
  - unfold set_add_all in IH. rewrite IH, set_add_in. intuition.
Qed.
End SetFacts.

Lemma foldM_cons {S A B} (f : B -> A -> M S B) acc a l s :
  foldM f acc (a :: l) s =
  match f acc a s with
  | (Normal acc', s') => foldM f acc' l s'
  | (Throw e, s') => (Throw e, s')
  | (Uncaught e, s') => (Uncaught e, s')
  | (Pending, s') => (Pending, s')
  end.
Proof. reflexivity. Qed.

(** A loop that ends normally keeps what every turn keeps ([I]) and has
    established for every item what its turn establishes ([R]), when later
    turns preserve it. *)
Lemma foldM_invariant {S A B} (f : B -> A -> M S B) (I : B -> Prop) (R : A -> B -> Prop) :
  (forall acc a s acc' s', I acc -> f acc a s = (Normal acc', s') -> I acc' /\ R a acc') ->
  (forall a acc b s acc' s', I acc -> R a acc -> f acc b s = (Normal acc', s') -> R a acc') ->
  forall l acc s acc' s',
    I acc -> foldM f acc l s = (Normal acc', s') ->
    I acc' /\ forall a, In a l -> R a acc'.
Proof.
  intros Hstep Hmono.
  assert (G : forall l done acc s acc' s',
             I acc -> (forall a, In a done -> R a acc) ->
             foldM f acc l s = (Normal acc', s') ->
             I acc' /\ forall a, In a (done ++ l) -> R a acc').
  { induction l as [|b l IH]; intros done acc s acc' s' HI HR H.
    - apply returned in H. destruct H as [<- _]. rewrite app_nil_r. auto.
    - rewrite foldM_cons in H.
      destruct (f acc b s) as [[acc1|e|e|] s1] eqn:E; try discriminate.
      destruct (Hstep _ _ _ _ _ HI E) as [HI1 HR1].
      destruct (IH (done ++ [b]) acc1 s1 acc' s' HI1) as [HI' HR']; [|exact H|].
      + intros a Ha. apply in_app_iff in Ha. destruct Ha as [Ha|[<-|[]]]; [|exact HR1].
        eapply Hmono; [exact HI | apply HR, Ha | exact E].
      + split; [exact HI'|]. intros a Ha. apply HR'.
        rewrite <- app_assoc. exact Ha. }
  intros l acc s acc' s' HI H.
  apply (G l [] acc s acc' s' HI); [intros a [] | exact H].
Qed.

(** ** Trimmed output *)

Lemma trim_start_head s u :
  hd_error (trim_start s) = Some u -> is_space u = false.
Proof.
  induction s as [|v s IH]; cbn [trim_start]; [discriminate|].
  destruct (is_space v) eqn:E; [exact IH|].
  cbn [hd_error]. intros H. injection H as <-. exact E.
Qed.

Lemma trim_start_suffix s :
  exists spaces, s = spaces ++ trim_start s /\ Forall (fun u => is_space u = true) spaces.
Proof.
  induction s as [|v s (spaces & IH & Hsp)]; cbn [trim_start].
  - exists []. split; [reflexivity | constructor].
  - destruct (is_space v) eqn:E.
    + exists (v :: spaces). split; [cbn [app]; f_equal; exact IH|].
      constructor; assumption.
    + exists []. split; [reflexivity | constructor].
Qed.

Lemma trim_start_fixed s :
  (forall u, hd_error s = Some u -> is_space u = false) -> trim_start s = s.
Proof.
  destruct s as [|v s]; [reflexivity|]. intros H. cbn [trim_start].
  rewrite (H v eq_refl). reflexivity.
Qed.

Lemma hd_error_app {A} (a b : list A) u :
  hd_error a = Some u -> hd_error (a ++ b) = Some u.
Proof. destruct a; [discriminate | auto]. Qed.

Lemma trim_trimmed s : trimmed (trim s).
Proof.
  unfold trimmed, trim. split; intros u Hu.
  - destruct (trim_start_suffix (rev (trim_start s))) as (spaces & E & _).
    apply (f_equal (@rev Z)) in E. rewrite rev_involutive, rev_app_distr in E.
    apply (trim_start_head s u). rewrite E. apply hd_error_app, Hu.
  - rewrite rev_involutive in Hu. exact (trim_start_head _ _ Hu).
Qed.

Lemma trimmed_fixed s : trimmed s -> trim s = s.
Proof.
  intros [H1 H2]. unfold trim.
  rewrite (trim_start_fixed s H1), (trim_start_fixed (rev s) H2).
  apply rev_involutive.
Qed.

Lemma trimmed_nil : trimmed [].
Proof. split; intros u H; discriminate H. Qed.

(** [trim] takes the white space off both ends and nothing else. *)
Lemma trim_stripped s : stripped s (trim s).
Proof.
  destruct (trim_start_suffix s) as (front & E1 & H1).
  destruct (trim_start_suffix (rev (trim_start s))) as (back & E2 & H2).
  exists front, (rev back). split; [|split; [exact H1 | split]].
  - unfold trim. rewrite <- rev_app_distr, <- E2, rev_involutive. exact E1.
  - apply Forall_rev, H2.
  - apply trim_trimmed.
Qed.

(** ** Command plugin *)

Section CommandFacts.
Context {W : Type} (P : platform W).

(** C2: [execute_command] takes a command and an optional working
    directory.  When the command exits with code 0 the handler returns
    [{success:true, stdout, stderr, working_directory}]; when it exits with
    another code [n] the handler returns
    [{success:false, error, stdout, stderr, exit_code:n}].  In both cases
    [stdout] and [stderr] are what the command wrote without the white
    space at its two ends: nothing else is taken away, and no white space
    is left at either end.  So [echo hello] gives [stdout:"hello"], and
    [exit 3] gives [success:false] and [exit_code:3]. *)
Theorem execute_command_contract (args : execute_command.args) (s : state W)
        (n : Z) (out err : jsstring) (w' : W) :
  exec P (execute_command.command args) (Command.cwd_of P args s)
       (1024 * 1024 * 10) (world s)
    = (Exited n out err, w') ->
  exists stdout stderr,
    stripped out stdout /\ stripped err stderr /\
    (n = 0 ->
     Command.executeCommandHandler P args s =
       (Normal (JSON_stringify
                  (VObj [success true;
                         (lit "stdout", VStr stdout);
                         (lit "stderr", VStr stderr);
                         (lit "working_directory", VStr (Command.cwd_of P args s))])),
        mkState w' (trace s)))
    /\
    (n <> 0 ->
     Command.executeCommandHandler P args s =
       (Normal (JSON_stringify
                  (VObj [success false;
                         (lit "error",
                            VStr (lit "Command failed: " ++ execute_command.command args
                                  ++ [10] ++ err));
                         (lit "stdout", VStr stdout);
                         (lit "stderr", VStr stderr);
                         (lit "exit_code", VNum n)])),
        mkState w' (trace s))).
Proof.
  intros H. exists (trim out), (trim err).
  split; [apply trim_stripped|]. split; [apply trim_stripped|].
  unfold Command.executeCommandHandler, execAsync, Command.cwd_of in *.
  destruct args as [command [d|]];
    cbn [execute_command.working_directory execute_command.command default] in *;
    unfold_monad; rewrite H; (split; intros Hn).
  - subst n. reflexivity.
  - apply Z.eqb_neq in Hn. rewrite Hn. cbn [message code err_stdout err_stderr].
    rewrite !trim_or_empty_some. reflexivity.
  - subst n. reflexivity.
  - apply Z.eqb_neq in Hn. rewrite Hn. cbn [message code err_stdout err_stderr].
    rewrite !trim_or_empty_some. reflexivity.
Qed.
End CommandFacts.

(** What is left of a text whose ends are known. *)
Lemma stripped_unique s t t' : stripped s t -> stripped s t' -> t = t'.
Proof.
  assert (G : forall s t front back,
             s = front ++ t ++ back ->
             Forall (fun u => is_space u = true) front ->
             Forall (fun u => is_space u = true) back ->
             trimmed t -> t = trim s).
  { intros s0 t0 front back -> Hf Hb [Ht1 Ht2]. unfold trim.
    assert (Hstart : forall front rest,
               Forall (fun u => is_space u = true) front ->
               trim_start (front ++ rest) = trim_start rest).
    { intros fr rest Hfr. induction Hfr as [|u fr Hu _ IH]; [reflexivity|].
      cbn [app trim_start]. rewrite Hu. exact IH. }
    rewrite (Hstart front _ Hf).
    destruct t0 as [|u t0].
    - cbn [app]. assert (Hall : forall l, Forall (fun u => is_space u = true) l ->
                                          trim_start l = []).
      { intros l Hl. rewrite <- (app_nil_r l). rewrite (Hstart l [] Hl). reflexivity. }
      rewrite (Hall back Hb). reflexivity.
    - cbn [app trim_start]. rewrite (Ht1 u eq_refl).
      change (u :: t0 ++ back) with ((u :: t0) ++ back).
      rewrite rev_app_distr. rewrite (Hstart (rev back)) by (apply Forall_rev, Hb).
      rewrite (trim_start_fixed _ Ht2). symmetry. apply rev_involutive. }
  intros (f1 & b1 & E1 & Hf1 & Hb1 & Ht1) (f2 & b2 & E2 & Hf2 & Hb2 & Ht2).
  rewrite (G s t f1 b1 E1 Hf1 Hb1 Ht1), (G s t' f2 b2 E2 Hf2 Hb2 Ht2). reflexivity.
Qed.

(** The two commands of the example world: [echo hello] writes [hello]
    and a line feed, [exit 3] writes nothing. *)
Lemma execute_command_examples :
  (exec Demo.node (lit "echo hello") Demo.cwd (1024 * 1024 * 10) tt
     = (Exited 0 (lit "hello" ++ [10]) [], tt) /\
   Command.executeCommandHandler Demo.node
     (execute_command.mk (lit "echo hello") None) Demo.start =
     (Normal (JSON_stringify
                (VObj [success true;
                       (lit "stdout", VStr (lit "hello"));
                       (lit "stderr", VStr []);
                       (lit "working_directory", VStr (lit "/srv"))])),
      Demo.start))
  /\
  (exec Demo.node (lit "exit 3") Demo.cwd (1024 * 1024 * 10) tt = (Exited 3 [] [], tt) /\
   Command.executeCommandHandler Demo.node
     (execute_command.mk (lit "exit 3") None) Demo.start =
     (Normal (JSON_stringify
                (VObj [success false;
                       (lit "error", VStr (lit "Command failed: exit 3" ++ [10]));
                       (lit "stdout", VStr []);
                       (lit "stderr", VStr []);
                       (lit "exit_code", VNum 3)])),
      Demo.start)).
Proof.
  assert (Hhello : stripped (lit "hello" ++ [10]) (lit "hello")).
  { exists [], [10]. split; [reflexivity|]. split; [constructor|].
    split; [repeat constructor|].
    split; intros u Hu; injection Hu as <-; reflexivity. }
  assert (Hnil : stripped [] []).
  { exists [], []. split; [reflexivity|]. split; [constructor|].
    split; [constructor | apply trimmed_nil]. }
  split; (split; [reflexivity|]).
  - destruct (execute_command_contract Demo.node
                (execute_command.mk (lit "echo hello") None) Demo.start
                0 (lit "hello" ++ [10]) [] tt eq_refl)
      as (stdout & stderr & Hout & Herr & H0 & _).
    pose proof (stripped_unique _ _ _ Hhello Hout) as E1.
    pose proof (stripped_unique _ _ _ Hnil Herr) as E2.
    subst stdout stderr. exact (H0 eq_refl).
  - destruct (execute_command_contract Demo.node
                (execute_command.mk (lit "exit 3") None) Demo.start
                3 [] [] tt eq_refl)
      as (stdout & stderr & Hout & Herr & _ & Hn).
    pose proof (stripped_unique _ _ _ Hnil Hout) as E1.
    pose proof (stripped_unique _ _ _ Hnil Herr) as E2.
    subst stdout stderr. apply Hn. discriminate.
Defined.

(** ** Filesystem plugin *)

Lemma first_rejection_in {A} (l : list (nat * (error + A))) t e :
  first_rejection l = Some (t, e) -> In (t, inl e) l.
Proof.
  revert t e. induction l as [|[t0 [e0|a0]] l IH]; intros t e H;
    cbn [first_rejection] in H.
  - discriminate.
  - destruct (first_rejection l) as [[t' e']|].
    + destruct (t' <? t0)%nat; inversion H; subst.
      * right. apply IH. reflexivity.
      * left. reflexivity.
    + inversion H; subst. left. reflexivity.
  - right. apply IH, H.
Qed.

Lemma first_rejection_none {A} (l : list (nat * (error + A))) :
  first_rejection l = None -> Forall settled_ok l.
Proof.
  induction l as [|[t0 [e0|a0]] l IH]; intros H; cbn [first_rejection] in H.
  - constructor.
  - destruct (first_rejection l) as [[t' e']|]; [destruct (t' <? t0)%nat|]; discriminate.
  - constructor; [exists a0; reflexivity | apply IH, H].
Qed.

Lemma all_settled_ok {A} (l : list (nat * (error + A))) :
  Forall settled_ok l -> first_rejection l = None.
Proof.
  induction 1 as [|[t [e|a]] l [a' Ha] _ IH]; cbn in *.
  - reflexivity.
  - discriminate.
  - exact IH.
Qed.

Lemma some_rejected {A} (l : list (nat * (error + A))) :
  Exists rejected l -> exists t e, first_rejection l = Some (t, e) /\ In (t, inl e) l.
Proof.
  intros H. destruct (first_rejection l) as [[t e]|] eqn:E.
  - exists t, e. split; [reflexivity | apply first_rejection_in, E].
  - apply first_rejection_none in E. exfalso.
    apply Exists_exists in H. destruct H as (p & Hin & e & He).
    rewrite Forall_forall in E. destruct (E p Hin) as [a Ha]. congruence.
Qed.

Section FilesystemFacts.
Context {W : Type} (P : platform W).

(** The callback of [entries.map] gives a promise for every entry, and a
    fulfilled one holds the record of its entry. *)
Lemma describe_total absolutePath entries : forall s,
  exists promises s',
    mapM (Filesystem.describe P absolutePath) entries s = (Normal promises, s') /\
    Forall2 (fun entry p =>
               forall d, snd p = inr d -> exists stats, d = entry_record entry stats)
            entries promises.
Proof.
  induction entries as [|entry entries IH]; intros s.
  - exists [], s. split; [reflexivity | constructor].
  - cbn [mapM]. unfold Filesystem.describe at 1. unfold_monad.
    destruct (fs_stat P (path_join P absolutePath (name entry)) (world s))
      as [[t r] w] eqn:E.
    destruct (IH (mkState w (trace s))) as (ps & s' & Hps & Hall).
    rewrite Hps. eexists _, s'. split; [reflexivity|].
    constructor; [|exact Hall].
    cbn [snd]. intros d Hd. destruct r as [e|st]; [discriminate|].
    inversion Hd. exists st. reflexivity.
Qed.

(** [entries.map] calls [stat] for every entry, in order. *)
Lemma describe_stats absolutePath entries : forall w tr,
  mapM (Filesystem.describe P absolutePath) entries (mkState w tr) =
    (Normal (promises_of entries (fst (stat_entries P absolutePath entries w))),
     mkState (snd (stat_entries P absolutePath entries w)) tr).
Proof.
  induction entries as [|entry entries IH]; intros w tr.
  - reflexivity.
  - cbn [mapM stat_entries]. unfold Filesystem.describe at 1. unfold_monad.
    destruct (fs_stat P (path_join P absolutePath (name entry)) w) as [[t r] w1].
    rewrite IH.
    destruct (stat_entries P absolutePath entries w1) as [answers w2].
    reflexivity.
Qed.

Lemma stat_entries_length absolutePath entries : forall w,
  List.length (fst (stat_entries P absolutePath entries w)) = List.length entries.
Proof.
  induction entries as [|entry entries IH]; intros w; cbn [stat_entries].
  - reflexivity.
  - destruct (fs_stat P _ w) as [answer w1]. specialize (IH w1).
    destruct (stat_entries P absolutePath entries w1) as [answers w2].
    cbn [fst List.length] in *. rewrite IH. reflexivity.
Qed.

Lemma promises_rejected entries : forall answers,
  List.length answers = List.length entries ->
  Exists stat_failed answers -> Exists rejected (promises_of entries answers).
Proof.
  induction entries as [|entry entries IH]; intros [|answer answers] Hlen Hex;
    try discriminate Hlen; [inversion Hex|].
  cbn [promises_of]. inversion Hex as [? ? [e He]|? ? Hrest]; subst.
  - apply Exists_cons_hd. exists e. unfold promise_of. cbn [snd]. rewrite He. reflexivity.
  - apply Exists_cons_tl, IH; [injection Hlen as Hlen; exact Hlen | exact Hrest].
Qed.

Lemma promises_failure entries t e : forall answers,
  In (t, inl e) (promises_of entries answers) -> In (t, inl e) answers.
Proof.
  induction entries as [|entry entries IH]; intros [|[t0 r0] answers] Hin;
    cbn [promises_of] in Hin; try contradiction.
  destruct Hin as [Hin|Hin]; [|right; exact (IH _ Hin)].
  left. unfold promise_of in Hin. cbn [fst snd] in Hin.
  destruct r0 as [e0|st]; [|discriminate Hin].
  injection Hin as <- <-. reflexivity.
Qed.

Lemma promises_fulfilled entries : forall answers stats,
  map snd answers = map inr stats ->
  List.length answers = List.length entries ->
  first_rejection (promises_of entries answers) = None /\
  fulfilled (promises_of entries answers) =
    map (fun es => entry_record (fst es) (snd es)) (combine entries stats).
Proof.
  induction entries as [|entry entries IH]; intros [|[t r] answers] [|st stats] Hmap Hlen;
    try discriminate Hlen; try discriminate Hmap; [split; reflexivity|].
  cbn [map snd] in Hmap. injection Hmap as -> Hmap. injection Hlen as Hlen.
  destruct (IH answers stats Hmap Hlen) as [H1 H2].
  cbn [promises_of first_rejection fulfilled promise_of fst snd combine map].
  split; [exact H1 | f_equal; exact H2].
Qed.

(** C10: [list_directory] is all or nothing.  Once the directory has been
    read, [stat] is called for each of its entries.  If the [stat] of even
    one entry fails, the handler returns [{success:false, error, path}]
    and nothing else -- no [entries], not even of those whose [stat]
    succeeded --, where [error] is the message of one of the failures.  If
    every [stat] succeeds, it returns [{success:true, path, entries}]
    where [entries] holds, in the order of the directory, the record
    [{name, type, size, modified}] of every entry, made of the name and
    kind of the entry and of the size and date its [stat] gave. *)
Theorem list_directory_all_or_nothing (args : list_directory.args) (s : state W)
        (entries : list dirent) (w1 : W) :
  let absolutePath := path_resolve P (world s) (Filesystem.directory_or_dot args) in
  let answers := fst (stat_entries P absolutePath entries w1) in
  let s2 := mkState (snd (stat_entries P absolutePath entries w1)) (trace s) in
  fs_readdir P absolutePath (world s) = (inr entries, w1) ->
  (Exists stat_failed answers ->
   exists t e,
     In (t, inl e) answers /\
     Filesystem.listDirectoryHandler P args s =
       (Normal (JSON_stringify
                  (VObj [success false;
                         (lit "error", VStr (message e));
                         (lit "path", VStr (Filesystem.directory_or_dot args))])),
        s2))
  /\
  (forall found : list stats,
   map snd answers = map inr found ->
   List.length found = List.length entries /\
   Filesystem.listDirectoryHandler P args s =
     (Normal (JSON_stringify
                (VObj [success true;
                       (lit "path", VStr absolutePath);
                       (lit "entries",
                          VArr (map (fun es : dirent * stats =>
                                       VObj [(lit "name", VStr (name (fst es)));
                                             (lit "type",
                                                VStr (if isDirectory (fst es)
                                                      then lit "directory"
                                                      else lit "file"));
                                             (lit "size", VNum (size (snd es)));
                                             (lit "modified", mtime (snd es))])
                                    (combine entries found)))])),
      s2)).
Proof.
  intros absolutePath answers s2 Hdir.
  pose proof (stat_entries_length absolutePath entries w1) as Hlen. fold answers in Hlen.
  assert (Hr :
            Filesystem.listDirectoryHandler P args s =
            try_catch
              (bind (Promise_all (promises_of entries answers)) (fun details =>
                 ret (JSON_stringify
                        (VObj [success true;
                               (lit "path", VStr absolutePath);
                               (lit "entries", VArr details)]))))
              (fun error =>
                 ret (JSON_stringify
                        (VObj [success false;
                               (lit "error", VStr (message error));
                               (lit "path", VStr (Filesystem.directory_or_dot args))])))
              s2).
  { unfold Filesystem.listDirectoryHandler. unfold_monad.
    fold absolutePath. rewrite Hdir. rewrite describe_stats. reflexivity. }
  split.
  - intros Hex.
    destruct (some_rejected _ (promises_rejected entries answers Hlen Hex))
      as (t & e & Hfirst & Hin).
    exists t, e. split; [exact (promises_failure _ _ _ _ Hin)|].
    rewrite Hr. unfold Promise_all. rewrite Hfirst. reflexivity.
  - intros found Hmap.
    destruct (promises_fulfilled entries answers found Hmap Hlen) as [Hnone Hall].
    split.
    + rewrite <- Hlen, <- (length_map snd answers), Hmap, length_map. reflexivity.
    + rewrite Hr. unfold Promise_all. rewrite Hnone.
      unfold try_catch, bind, ret. rewrite Hall. reflexivity.
Qed.
End FilesystemFacts.

(** Two directories.  In the one of the first example world the link
    [dangling] cannot be followed, and the listing fails as a whole, the
    file [notes.txt] next to it notwithstanding.  On the host, once [zz]
    and [a] have been written in [/tmp], both are listed. *)
Lemma list_directory_examples :
  (fs_readdir Demo.node Demo.cwd tt = (inr Demo.entries, tt) /\
   fst (stat_entries Demo.node Demo.cwd Demo.entries tt) =
     [(1%nat, inr (mkStats 12 Demo.new_year));
      (1%nat, inl (Demo.enoent (lit "stat") (lit "/srv/dangling")))] /\
   Filesystem.listDirectoryHandler Demo.node (list_directory.mk None) Demo.start =
     (Normal (JSON_stringify
                (VObj [success false;
                       (lit "error",
                          VStr (lit "ENOENT: no such file or directory, stat '/srv/dangling'"));
                       (lit "path", VStr (lit "."))])),
      Demo.start))
  /\
  (let written :=
     mkState [(lit "/tmp/a", Codec.utf8_encode (lit "xy"));
              (lit "/tmp/zz", Codec.utf8_encode (lit "hello"))] [] in
   Filesystem.listDirectoryHandler Host.node (list_directory.mk (Some (lit "/tmp")))
     written =
     (Normal (JSON_stringify
                (VObj [success true;
                       (lit "path", VStr (lit "/tmp"));
                       (lit "entries",
                          VArr [VObj [(lit "name", VStr (lit "zz"));
                                      (lit "type", VStr (lit "file"));
                                      (lit "size", VNum 5);
                                      (lit "modified", Demo.new_year)];
                                VObj [(lit "name", VStr (lit "a"));
                                      (lit "type", VStr (lit "file"));
                                      (lit "size", VNum 2);
                                      (lit "modified", Demo.new_year)]])])),
      written)).
Proof.
  split.
  - split; [reflexivity|]. split; [reflexivity|].
    destruct (proj1 (list_directory_all_or_nothing Demo.node (list_directory.mk None)
                       Demo.start Demo.entries tt eq_refl))
      as (t & e & Hin & Hrun).
    + apply Exists_cons_tl, Exists_cons_hd. eexists. reflexivity.
    + destruct Hin as [Hin|[Hin|[]]]; [discriminate Hin|].
      injection Hin as _ <-. exact Hrun.
  - intros written.
    exact (proj2 (proj2 (list_directory_all_or_nothing Host.node
                           (list_directory.mk (Some (lit "/tmp"))) written
                           [mkDirent (lit "zz") false; mkDirent (lit "a") false]
                           (world written) eq_refl)
                   [mkStats 5 Demo.new_year; mkStats 2 Demo.new_year] eq_refl)).
Defined.

(** ** Web plugin: [web_request] *)

Section WebRequestFacts.
Context {W : Type} (P : platform W).

(** Once the URL has been parsed and the request is on its way, the
    promise is settled by the listener of the event that arrives. *)
Lemma webRequest_sent (args : web_request.args) (s : state W) urlObj ev w' :
  url_parse P (web_request.url args) = inr urlObj ->
  http_request P (Web.request_of args urlObj) (Web.body_sent args) (world s)
    = (Sent ev, w') ->
  Web.webRequest P args s =
  match ev with
  | OnEnd res =>
      Web.on_end P (web_request.url args) (Web.method_of args)
                 (default true (web_request.follow_redirects args)) res
  | OnError error =>
      ret (Web.failure error (web_request.url args) (Web.method_of args))
  | OnTimeout =>
      bind (emit EvDestroy) (fun _ =>
        ret (Web.failure (Error (lit "Request timeout (30s)"))
                         (web_request.url args) (Web.method_of args)))
  | NoEvent => pending
  end (mkState w' (trace s ++ [EvRequest (Web.request_of args urlObj)
                                         (Web.body_sent args)])).
Proof.
  intros Hurl Hreq. unfold Web.webRequest, Web.body_sent, Web.method_of in *.
  unfold_monad. rewrite Hurl. rewrite Hreq. destruct ev; reflexivity.
Qed.

(** The listener of [end] sends no request; it decodes the body and then
    looks at the status and the [Location] header. *)
Lemma on_end_decompress url method follow res (s : state W) :
  exists body s1,
    requests s1 = requests s /\
    (get_field (lit "content-encoding") (res_headers res) = VUndef ->
     body = Codec.utf8_decode (List.concat (res_chunks res))) /\
    Web.on_end P url method follow res s =
    (let result :=
       [success true;
        (lit "status_code", VNum (statusCode res));
        (lit "status_message", VStr (statusMessage res));
        (lit "headers", VObj (res_headers res));
        (lit "body", VStr body);
        (lit "url", VStr url);
        (lit "method", VStr method);
        (lit "redirected", VBool false)] in
     let location := get_field (lit "location") (res_headers res) in
     if follow && existsb (Z.eqb (statusCode res)) Web.redirect_codes && truthy location
     then
       match url_resolve P (to_string location) url with
       | inl e => uncaught e
       | inr redirectUrl =>
           ret (VObj (set_field (lit "redirect_url") (VStr redirectUrl)
                        (set_field (lit "redirected") (VBool true) result)))
       end
     else ret (VObj result)) s1.
Proof.
  unfold Web.on_end.
  set (raw := List.concat (res_chunks res)).
  set (encoding := get_field (lit "content-encoding") (res_headers res)).
  assert (Hlog : forall msg, requests (mkState (world s) (trace s ++ [EvConsole msg]))
                             = requests s).
  { intros msg. unfold requests. cbn [trace]. rewrite filter_app. apply app_nil_r. }
  unfold_monad.
  destruct (jsval_eqb encoding (VStr (lit "gzip"))) eqn:Egzip.
  - assert (Hno : encoding = VUndef -> False)
      by (intros E; rewrite E in Egzip; discriminate Egzip).
    destruct (gunzipSync P raw) as [e|bs].
    + eexists _, _. split; [apply Hlog|]. split; [|reflexivity].
      intros E. destruct (Hno E).
    + exists (Codec.utf8_decode bs), s. split; [reflexivity|]. split; [|reflexivity].
      intros E. destruct (Hno E).
  - destruct (jsval_eqb encoding (VStr (lit "deflate"))) eqn:Edeflate.
    + assert (Hno : encoding = VUndef -> False)
        by (intros E; rewrite E in Edeflate; discriminate Edeflate).
      destruct (inflateSync P raw) as [e|bs].
      * eexists _, _. split; [apply Hlog|]. split; [|reflexivity].
        intros E. destruct (Hno E).
      * exists (Codec.utf8_decode bs), s. split; [reflexivity|]. split; [|reflexivity].
        intros E. destruct (Hno E).
    + exists (Codec.utf8_decode raw), s. auto.
Qed.

Lemma in_redirect_codes n :
  In n Web.redirect_codes -> existsb (Z.eqb n) Web.redirect_codes = true.
Proof.
  intros H. apply existsb_exists. exists n. split; [exact H | apply Z.eqb_refl].
Qed.

Lemma requests_after_request (s : state W) (w' : W) o body :
  requests (mkState w' (trace s ++ [EvRequest o body])) = requests s ++ [EvRequest o body].
Proof. unfold requests. cbn [trace]. apply filter_app. Qed.

(** C5 (amended): a response with status 301, 302, 303, 307 or 308 is
    never followed: the invocation sends the one request it was asked for
    and no other.  When [follow_redirects] is not [false] and the response
    has a non-empty [Location] header that resolves against the request
    URL, the result is the eight members of every answered request with
    [redirected:true], and [redirect_url] with the resolved address as a
    ninth; when [follow_redirects] is [false] or there is no [Location],
    the result is the eight members with [redirected:false], and there is
    no [redirect_url].  ([body] is the body of the response as it came,
    when the response names no [Content-Encoding].) *)
Theorem web_request_redirect (args : web_request.args) (s : state W) urlObj res w' :
  let url := web_request.url args in
  let location := get_field (lit "location") (res_headers res) in
  let follow := default true (web_request.follow_redirects args) in
  let sent := EvRequest (Web.request_of args urlObj) (Web.body_sent args) in
  url_parse P url = inr urlObj ->
  http_request P (Web.request_of args urlObj) (Web.body_sent args) (world s)
    = (Sent (OnEnd res), w') ->
  In (statusCode res) Web.redirect_codes ->
  exists body s',
    requests s' = requests s ++ [sent]
    /\
    (get_field (lit "content-encoding") (res_headers res) = VUndef ->
     body = Codec.utf8_decode (List.concat (res_chunks res)))
    /\
    (forall redirectUrl,
       follow = true -> truthy location = true ->
       url_resolve P (to_string location) url = inr redirectUrl ->
       Web.webRequestHandler P args s =
         (Normal (JSON_stringify
                    (VObj [success true;
                           (lit "status_code", VNum (statusCode res));
                           (lit "status_message", VStr (statusMessage res));
                           (lit "headers", VObj (res_headers res));
                           (lit "body", VStr body);
                           (lit "url", VStr url);
                           (lit "method", VStr (Web.method_of args));
                           (lit "redirected", VBool true);
                           (lit "redirect_url", VStr redirectUrl)])),
          s'))
    /\
    (follow = false \/ truthy location = false ->
       Web.webRequestHandler P args s =
         (Normal (JSON_stringify
                    (VObj [success true;
                           (lit "status_code", VNum (statusCode res));
                           (lit "status_message", VStr (statusMessage res));
                           (lit "headers", VObj (res_headers res));
                           (lit "body", VStr body);
                           (lit "url", VStr url);
                           (lit "method", VStr (Web.method_of args));
                           (lit "redirected", VBool false)])),
          s')).
Proof.
  intros url location follow sent Hurl Hreq Hcode.
  pose proof (webRequest_sent args s urlObj _ w' Hurl Hreq) as Hrun.
  cbv beta iota in Hrun.
  destruct (on_end_decompress url (Web.method_of args) follow res
              (mkState w' (trace s ++ [sent])))
    as (body & s1 & Hreqs & Hbody & Hend).
  fold url follow sent in Hrun. rewrite Hend in Hrun. clear Hend.
  cbv zeta in Hrun. fold location in Hrun.
  rewrite (in_redirect_codes _ Hcode), andb_true_r in Hrun.
  unfold sent in Hreqs. rewrite requests_after_request in Hreqs. fold sent in Hreqs.
  exists body, s1. split; [exact Hreqs|]. split; [exact Hbody|]. split.
  - intros redirectUrl Hf Hl Hres. rewrite Hf, Hl, Hres in Hrun. cbn [andb] in Hrun.
    unfold Web.webRequestHandler, bind. rewrite Hrun. reflexivity.
  - intros Hno.
    assert (follow && truthy location = false) as Hc
      by (destruct Hno as [-> | ->]; [reflexivity | apply andb_false_r]).
    rewrite Hc in Hrun.
    unfold Web.webRequestHandler, bind. rewrite Hrun. reflexivity.
Qed.

(** C9 (amended): the request is sent with a timeout of 30 seconds; when
    the timeout fires the request is destroyed and the handler returns
    [{success:false, error:"Request timeout (30s)", url, method}]. *)
Theorem web_request_timeout (args : web_request.args) (s : state W) urlObj w' :
  let sent := EvRequest (Web.request_of args urlObj) (Web.body_sent args) in
  url_parse P (web_request.url args) = inr urlObj ->
  http_request P (Web.request_of args urlObj) (Web.body_sent args) (world s)
    = (Sent OnTimeout, w') ->
  o_timeout (Web.request_of args urlObj) = 30000 /\
  Web.webRequestHandler P args s =
    (Normal (JSON_stringify
               (VObj [success false;
                      (lit "error", VStr (lit "Request timeout (30s)"));
                      (lit "url", VStr (web_request.url args));
                      (lit "method", VStr (Web.method_of args))])),
     mkState w' (trace s ++ [sent; EvDestroy])).
Proof.
  intros sent Hurl Hreq. split; [reflexivity|].
  unfold Web.webRequestHandler. unfold bind at 1.
  rewrite (webRequest_sent args s urlObj _ w' Hurl Hreq).
  unfold_monad. rewrite <- app_assoc. reflexivity.
Qed.
End WebRequestFacts.

(** In the example world [/old] answers 301 with [Location: /new]: asked
    as it is, the request reports the address; asked with
    [follow_redirects:false], it does not. *)
Lemma web_request_redirect_reported :
  let old := lit "http://example.test/old" in
  (exists s',
     Web.webRequestHandler Demo.node (Demo.get old) Demo.start =
       (Normal (JSON_stringify
                  (VObj [success true;
                         (lit "status_code", VNum 301);
                         (lit "status_message", VStr (lit "Moved Permanently"));
                         (lit "headers", VObj [(lit "location", VStr (lit "/new"))]);
                         (lit "body", VStr []);
                         (lit "url", VStr old);
                         (lit "method", VStr (lit "GET"));
                         (lit "redirected", VBool true);
                         (lit "redirect_url", VStr (lit "http://example.test/new"))])),
        s')
     /\ List.length (requests s') = 1%nat)
  /\
  (exists s',
     Web.webRequestHandler Demo.node
       (web_request.mk old None None None (Some false)) Demo.start =
       (Normal (JSON_stringify
                  (VObj [success true;
                         (lit "status_code", VNum 301);
                         (lit "status_message", VStr (lit "Moved Permanently"));
                         (lit "headers", VObj [(lit "location", VStr (lit "/new"))]);
                         (lit "body", VStr []);
                         (lit "url", VStr old);
                         (lit "method", VStr (lit "GET"));
                         (lit "redirected", VBool false)])),
        s')
     /\ List.length (requests s') = 1%nat).
Proof.
  intros old.
  pose (urlObj := mkURL (lit "http:") (lit "example.test") [] (lit "/old") []
                        (lit "example.test")).
  pose (res := mkResponse 301 (lit "Moved Permanently")
                          [(lit "location", VStr (lit "/new"))] []).
  split.
  - destruct (web_request_redirect Demo.node (Demo.get old) Demo.start urlObj res tt
                eq_refl eq_refl (or_introl eq_refl))
      as (body & s' & Hreqs & Hbody & H & _).
    specialize (H (lit "http://example.test/new") eq_refl eq_refl eq_refl).
    exists s'. split; [|rewrite Hreqs; reflexivity].
    rewrite (Hbody eq_refl) in H. exact H.
  - destruct (web_request_redirect Demo.node
                (web_request.mk old None None None (Some false)) Demo.start urlObj res tt
                eq_refl eq_refl (or_introl eq_refl))
      as (body & s' & Hreqs & Hbody & _ & H).
    specialize (H (or_introl eq_refl)).
    exists s'. split; [|rewrite Hreqs; reflexivity].
    rewrite (Hbody eq_refl) in H. exact H.
Defined.

(** C5, as stated, fails: with [follow_redirects:false] the same 301 is
    reported with [redirected:false] and without a [redirect_url]. *)
Lemma web_request_redirect_not_reported :
  let args :=
    web_request.mk (lit "http://example.test/old") None None None (Some false) in
  let result :=
    [success true;
     (lit "status_code", VNum 301);
     (lit "status_message", VStr (lit "Moved Permanently"));
     (lit "headers", VObj [(lit "location", VStr (lit "/new"))]);
     (lit "body", VStr []);
     (lit "url", VStr (lit "http://example.test/old"));
     (lit "method", VStr (lit "GET"));
     (lit "redirected", VBool false)] in
  fst (Web.webRequestHandler Demo.node args Demo.start)
    = Normal (JSON_stringify (VObj result)) /\
  get_field (lit "redirected") result <> VBool true /\
  get_field (lit "redirect_url") result = VUndef.
Proof.
  cbv zeta. split; [vm_compute; reflexivity|].
  split; [intros H; vm_compute in H; discriminate | reflexivity].
Qed.

(** In the example world [/slow] never answers. *)
Lemma web_request_timeout_slow :
  http_request Demo.node
    (Web.request_of (Demo.get (lit "http://example.test/slow"))
       (mkURL (lit "http:") (lit "example.test") [] (lit "/slow") []
              (lit "example.test")))
    None tt = (Sent OnTimeout, tt) /\
  fst (Web.webRequestHandler Demo.node (Demo.get (lit "http://example.test/slow"))
         Demo.start) =
    Normal (JSON_stringify
              (VObj [success false;
                     (lit "error", VStr (lit "Request timeout (30s)"));
                     (lit "url", VStr (lit "http://example.test/slow"));
                     (lit "method", VStr (lit "GET"))])).
Proof.
  split; [reflexivity|].
  rewrite (proj2 (web_request_timeout Demo.node
                    (Demo.get (lit "http://example.test/slow")) Demo.start
                    (mkURL (lit "http:") (lit "example.test") [] (lit "/slow") []
                           (lit "example.test"))
                    tt eq_refl eq_refl)).
  reflexivity.
Defined.

(** C9, as stated, fails: the message is not ["Request timeout"]. *)
Lemma web_request_timeout_message :
  let result :=
    [success false;
     (lit "error", VStr (lit "Request timeout (30s)"));
     (lit "url", VStr (lit "http://example.test/slow"));
     (lit "method", VStr (lit "GET"))] in
  fst (Web.webRequestHandler Demo.node (Demo.get (lit "http://example.test/slow"))
         Demo.start)
    = Normal (JSON_stringify (VObj result)) /\
  get_field (lit "error") result <> VStr (lit "Request timeout").
Proof.
  cbv zeta. split; [vm_compute; reflexivity|].
  intros H. vm_compute in H. discriminate.
Qed.

(** C1: [web_request] is a registered handler and [{url}] satisfies its
    schema, yet when the server answers 302 with a [Location] that is not a
    URL the handler returns nothing: [new URL] throws inside the listener
    of [end], outside the [try] block, and the exception is uncaught. *)
Theorem web_request_unresolvable_redirect :
  fst (handler Demo.node (web_request_ (Demo.get (lit "http://example.test/bad")))
         Demo.start)
    = Uncaught Demo.invalid_url.
Proof. vm_compute. reflexivity. Qed.

(** ** Web plugin: [browse_website] *)

Lemma collected {A B} (step : list B -> A -> list B) (f : A -> list B) :
  (forall acc a, step acc a = acc ++ f a) ->
  forall l acc, fold_left step l acc = acc ++ flat_map f l.
Proof.
  intros Hstep. induction l as [|a l IH]; intros acc; cbn [fold_left flat_map].
  - symmetry. apply app_nil_r.
  - rewrite IH, Hstep, app_assoc. reflexivity.
Qed.

Section BrowseFacts.
Context {W : Type} (P : platform W).

Lemma extractLinksFromHTML_items html url :
  Web.extractLinksFromHTML P html url =
  flat_map
    (fun m =>
       match capture P RE_href m with
       | Some href =>
           let text :=
             match capture P RE_anchor_text m with Some t => trim t | None => [] end in
           match url_resolve P href url with
           | inr abs =>
               [VObj [(lit "type", VStr (lit "link")); (lit "url", VStr abs);
                      (lit "text", VStr text); (lit "relative", VStr href)]]
           | inl _ =>
               [VObj [(lit "type", VStr (lit "link")); (lit "url", VStr href);
                      (lit "text", VStr text); (lit "relative", VStr href);
                      (lit "invalid_url", VBool true)]]
           end
       | None => []
       end)
    (match_all P RE_anchor html).
Proof.
  unfold Web.extractLinksFromHTML.
  match goal with |- _ = flat_map ?f _ => rewrite (collected _ f) end.
  - reflexivity.
  - intros acc m. cbv zeta. destruct (capture P RE_href m) as [href|].
    + destruct (url_resolve P href url); reflexivity.
    + symmetry. apply app_nil_r.
Qed.

(** No link record of the static path has a member [visible]. *)
Lemma static_link_record html url entry :
  In entry (Web.extractLinksFromHTML P html url) ->
  exists members, entry = VObj members /\ ~ In (lit "visible") (map fst members).
Proof.
  rewrite extractLinksFromHTML_items. intros H. apply in_flat_map in H.
  destruct H as (m & _ & H).
  destruct (capture P RE_href m) as [href|]; [|destruct H].
  cbv zeta in H.
  destruct (url_resolve P href url); destruct H as [<-|[]];
    (eexists; split; [reflexivity|]);
    cbn [map fst]; intros H; repeat destruct H as [H|H]; try discriminate H; exact H.
Qed.

(** Every link record of the browser path has one, and it is a boolean. *)
Lemma primary_link_record found entry :
  In entry (Web.linkElements found) ->
  exists members b, entry = VObj members /\ In (lit "visible", VBool b) members.
Proof.
  unfold Web.linkElements. intros H. apply in_app_iff in H.
  destruct H as [H|H]; apply in_map_iff in H; destruct H as (x & <- & _);
    eexists _, _; (split; [reflexivity|]); cbn [In]; auto 10.
Qed.

(** What an answered request hands over to the static path. *)
Lemma webRequest_answered args (s s' : state W) r :
  Web.webRequest P args s = (Normal r, s') ->
  truthy (field "success" r) = true ->
  exists code headers,
    field "status_code" r = VNum code /\ field "headers" r = VObj headers.
Proof.
  unfold Web.webRequest. unfold bind at 1.
  destruct (try_catch _ _ s) as [[[result|ev]|e|e|] s1] eqn:Estart; try discriminate.
  - (* the request could not be sent *)
    unfold try_catch in Estart.
    match type of Estart with
    | match ?c with _ => _ end = _ => destruct c as [[x|e|e|] s0] eqn:E
    end; try discriminate.
    + exfalso. apply returned in Estart. destruct Estart as [-> _].
      revert E. unfold_monad.
      destruct (url_parse P (web_request.url args)); [discriminate|].
      destruct (http_request P _ _ _) as [[e|ev] w]; discriminate.
    + apply returned in Estart. destruct Estart as [Hr _]. injection Hr as <-.
      intros H. apply returned in H. destruct H as [<- _]. discriminate.
  - destruct ev as [res|e| |].
    + intros H Hok.
      destruct (on_end_decompress P (web_request.url args)
                  (default (lit "GET") (web_request.method args))
                  (default true (web_request.follow_redirects args)) res s1)
        as (body & s2 & _ & _ & Hend).
      rewrite Hend in H. cbv zeta in H.
      destruct (_ && _ && _).
      * destruct (url_resolve P _ _); [discriminate H|].
        apply returned in H. destruct H as [<- _]. eexists _, _. split; reflexivity.
      * apply returned in H. destruct H as [<- _]. eexists _, _. split; reflexivity.
    + intros H. apply returned in H. destruct H as [<- _]. discriminate.
    + unfold_monad. intros H. apply returned in H. destruct H as [<- _]. discriminate.
    + discriminate.
Qed.

(** C4 (amended): whatever exception the headless-browser path raises -- a
    browser that cannot be launched is one -- the handler takes the static
    path, and it does so without looking at the exception.  When the
    static fetch then succeeds, the result has [success:true] and
    [rendered_with:"static"], and its thirteen members have the names of
    the members of the result of the browser path, none of them missing
    on either path.  Inside [links] the names are not the same: every
    record that the browser path lists has a boolean [visible], and no
    record that the static path lists has a member of that name. *)
Theorem browse_website_fallback (args : browse_website.args) (s : state W) :
  (forall e w', browser_launch P (world s) = (inl e, w') ->
     Web.primary P args s = (Throw e, mkState w' (trace s)))
  /\
  (forall e s1, Web.primary P args s = (Throw e, s1) ->
     Web.browseWebsiteHandler P args s = Web.fallback P args (Web.logged s1 e))
  /\
  (forall e s1 responseData s2,
     Web.primary P args s = (Throw e, s1) ->
     Web.webRequest P (Web.static_request args) (Web.logged s1 e)
       = (Normal responseData, s2) ->
     truthy (field "success" responseData) = true ->
     exists o links,
       Web.browseWebsiteHandler P args s = (Normal (JSON_stringify (VObj o)), s2) /\
       map fst o = browse_fields /\
       Forall (fun member => snd member <> VUndef) o /\
       get_field (lit "success") o = VBool true /\
       get_field (lit "rendered_with") o = VStr (lit "static") /\
       get_field (lit "links") o = VArr links /\
       forall entry, In entry links ->
         exists members, entry = VObj members /\ ~ In (lit "visible") (map fst members))
  /\
  (forall out s', Web.primary P args s = (Normal out, s') ->
     exists o links,
       out = JSON_stringify (VObj o) /\
       map fst o = browse_fields /\
       Forall (fun member => snd member <> VUndef) o /\
       get_field (lit "success") o = VBool true /\
       get_field (lit "rendered_with") o = VStr (lit "puppeteer") /\
       get_field (lit "links") o = VArr links /\
       forall entry, In entry links ->
         exists members b, entry = VObj members /\ In (lit "visible", VBool b) members).
Proof.
  assert (Hfb : forall e s1, Web.primary P args s = (Throw e, s1) ->
     Web.browseWebsiteHandler P args s = Web.fallback P args (Web.logged s1 e)).
  { intros e s1 H. unfold Web.browseWebsiteHandler, try_catch. fold (Web.primary P args).
    rewrite H. reflexivity. }
  split; [|split; [exact Hfb | split]].
  - intros e w' H. unfold Web.primary, Web.browseWithPuppeteer. unfold_monad.
    rewrite H. reflexivity.
  - intros e s1 responseData s2 Hp Hreq Hok.
    destruct (webRequest_answered _ _ _ _ Hreq Hok) as (code & headers & Hcode & Hheaders).
    rewrite (Hfb e s1 Hp). unfold Web.fallback, Web.browseStatic.
    fold (Web.static_request args). unfold bind at 1. rewrite Hreq.
    rewrite Hok. cbn [negb]. unfold ret. rewrite Hcode, Hheaders.
    eexists _, _. split; [reflexivity|]. split; [reflexivity|].
    split; [repeat constructor; discriminate|].
    split; [reflexivity|]. split; [reflexivity|]. split; [reflexivity|].
    intros entry Hentry.
    destruct (default false (browse_website.extract_links args)); [|destruct Hentry].
    exact (static_link_record _ _ _ Hentry).
  - intros out s' H. unfold Web.primary, Web.browseWithPuppeteer in H. unfold_monad.
    destruct (browser_launch P (world s)) as [[e|[]] w1]; [discriminate|].
    repeat case_oracle H. all: try discriminate.
    apply returned in H. destruct H as [<- <-].
    exists [success true;
            (lit "url", VStr (browse_website.url args));
            (lit "status_code", VNum (p_status p));
            (lit "headers", VObj (p_headers p));
            (lit "content_length", VNum (jslength (p_content p)));
            (lit "title", VStr (Web.or_else [] (p_title p)));
            (lit "text_content",
               VStr (Web.or_else [] (match p_innerText p with
                                      | inl e => inl e
                                      | inr t => inr (firstn 2000 t)
                                      end)));
            (lit "links",
               VArr (if default false (browse_website.extract_links args)
                     then match p_links p with
                          | inl _ => []
                          | inr found => Web.linkElements found
                          end
                     else []));
            (lit "forms",
               VArr (if default false (browse_website.extract_forms args)
                     then match p_forms p with
                          | inl _ => []
                          | inr found => Web.formElements P found
                          end
                     else []));
            (lit "scripts",
               VArr (if default false (browse_website.extract_scripts args)
                     then match p_scripts p with
                          | inl _ => []
                          | inr found => Web.scriptElements found
                          end
                     else []));
            (lit "meta_tags",
               VArr (match p_meta p with
                     | inl _ => []
                     | inr found => Web.tags found
                     end));
            (lit "security_headers", VObj (security_headers (p_headers p)));
            (lit "rendered_with", VStr (lit "puppeteer"))].
    eexists. split.
    { unfold Web.evaluated.
      destruct (default false (browse_website.extract_links args)),
               (default false (browse_website.extract_forms args)),
               (default false (browse_website.extract_scripts args)),
               (p_links p), (p_forms p), (p_scripts p), (p_meta p); reflexivity. }
    split; [reflexivity|].
    split; [repeat constructor; discriminate|].
    split; [reflexivity|]. split; [reflexivity|]. split; [reflexivity|].
    intros entry Hentry.
    destruct (default false (browse_website.extract_links args)); [|destruct Hentry].
    destruct (p_links p) as [e|found]; [destruct Hentry|].
    exact (primary_link_record _ _ Hentry).
Qed.
End BrowseFacts.

(** The example world has no browser, and its page can be fetched. *)
Lemma browse_website_without_browser :
  browser_launch Demo.node tt = (inl Demo.no_browser, tt) /\
  exists o s2,
    Web.browseWebsiteHandler Demo.node
      (browse_website.mk Demo.home None None None None) Demo.start
      = (Normal (JSON_stringify (VObj o)), s2) /\
    map fst o = browse_fields /\
    Forall (fun member => snd member <> VUndef) o /\
    get_field (lit "success") o = VBool true /\
    get_field (lit "rendered_with") o = VStr (lit "static").
Proof.
  split; [reflexivity|].
  destruct (browse_website_fallback Demo.node
              (browse_website.mk Demo.home None None None None) Demo.start)
    as (H1 & _ & H3 & _).
  specialize (H1 Demo.no_browser tt eq_refl).
  destruct (Web.webRequest Demo.node
              (Web.static_request (browse_website.mk Demo.home None None None None))
              (Web.logged Demo.start Demo.no_browser)) as [c s2] eqn:E.
  destruct c as [responseData|e|e|]; try (vm_compute in E; discriminate).
  assert (Hok : truthy (field "success" responseData) = true).
  { vm_compute in E. apply returned in E. destruct E as [<- _]. reflexivity. }
  destruct (H3 _ _ responseData s2 H1 E Hok) as (o & links & Ho1 & Ho2 & Ho3 & Ho4 & Ho5 & _).
  exists o, s2. auto.
Defined.

(** C4, as stated, fails: the page [/links] of the host has one link.
    Seen through the browser, its record has the members [type], [url],
    [text], [relative] and [visible]; with the browser gone, the static
    path lists the same link without [visible]. *)
Lemma browse_website_link_records_differ :
  let args := browse_website.mk Host.links (Some true) None None None in
  let rendered :=
    [(lit "type", VStr (lit "link"));
     (lit "url", VStr (lit "http://example.test/new"));
     (lit "text", VStr (lit "New"));
     (lit "relative", VStr (lit "/new"));
     (lit "visible", VBool true)] in
  let parsed :=
    [(lit "type", VStr (lit "link"));
     (lit "url", VStr (lit "http://example.test/new"));
     (lit "text", VStr (lit "New"));
     (lit "relative", VStr (lit "/new"))] in
  let result (links : list jsval) (by_ : jsstring) :=
    VObj [success true;
          (lit "url", VStr Host.links);
          (lit "status_code", VNum 200);
          (lit "headers", VObj [(lit "content-type", VStr (lit "text/html"))]);
          (lit "content_length", VNum 22);
          (lit "title", VStr []);
          (lit "text_content", VStr (lit "New"));
          (lit "links", VArr links);
          (lit "forms", VArr []);
          (lit "scripts", VArr []);
          (lit "meta_tags", VArr []);
          (lit "security_headers", VObj []);
          (lit "rendered_with", VStr by_)] in
  fst (Web.browseWebsiteHandler Host.node args Host.fresh)
    = Normal (JSON_stringify (result [VObj rendered] (lit "puppeteer")))
  /\ fst (Web.browseWebsiteHandler Host.headless args Host.fresh)
     = Normal (JSON_stringify (result [VObj parsed] (lit "static")))
  /\ map fst rendered <> map fst parsed.
Proof.
  cbv zeta. split; [vm_compute; reflexivity|]. split; [vm_compute; reflexivity|].
  intros H. vm_compute in H. discriminate H.
Qed.

(** ** Web plugin: [web_search] *)

(** C6: the definition of the tool describes [num_results] as "default:
    10, max: 20", but the handler never caps it: asked for 25 results, and
    the API having 25 related topics, it returns 25. *)
Theorem web_search_exceeds_maximum :
  let results := map Demo.result_of (seq 1 25) in
  fst (handler Demo.node (web_search_ (web_search.mk (lit "rocq") (Some 25))) Demo.start)
    = Normal (JSON_stringify
                (VObj [success true;
                       (lit "query", VStr (lit "rocq"));
                       (lit "results", VArr results);
                       (lit "total_results", VNum 25)])) /\
  List.length results = 25%nat.
Proof. cbv zeta. split; [vm_compute; reflexivity | reflexivity]. Qed.

(** ** Web analysis plugin *)

(** No string twice, decided. *)
Lemma distinct_NoDup l : distinct l = true -> NoDup l.
Proof.
  induction l as [|x l IH]; cbn [distinct]; intros H; constructor.
  - apply andb_true_iff in H. destruct H as [H _]. apply negb_true_iff in H.
    intros Hin.
    assert (Hx : existsb (jsstring_eqb x) l = true).
    { apply existsb_exists. exists x.
      split; [exact Hin | apply jsstring_eqb_eq; reflexivity]. }
    rewrite Hx in H. discriminate H.
  - apply andb_true_iff in H. apply IH, H.
Qed.

Section AnalysisFacts.
Context {W : Type} (P : platform W).

(** The helper never throws: its promise is fulfilled, or stays pending
    when the request gets no event. *)
Lemma makeWebRequest_cases url method headers (s : state W) :
  exists s',
    (exists r, Analysis.makeWebRequest P url method headers s = (Normal r, s')) \/
    (unanswered P /\ Analysis.makeWebRequest P url method headers s = (Pending, s')).
Proof.
  unfold Analysis.makeWebRequest. unfold_monad.
  destruct (url_parse P url) as [e|urlObj]; [eauto|].
  destruct (http_request P _ _ (world s)) as [[e|[res|e| |]] w] eqn:E; eauto.
  eexists. right. split; [|reflexivity].
  eexists _, _, _. rewrite E. reflexivity.
Qed.

Lemma makeWebRequest_returns url method headers (s : state W) :
  answered P ->
  exists r s', Analysis.makeWebRequest P url method headers s = (Normal r, s').
Proof.
  intros Hall.
  destruct (makeWebRequest_cases url method headers s) as (s' & [[r H]|[(o & b & w & Hno) _]]).
  - eauto.
  - destruct (Hall o b w Hno).
Qed.

Lemma scan_file_spec patterns jsContent :
  forall found fileEndpoints found' fileEndpoints' oe,
    Analysis.scan_file P patterns jsContent found fileEndpoints
      = (found', fileEndpoints', oe) ->
    NoDup found -> incl fileEndpoints found ->
    NoDup found' /\ incl found found' /\ incl fileEndpoints' found'.
Proof.
  induction patterns as [|p ps IH]; intros found fe found' fe' oe H Hnd Hin;
    cbn [Analysis.scan_file] in H.
  - injection H as <- <- _. split; [exact Hnd|]. split; [apply incl_refl | exact Hin].
  - destruct (Analysis.matches P p jsContent) as [e|ms].
    + injection H as <- <- _. split; [exact Hnd|]. split; [apply incl_refl | exact Hin].
    + apply IH in H.
      * destruct H as (H1 & H2 & H3). split; [exact H1|]. split; [|exact H3].
        intros x Hx. apply H2. apply (set_add_all_in _ jsval_eqb_eq). left. exact Hx.
      * apply (set_add_all_nodup _ jsval_eqb_eq), Hnd.
      * intros x Hx. apply (set_add_all_in _ jsval_eqb_eq) in Hx.
        apply (set_add_all_in _ jsval_eqb_eq).
        destruct Hx as [Hx|Hx]; [left; apply Hin, Hx | right; exact Hx].
Qed.

(** What a pattern matches in a file is added, as long as no pattern
    before it has thrown. *)
Lemma scan_file_adds jsContent pattern rest ms : forall ahead found fe found' fe' oe,
  Analysis.scan_file P (ahead ++ pattern :: rest) jsContent found fe = (found', fe', oe) ->
  NoDup found -> incl fe found ->
  Forall (fun q => exists qs, Analysis.matches P q jsContent = inr qs) ahead ->
  Analysis.matches P pattern jsContent = inr ms ->
  incl ms found'.
Proof.
  induction ahead as [|q ahead IH]; intros found fe found' fe' oe H Hnd Hfe Hahead Hm;
    cbn [app Analysis.scan_file] in H.
  - rewrite Hm in H. apply scan_file_spec in H.
    + destruct H as (_ & H & _). intros x Hx. apply H.
      apply (set_add_all_in _ jsval_eqb_eq). right. exact Hx.
    + apply (set_add_all_nodup _ jsval_eqb_eq), Hnd.
    + intros x Hx. apply (set_add_all_in _ jsval_eqb_eq) in Hx.
      apply (set_add_all_in _ jsval_eqb_eq).
      destruct Hx as [Hx|Hx]; [left; apply Hfe, Hx | right; exact Hx].
  - inversion_clear Hahead as [|? ? [qs Hq] Hrest]. rewrite Hq in H.
    apply (IH _ _ _ _ _ H); try assumption.
    + apply (set_add_all_nodup _ jsval_eqb_eq), Hnd.
    + intros y Hy. apply (set_add_all_in _ jsval_eqb_eq) in Hy.
      apply (set_add_all_in _ jsval_eqb_eq).
      destruct Hy as [Hy|Hy]; [left; apply Hfe, Hy | right; exact Hy].
Qed.

Lemma analyze_file_spec patterns found jsAnalysis jsFile (s : state W)
      found' jsAnalysis' s' :
  Analysis.analyze_file P patterns (found, jsAnalysis) jsFile s
    = (Normal (found', jsAnalysis'), s') ->
  NoDup found -> (forall entry, In entry jsAnalysis -> listed entry found) ->
  NoDup found' /\ incl found found' /\
  (forall entry, In entry jsAnalysis' -> listed entry found').
Proof.
  intros H Hnd Hl. unfold Analysis.analyze_file in H.
  destruct (makeWebRequest_cases jsFile (lit "GET") [] s) as (s1 & [[r Hr]|[_ Hr]]);
    unfold bind, try_catch in H; rewrite Hr in H; [|discriminate H].
  destruct (truthy (field "success" r)).
  - destruct (Analysis.scan_file P patterns (string_of (field "body" r)) found [])
      as [[f1 fe] [e|]] eqn:E;
    apply scan_file_spec in E; try exact Hnd; try (intros x []);
    destruct E as (E1 & E2 & E3);
    apply returned in H; destruct H as [H _]; injection H as <- <-;
    (split; [exact E1|]; split; [exact E2|]);
    intros entry Hentry; apply in_app_iff in Hentry;
    (destruct Hentry as [Hentry|[<-|[]]];
     [intros l x Hf Hx; apply E2; eapply Hl; eassumption|]).
    + intros l x Hf Hx. discriminate Hf.
    + intros l x Hf Hx. cbn in Hf. injection Hf as <-. apply E3, Hx.
  - apply returned in H. destruct H as [H _]. injection H as <- <-.
    split; [exact Hnd|]. split; [apply incl_refl | exact Hl].
Qed.

(** One turn of the loop over the files: the file is requested, and what
    the patterns match in an answer that reports success is added. *)
Lemma analyze_file_fetched patterns found jsAnalysis jsFile (s : state W)
      found' jsAnalysis' s' :
  Analysis.analyze_file P patterns (found, jsAnalysis) jsFile s
    = (Normal (found', jsAnalysis'), s') ->
  NoDup found ->
  exists jsData,
    Analysis.makeWebRequest P jsFile (lit "GET") [] s = (Normal jsData, s') /\
    (truthy (field "success" jsData) = true ->
     forall ahead pattern rest ms,
       patterns = ahead ++ pattern :: rest ->
       Forall (fun q => exists qs,
                 Analysis.matches P q (string_of (field "body" jsData)) = inr qs) ahead ->
       Analysis.matches P pattern (string_of (field "body" jsData)) = inr ms ->
       incl ms found').
Proof.
  intros H Hnd. unfold Analysis.analyze_file in H.
  destruct (makeWebRequest_cases jsFile (lit "GET") [] s) as (s1 & [[r Hr]|[_ Hr]]);
    unfold bind, try_catch in H; rewrite Hr in H; [|discriminate H].
  exists r.
  destruct (truthy (field "success" r)).
  - destruct (Analysis.scan_file P patterns (string_of (field "body" r)) found [])
      as [[f1 fe] oe] eqn:E.
    assert (Hs : s1 = s' /\ f1 = found').
    { destruct oe; apply returned in H; destruct H as [H ->]; injection H as <- _; auto. }
    destruct Hs as [<- <-]. split; [exact Hr|].
    intros _ ahead pattern rest ms -> Hahead Hm.
    apply (scan_file_adds _ _ _ _ _ _ _ _ _ _ E Hnd); try assumption. intros x [].
  - apply returned in H. destruct H as [H <-]. split; [exact Hr|]. discriminate.
Qed.

Lemma scan_inline_spec patterns found script (s : state W) found' s' :
  Analysis.scan_inline P patterns found script s = (Normal found', s') ->
  NoDup found ->
  NoDup found' /\ incl found found' /\
  (forall pattern ms, In pattern patterns ->
     Analysis.matches P pattern (Analysis.content_of P script) = inr ms ->
     incl ms found').
Proof.
  unfold Analysis.scan_inline. fold (Analysis.content_of P script).
  intros H Hnd.
  pose (I := fun acc : list jsval => NoDup acc /\ incl found acc).
  pose (R := fun (pattern : pattern) (acc : list jsval) =>
               forall ms,
                 Analysis.matches P pattern (Analysis.content_of P script) = inr ms ->
                 incl ms acc).
  assert (Hstep : forall acc a (s0 : state W) acc' s0', I acc ->
            bind (lift (Analysis.matches P a (Analysis.content_of P script)))
                 (fun ms => ret (set_add_all jsval_eqb acc ms)) s0 = (Normal acc', s0') ->
            I acc' /\ R a acc').
  { intros acc a s0 acc' s0' [Ha1 Ha2] Hf. unfold_monad. unfold R.
    destruct (Analysis.matches P a (Analysis.content_of P script)) as [e|ms];
      [discriminate|].
    apply returned in Hf. destruct Hf as [<- _]. split; [split|].
    + apply (set_add_all_nodup _ jsval_eqb_eq), Ha1.
    + intros x Hx. apply (set_add_all_in _ jsval_eqb_eq). left. apply Ha2, Hx.
    + intros ms' Hms'. injection Hms' as <-. intros x Hx.
      apply (set_add_all_in _ jsval_eqb_eq). right. exact Hx. }
  assert (Hmono : forall a acc b (s0 : state W) acc' s0', I acc -> R a acc ->
            bind (lift (Analysis.matches P b (Analysis.content_of P script)))
                 (fun ms => ret (set_add_all jsval_eqb acc ms)) s0 = (Normal acc', s0') ->
            R a acc').
  { intros a acc b s0 acc' s0' _ HR Hf. unfold_monad. unfold R in *.
    destruct (Analysis.matches P b (Analysis.content_of P script)) as [e|ms];
      [discriminate|].
    apply returned in Hf. destruct Hf as [<- _].
    intros ms' Hms' x Hx. apply (set_add_all_in _ jsval_eqb_eq). left.
    apply (HR ms' Hms'), Hx. }
  destruct (foldM_invariant _ I R Hstep Hmono _ _ _ _ _ (conj Hnd (incl_refl found)) H)
    as [[H1 H2] H3].
  split; [exact H1|]. split; [exact H2|]. intros pattern ms Hp. apply H3, Hp.
Qed.

Lemma inline_scripts_spec patterns scripts (s : state W) found s' :
  foldM (Analysis.scan_inline P patterns) [] scripts s = (Normal found, s') ->
  NoDup found /\
  (forall script pattern ms, In script scripts -> In pattern patterns ->
     Analysis.matches P pattern (Analysis.content_of P script) = inr ms ->
     incl ms found).
Proof.
  intros H.
  pose (R := fun (script : jsstring) (acc : list jsval) =>
               forall pattern ms, In pattern patterns ->
                 Analysis.matches P pattern (Analysis.content_of P script) = inr ms ->
                 incl ms acc).
  assert (Hstep : forall acc a (s0 : state W) acc' s0', NoDup acc ->
            Analysis.scan_inline P patterns acc a s0 = (Normal acc', s0') ->
            NoDup acc' /\ R a acc').
  { intros acc a s0 acc' s0' Hnd Hf.
    destruct (scan_inline_spec _ _ _ _ _ _ Hf Hnd) as (A1 & A2 & A3). split; assumption. }
  assert (Hmono : forall a acc b (s0 : state W) acc' s0', NoDup acc -> R a acc ->
            Analysis.scan_inline P patterns acc b s0 = (Normal acc', s0') -> R a acc').
  { intros a acc b s0 acc' s0' Hnd HR Hf.
    destruct (scan_inline_spec _ _ _ _ _ _ Hf Hnd) as (A1 & A2 & A3).
    intros pattern ms Hp Hm x Hx. apply A2. eapply HR; eassumption. }
  destruct (foldM_invariant _ (@NoDup jsval) R Hstep Hmono _ _ _ _ _ (NoDup_nil _) H)
    as [H1 H2].
  split; [exact H1|]. intros script pattern ms Hs. apply H2, Hs.
Qed.

(** The scan of the inline scripts neither asks nor changes the platform,
    and it goes through when no pattern throws. *)
Lemma patterns_loop_returns content patterns (s : state W) :
  (forall pattern, In pattern patterns ->
     exists ms, Analysis.matches P pattern content = inr ms) ->
  forall found, exists found',
    foldM (fun found pattern =>
             bind (lift (Analysis.matches P pattern content))
                  (fun ms => ret (set_add_all jsval_eqb found ms)))
          found patterns s = (Normal found', s).
Proof.
  induction patterns as [|p patterns IH]; intros Hok found.
  - exists found. reflexivity.
  - destruct (Hok p (or_introl eq_refl)) as [ms Hms].
    destruct (IH (fun q Hq => Hok q (or_intror Hq)) (set_add_all jsval_eqb found ms))
      as [found' Hrun].
    exists found'. rewrite foldM_cons. unfold bind, lift. rewrite Hms. exact Hrun.
Qed.

Lemma inline_scripts_return patterns scripts (s : state W) :
  (forall script pattern, In script scripts -> In pattern patterns ->
     exists ms, Analysis.matches P pattern (Analysis.content_of P script) = inr ms) ->
  forall found, exists found',
    foldM (Analysis.scan_inline P patterns) found scripts s = (Normal found', s).
Proof.
  induction scripts as [|script scripts IH]; intros Hok found.
  - exists found. reflexivity.
  - destruct (patterns_loop_returns (Analysis.content_of P script) patterns s
                (fun p Hp => Hok script p (or_introl eq_refl) Hp) found) as [f1 H1].
    destruct (IH (fun sc p Hsc Hp => Hok sc p (or_intror Hsc) Hp) f1) as [found' Hrun].
    exists found'. rewrite foldM_cons. unfold Analysis.scan_inline.
    fold (Analysis.content_of P script). rewrite H1. exact Hrun.
Qed.

Lemma inline_scripts_state patterns scripts : forall found (s : state W),
  snd (foldM (Analysis.scan_inline P patterns) found scripts s) = s.
Proof.
  assert (Hinner : forall content ps found (s : state W),
            snd (foldM (fun found pattern =>
                          bind (lift (Analysis.matches P pattern content))
                               (fun ms => ret (set_add_all jsval_eqb found ms)))
                       found ps s) = s).
  { intros content. induction ps as [|p ps IH]; intros found s; [reflexivity|].
    rewrite foldM_cons. unfold bind, lift.
    destruct (Analysis.matches P p content) as [e|ms]; [reflexivity|].
    unfold ret at 1. apply IH. }
  induction scripts as [|script scripts IH]; intros found s; [reflexivity|].
  rewrite foldM_cons. unfold Analysis.scan_inline at 1.
  specialize (Hinner (replace_all P RE_script_tags [] script) patterns found s).
  destruct (foldM _ found patterns s) as [[f1|e|e|] s1]; cbn [snd] in *; subst s1;
    try reflexivity.
  apply IH.
Qed.

Lemma analyze_file_returns patterns acc jsFile (s : state W) :
  answered P ->
  exists acc' s', Analysis.analyze_file P patterns acc jsFile s = (Normal acc', s').
Proof.
  intros Hall. destruct acc as [found jsAnalysis]. unfold Analysis.analyze_file.
  destruct (makeWebRequest_returns jsFile (lit "GET") [] s Hall) as (r & s1 & Hr).
  unfold bind, try_catch. rewrite Hr.
  destruct (truthy (field "success" r)); [|eexists _, _; reflexivity].
  destruct (Analysis.scan_file P patterns _ found []) as [[f1 fe] [e|]];
    eexists _, _; reflexivity.
Qed.

Lemma files_return patterns files : forall acc (s : state W),
  answered P ->
  exists acc' s', foldM (Analysis.analyze_file P patterns) acc files s = (Normal acc', s').
Proof.
  induction files as [|jsFile files IH]; intros acc s Hall.
  - exists acc, s. reflexivity.
  - destruct (analyze_file_returns patterns acc jsFile s Hall) as (acc1 & s1 & H1).
    destruct (IH acc1 s1 Hall) as (acc' & s' & H').
    exists acc', s'. rewrite foldM_cons, H1. exact H'.
Qed.

(** The loop over the files, when it comes to its end: the set stays a
    set and only grows, and what the patterns match in the body of a file
    that was fetched is in it. *)
Lemma files_spec patterns files : forall found0 jsAnalysis0 (s : state W)
                                         found jsAnalysis s',
  foldM (Analysis.analyze_file P patterns) (found0, jsAnalysis0) files s
    = (Normal (found, jsAnalysis), s') ->
  NoDup found0 ->
  (forall entry, In entry jsAnalysis0 -> listed entry found0) ->
  NoDup found /\ incl found0 found /\
  (forall entry, In entry jsAnalysis -> listed entry found) /\
  (forall jsFile jsData ahead pattern rest ms,
     In (jsFile, jsData) (fetched P files s) ->
     truthy (field "success" jsData) = true ->
     patterns = ahead ++ pattern :: rest ->
     Forall (fun q => exists qs,
               Analysis.matches P q (string_of (field "body" jsData)) = inr qs) ahead ->
     Analysis.matches P pattern (string_of (field "body" jsData)) = inr ms ->
     incl ms found).
Proof.
  induction files as [|jsFile files IH]; intros found0 ja0 s found ja s' Hrun Hnd Hl.
  - apply returned in Hrun. destruct Hrun as [Hrun _]. injection Hrun as <- <-.
    split; [exact Hnd|]. split; [apply incl_refl|]. split; [exact Hl|].
    intros ? ? ? ? ? ? [].
  - rewrite foldM_cons in Hrun.
    destruct (Analysis.analyze_file P patterns (found0, ja0) jsFile s)
      as [[[f1 ja1]|e|e|] s1] eqn:H1; try discriminate Hrun.
    destruct (analyze_file_spec _ _ _ _ _ _ _ _ H1 Hnd Hl) as (Hnd1 & Hin1 & Hl1).
    destruct (analyze_file_fetched _ _ _ _ _ _ _ _ H1 Hnd) as (jsData & Hreq & Hadds).
    destruct (IH f1 ja1 s1 found ja s' Hrun Hnd1 Hl1) as (Hnd' & Hin' & Hl' & Hrest).
    split; [exact Hnd'|]. split; [intros x Hx; apply Hin', Hin1, Hx|].
    split; [exact Hl'|].
    intros f d ahead pattern rest ms Hf Hok Hp Hahead Hm.
    cbn [fetched] in Hf. rewrite Hreq in Hf. destruct Hf as [Hf|Hf].
    + injection Hf as <- <-. intros x Hx. apply Hin'.
      exact (Hadds Hok ahead pattern rest ms Hp Hahead Hm x Hx).
    + exact (Hrest f d ahead pattern rest ms Hf Hok Hp Hahead Hm).
Qed.

(** What a completed analysis returns. *)
Lemma analysis_aggregated patterns htmlContent url (s1 s2 s3 : state W)
      found0 found jsAnalysis :
  foldM (Analysis.scan_inline P patterns) []
        (match_all P RE_inline_script htmlContent) s1 = (Normal found0, s2) ->
  foldM (Analysis.analyze_file P patterns) (found0, [])
        (firstn 10 (Analysis.script_files P htmlContent url)) s2
    = (Normal (found, jsAnalysis), s3) ->
  aggregated P patterns htmlContent url s1 found.
Proof.
  intros Hinline Hfiles.
  assert (Hs : s2 = s1).
  { pose proof (inline_scripts_state patterns (match_all P RE_inline_script htmlContent)
                  [] s1) as E.
    rewrite Hinline in E. exact E. }
  subst s2.
  destruct (inline_scripts_spec _ _ _ _ _ Hinline) as [Hnd0 Hin0].
  destruct (files_spec _ _ _ _ _ _ _ _ Hfiles Hnd0 (fun _ H => match H with end))
    as (Hnd & Hmono & _ & Hfetched).
  split; [exact Hnd|]. split.
  - intros script pattern ms x Hs Hp Hm Hx. apply Hmono.
    exact (Hin0 script pattern ms Hs Hp Hm x Hx).
  - intros jsFile jsData ahead pattern rest ms x Hf Hs Hp Hahead Hm Hx.
    exact (Hfetched jsFile jsData ahead pattern rest ms Hf Hs Hp Hahead Hm x Hx).
Qed.

Lemma opt_includes_cases v needle (s : state W) :
  (exists r, opt_includes v needle s = (Normal r, s)) \/
  (exists e, opt_includes v needle s = (Throw e, s)).
Proof.
  destruct v; cbn; unfold ret, throw; eauto.
Qed.

Lemma likely_api_cases r (s : state W) :
  (exists v, Analysis.likely_api r s = (Normal v, s)) \/
  (exists e, Analysis.likely_api r s = (Throw e, s)).
Proof.
  unfold Analysis.likely_api, bind.
  repeat match goal with
         | |- context [opt_includes ?v ?n s] =>
             destruct (opt_includes_cases v n s) as [[? ->]|[? ->]]; [|eauto]
         | |- context [if truthy ?v then _ else _] =>
             destruct (truthy v); [unfold ret; eauto|]
         end.
  eauto.
Qed.

(** Every turn of the probing loop adds one entry, for the URL it tested. *)
Lemma probe_spec baseDomain results path (s s' : state W) r :
  Analysis.probe P baseDomain results path s = (Normal r, s') ->
  exists entry, r = results ++ [entry] /\ field "url" entry = VStr (baseDomain ++ path).
Proof.
  unfold Analysis.probe.
  destruct (makeWebRequest_cases (baseDomain ++ path) (lit "GET") [] s)
    as (s1 & [[d Hd]|[_ Hd]]);
    unfold bind at 1; unfold try_catch; rewrite Hd; [|discriminate].
  destruct (likely_api_cases d s1) as [[v E]|[e E]];
    unfold bind; rewrite E; intros H; apply returned in H; destruct H as [<- _];
    eexists; split; reflexivity.
Qed.

(** A turn of the probing loop does not throw. *)
Lemma probe_cases baseDomain results path (s : state W) :
  exists s',
    (exists r, Analysis.probe P baseDomain results path s = (Normal r, s')) \/
    Analysis.probe P baseDomain results path s = (Pending, s').
Proof.
  unfold Analysis.probe.
  destruct (makeWebRequest_cases (baseDomain ++ path) (lit "GET") [] s)
    as (s1 & [[d Hd]|[_ Hd]]).
  - destruct (likely_api_cases d s1) as [[v E]|[e E]];
      exists s1; left; eexists; unfold try_catch, bind; rewrite Hd, E; reflexivity.
  - exists s1. right. unfold try_catch, bind. rewrite Hd. reflexivity.
Qed.

Lemma probe_loop_cases baseDomain paths : forall results (s : state W),
  exists s',
    (exists r, foldM (Analysis.probe P baseDomain) results paths s = (Normal r, s')) \/
    foldM (Analysis.probe P baseDomain) results paths s = (Pending, s').
Proof.
  induction paths as [|path paths IH]; intros results s.
  - exists s. left. exists results. reflexivity.
  - rewrite foldM_cons.
    destruct (probe_cases baseDomain results path s) as (s1 & [[r1 H1]|H1]); rewrite H1.
    + apply IH.
    + exists s1. right. reflexivity.
Qed.

Lemma probe_returns baseDomain results path (s : state W) :
  answered P ->
  exists r s', Analysis.probe P baseDomain results path s = (Normal r, s').
Proof.
  intros Hall. unfold Analysis.probe.
  destruct (makeWebRequest_returns (baseDomain ++ path) (lit "GET") [] s Hall)
    as (d & s1 & Hd).
  unfold bind at 1. unfold try_catch. rewrite Hd.
  destruct (likely_api_cases d s1) as [[v E]|[e E]];
    unfold bind; rewrite E; eexists _, _; reflexivity.
Qed.

Lemma probe_loop baseDomain paths : forall results (s s' : state W) r,
  foldM (Analysis.probe P baseDomain) results paths s = (Normal r, s') ->
  exists added,
    r = results ++ added /\
    map (field "url") added = map (fun path => VStr (baseDomain ++ path)) paths.
Proof.
  induction paths as [|path paths IH]; intros results s s' r H.
  - apply returned in H. destruct H as [<- _]. exists []. rewrite app_nil_r.
    split; reflexivity.
  - rewrite foldM_cons in H.
    destruct (Analysis.probe P baseDomain results path s) as [[r1|e|e|] s1] eqn:H1;
      try discriminate H.
    destruct (probe_spec _ _ _ _ _ _ H1) as (entry & -> & Hentry).
    destruct (IH _ _ _ _ H) as (added & -> & Hadded).
    exists (entry :: added). rewrite <- app_assoc. split; [reflexivity|].
    cbn [map]. rewrite Hentry, Hadded. reflexivity.
Qed.

Lemma probe_loop_returns baseDomain paths : forall results (s : state W),
  answered P ->
  exists r s', foldM (Analysis.probe P baseDomain) results paths s = (Normal r, s').
Proof.
  induction paths as [|path paths IH]; intros results s Hall.
  - exists results, s. reflexivity.
  - destruct (probe_returns baseDomain results path s Hall) as (r1 & s1 & H1).
    destruct (IH r1 s1 Hall) as (r & s' & H).
    exists r, s'. rewrite foldM_cons, H1. exact H.
Qed.

Lemma urls_distinct baseDomain paths :
  NoDup paths <-> NoDup (map (fun path => VStr (baseDomain ++ path)) paths).
Proof.
  split.
  - induction 1 as [|path paths Hnot _ IH]; cbn [map]; constructor; [|exact IH].
    intros Hin. apply in_map_iff in Hin. destruct Hin as (q & Hq & Hin).
    injection Hq as Hq. apply app_inv_head in Hq. subst q. exact (Hnot Hin).
  - apply NoDup_map_inv.
Qed.

(** C8 (amended).  [analyze_javascript] collects the matches in a set.
    Whenever it returns, it reports a failure or returns [endpoints]
    that hold no value twice, and that hold every match of every pattern
    in every inline script, and every match in the body of each of the
    first ten script files that could be fetched of every pattern that
    runs on it (a pattern of the caller's that throws ends the scan of
    its file): a string matched in two sources is there exactly once.
    And it does return such [endpoints] once the page has been fetched,
    when every request is answered and no pattern of the caller's throws
    on an inline script.  [probe_api_endpoints] has no such set: when the
    base URL can be parsed, what it returns -- and it returns, when every
    request is answered -- holds one result per path, in the order of the
    paths, so its URLs are pairwise distinct exactly when the paths are,
    as the paths it tries by default are. *)
Theorem analysis_endpoints_unique :
  (forall (args : analyze_javascript.args) (s s' : state W) (out : jsstring),
     let url := analyze_javascript.url args in
     let patterns := Analysis.patterns_of (analyze_javascript.search_patterns args) in
     Analysis.analyzeJavaScriptHandler P args s = (Normal out, s') ->
     (exists msg,
        out = JSON_stringify (VObj [success false;
                                    (lit "error", VStr msg);
                                    (lit "url", VStr url)]))
     \/
     (exists (responseData : jsval) (s1 : state W) (endpoints js_files : list jsval),
        Analysis.makeWebRequest P url (lit "GET") [] s = (Normal responseData, s1) /\
        truthy (field "success" responseData) = true /\
        out = JSON_stringify
                (VObj [success true;
                       (lit "url", VStr url);
                       (lit "total_endpoints_found",
                          VNum (Z.of_nat (List.length endpoints)));
                       (lit "endpoints", VArr endpoints);
                       (lit "js_files_analyzed",
                          VNum (Z.of_nat (List.length js_files)));
                       (lit "js_files", VArr js_files);
                       (lit "patterns_used",
                          VArr (map (Analysis.pattern_text P) patterns))]) /\
        aggregated P patterns (string_of (field "body" responseData)) url s1 endpoints))
  /\
  (answered P ->
   forall (args : analyze_javascript.args) (s s1 : state W) (responseData : jsval),
     let url := analyze_javascript.url args in
     let patterns := Analysis.patterns_of (analyze_javascript.search_patterns args) in
     let htmlContent := string_of (field "body" responseData) in
     Analysis.makeWebRequest P url (lit "GET") [] s = (Normal responseData, s1) ->
     truthy (field "success" responseData) = true ->
     (forall script pattern,
        In script (match_all P RE_inline_script htmlContent) -> In pattern patterns ->
        exists ms, Analysis.matches P pattern (Analysis.content_of P script) = inr ms) ->
     exists (endpoints js_files : list jsval) (s' : state W),
       Analysis.analyzeJavaScriptHandler P args s =
         (Normal (JSON_stringify
                    (VObj [success true;
                           (lit "url", VStr url);
                           (lit "total_endpoints_found",
                              VNum (Z.of_nat (List.length endpoints)));
                           (lit "endpoints", VArr endpoints);
                           (lit "js_files_analyzed",
                              VNum (Z.of_nat (List.length js_files)));
                           (lit "js_files", VArr js_files);
                           (lit "patterns_used",
                              VArr (map (Analysis.pattern_text P) patterns))])),
          s')
       /\ aggregated P patterns htmlContent url s1 endpoints)
  /\
  (forall (args : probe_api_endpoints.args) (s s' : state W) (urlObj : URL)
          (out : jsstring),
     let base_url := probe_api_endpoints.base_url args in
     let paths := default commonPaths (probe_api_endpoints.paths args) in
     let baseDomain := protocol urlObj ++ lit "//" ++ host urlObj in
     url_parse P base_url = inr urlObj ->
     Analysis.probeApiEndpointsHandler P args s = (Normal out, s') ->
     exists (results : list jsval) (accessible likely : Z) (summary : jsval),
       out = JSON_stringify
               (VObj [success true;
                      (lit "base_url", VStr base_url);
                      (lit "total_paths_tested", VNum (Z.of_nat (List.length results)));
                      (lit "accessible_endpoints", VNum accessible);
                      (lit "likely_api_endpoints", VNum likely);
                      (lit "results", VArr results);
                      (lit "summary", summary)])
       /\ map (field "url") results = map (fun path => VStr (baseDomain ++ path)) paths
       /\ (NoDup paths <-> NoDup (map (field "url") results)))
  /\
  (answered P ->
   forall (args : probe_api_endpoints.args) (s : state W) (urlObj : URL),
     url_parse P (probe_api_endpoints.base_url args) = inr urlObj ->
     exists out s', Analysis.probeApiEndpointsHandler P args s = (Normal out, s'))
  /\ NoDup commonPaths.
Proof.
  split; [|split; [|split; [|split]]].
  - intros args s s' out url patterns H.
    unfold Analysis.analyzeJavaScriptHandler in H. fold url patterns in H.
    destruct (makeWebRequest_cases url (lit "GET") [] s) as (s1 & [[r Hr]|[_ Hr]]);
      unfold try_catch in H; unfold bind at 1 in H; rewrite Hr in H; [|discriminate H].
    destruct (truthy (field "success" r)) eqn:Hok; cbn [negb] in H.
    + unfold bind at 1 in H.
      destruct (foldM (Analysis.scan_inline P patterns) [] _ s1)
        as [[found0|e|e|] s2] eqn:Hinline; try discriminate H.
      * unfold bind at 1 in H.
        destruct (foldM (Analysis.analyze_file P patterns) (found0, []) _ s2)
          as [[[found ja]|e|e|] s3] eqn:Hfiles; try discriminate H.
        -- apply returned in H. destruct H as [<- _]. right.
           exists r, s1, found, ja. split; [exact Hr|]. split; [exact Hok|].
           split; [reflexivity|].
           exact (analysis_aggregated _ _ _ _ _ _ _ _ _ Hinline Hfiles).
        -- apply returned in H. destruct H as [<- _]. left. eexists. reflexivity.
      * apply returned in H. destruct H as [<- _]. left. eexists. reflexivity.
    + apply returned in H. destruct H as [<- _]. left. eexists. reflexivity.
  - intros Hall args s s1 responseData url patterns htmlContent Hreq Hok Hpatterns.
    destruct (inline_scripts_return patterns (match_all P RE_inline_script htmlContent)
                s1 Hpatterns []) as [found0 Hinline].
    destruct (files_return patterns (firstn 10 (Analysis.script_files P htmlContent url))
                (found0, []) s1 Hall) as ([found ja] & s' & Hfiles).
    exists found, ja, s'. split.
    + unfold Analysis.analyzeJavaScriptHandler. fold url patterns.
      unfold try_catch, bind. rewrite Hreq. rewrite Hok. cbn [negb].
      fold htmlContent. rewrite Hinline. rewrite Hfiles. reflexivity.
    + exact (analysis_aggregated _ _ _ _ _ _ _ _ _ Hinline Hfiles).
  - intros args s s' urlObj out base_url paths baseDomain Hurl H.
    unfold Analysis.probeApiEndpointsHandler in H. fold base_url in H.
    unfold try_catch in H. unfold bind at 1 in H. unfold lift in H. rewrite Hurl in H.
    unfold ret at 1 in H. fold baseDomain paths in H. unfold bind in H.
    destruct (probe_loop_cases baseDomain paths [] s) as (s1 & [[results Hloop]|Hloop]);
      rewrite Hloop in H; [|discriminate H].
    apply returned in H. destruct H as [<- _].
    destruct (probe_loop _ _ _ _ _ _ Hloop) as (added & -> & Hurls). cbn [app].
    exists added. eexists _, _, _. split; [reflexivity|]. split; [exact Hurls|].
    rewrite Hurls. apply urls_distinct.
  - intros Hall args s urlObj Hurl.
    destruct (probe_loop_returns (protocol urlObj ++ lit "//" ++ host urlObj)
                (default commonPaths (probe_api_endpoints.paths args)) [] s Hall)
      as (results & s' & Hloop).
    eexists _, s'. unfold Analysis.probeApiEndpointsHandler.
    unfold try_catch, bind, lift. rewrite Hurl. unfold ret at 1. rewrite Hloop.
    reflexivity.
  - apply distinct_NoDup. vm_compute. reflexivity.
Qed.
End AnalysisFacts.

(** The first example world answers every request. *)
Lemma demo_answers : answered Demo.node.
Proof.
  intros o body w. unfold Demo.node. cbn [http_request]. unfold Demo.request, Demo.ok.
  cbn [fst].
  repeat match goal with
         | |- context [if ?b then _ else _] => destruct b
         end; discriminate.
Qed.

(** The patterns of [defaultPatterns] are regular expressions of the
    source: none of them throws. *)
Lemma default_patterns_match {W} (P : platform W) content pattern :
  In pattern defaultPatterns -> exists ms, Analysis.matches P pattern content = inr ms.
Proof.
  unfold defaultPatterns. intros H. apply in_map_iff in H. destruct H as (r & <- & _).
  eexists. reflexivity.
Qed.

(** The page of the example world: the call [fetch('/api/users')] is in
    the inline script and in [/lib.js]; what it matches is in [endpoints],
    which holds nothing twice.  The default paths, probed on its host,
    give distinct URLs. *)
Lemma analysis_endpoints_unique_example :
  answered Demo.node /\
  (exists endpoints js_files s',
     Analysis.analyzeJavaScriptHandler Demo.node
       (analyze_javascript.mk Demo.home None) Demo.start =
       (Normal (JSON_stringify
                  (VObj [success true;
                         (lit "url", VStr Demo.home);
                         (lit "total_endpoints_found",
                            VNum (Z.of_nat (List.length endpoints)));
                         (lit "endpoints", VArr endpoints);
                         (lit "js_files_analyzed",
                            VNum (Z.of_nat (List.length js_files)));
                         (lit "js_files", VArr js_files);
                         (lit "patterns_used",
                            VArr (map (Analysis.pattern_text Demo.node)
                                      defaultPatterns))])),
        s')
     /\ NoDup endpoints
     /\ In (VStr Demo.call_users) endpoints
     /\ In (VStr (lit "/api/users")) endpoints)
  /\
  (exists results accessible likely summary s',
     Analysis.probeApiEndpointsHandler Demo.node
       (probe_api_endpoints.mk (lit "http://example.test") None) Demo.start =
       (Normal (JSON_stringify
                  (VObj [success true;
                         (lit "base_url", VStr (lit "http://example.test"));
                         (lit "total_paths_tested",
                            VNum (Z.of_nat (List.length results)));
                         (lit "accessible_endpoints", VNum accessible);
                         (lit "likely_api_endpoints", VNum likely);
                         (lit "results", VArr results);
                         (lit "summary", summary)])),
        s')
     /\ List.length results = 22%nat
     /\ NoDup (map (field "url") results)).
Proof.
  pose proof demo_answers as Hall.
  destruct (analysis_endpoints_unique Demo.node)
    as (_ & Hanalysis & Hprobe & Hprobes & Hpaths).
  split; [exact Hall|]. split.
  - pose (responseData :=
            VObj [success true;
                  (lit "status_code", VNum 200);
                  (lit "headers", VObj [(lit "content-type", VStr (lit "text/html"))]);
                  (lit "body", VStr Demo.page_html)]).
    pose (s1 := snd (Analysis.makeWebRequest Demo.node Demo.home (lit "GET") []
                       Demo.start)).
    destruct (Hanalysis Hall (analyze_javascript.mk Demo.home None) Demo.start s1
                responseData)
      as (endpoints & js_files & s' & Hrun & Hnd & Hinline & Hfiles).
    + vm_compute. reflexivity.
    + reflexivity.
    + intros script pattern _ Hp. apply default_patterns_match, Hp.
    + exists endpoints, js_files, s'. split; [exact Hrun|]. split; [exact Hnd|]. split.
      * apply (Hinline Demo.inline_script (Builtin RE_fetch) [VStr Demo.call_users]).
        -- right. right. left. reflexivity.
        -- right. right. left. reflexivity.
        -- vm_compute. reflexivity.
        -- left. reflexivity.
      * apply (Hfiles (lit "http://example.test/lib.js")
                 (VObj [success true;
                        (lit "status_code", VNum 200);
                        (lit "headers",
                           VObj [(lit "content-type", VStr (lit "text/javascript"))]);
                        (lit "body", VStr Demo.call_users)])
                 [] (Builtin RE_api_path)
                 (map Builtin [RE_api_url; RE_fetch; RE_axios; RE_ajax; RE_xhr;
                               RE_graphql; RE_websocket])
                 [VStr (lit "/api/users")]).
        -- vm_compute. right. left. reflexivity.
        -- reflexivity.
        -- reflexivity.
        -- constructor.
        -- vm_compute. reflexivity.
        -- left. reflexivity.
  - pose (urlObj := mkURL (lit "http:") (lit "example.test") [] (lit "/") []
                          (lit "example.test")).
    destruct (Hprobes Hall (probe_api_endpoints.mk (lit "http://example.test") None)
                Demo.start urlObj eq_refl) as (out & s' & Hrun).
    destruct (Hprobe (probe_api_endpoints.mk (lit "http://example.test") None)
                Demo.start s' urlObj out eq_refl Hrun)
      as (results & accessible & likely & summary & -> & Hurls & Hnd).
    exists results, accessible, likely, summary, s'.
    split; [exact Hrun|]. split.
    + rewrite <- (length_map (field "url") results), Hurls, length_map. reflexivity.
    + apply Hnd. exact Hpaths.
Defined.

(** C8, as stated, fails for [probe_api_endpoints]: given the path [/api]
    twice, it reports the same URL twice. *)
Lemma probe_api_endpoints_duplicates :
  let args :=
    probe_api_endpoints.mk (lit "http://example.test") (Some [lit "/api"; lit "/api"]) in
  let results := [Demo.api_entry; Demo.api_entry] in
  fst (Analysis.probeApiEndpointsHandler Demo.node args Demo.start)
    = Normal (JSON_stringify (Analysis.probe_result (lit "http://example.test") results))
  /\ ~ NoDup (map (field "url") results)
  /\ field "accessible" (field "summary"
       (Analysis.probe_result (lit "http://example.test") results))
     = VArr [VStr (lit "http://example.test/api"); VStr (lit "http://example.test/api")].
Proof.
  cbv zeta. split; [vm_compute; reflexivity|].
  split; [|vm_compute; reflexivity].
  intros H. inversion H as [|x l Hnot _]; subst. apply Hnot. left. reflexivity.
Qed.

(** C7: the loop over the script files goes on after a file could not be
    fetched, but the failure is not recorded: in the example world
    [/app.js] is requested and the request fails, and [js_files] has an
    entry for [/lib.js] only. *)
Theorem analyze_javascript_drops_failed_fetch :
  let run :=
    handler Demo.node (analyze_javascript_ (analyze_javascript.mk Demo.home None))
            Demo.start in
  fst run =
    Normal (JSON_stringify
              (Analysis.analysis_result Demo.node Demo.home defaultPatterns
                 [VStr (lit "/api/users"); VStr Demo.call_users] [Demo.lib_entry]))
  /\ map Demo.path_of (requests (snd run)) = [lit "/"; lit "/app.js"; lit "/lib.js"]
  /\ fst (Analysis.makeWebRequest Demo.node (lit "http://example.test/app.js")
            (lit "GET") [] Demo.start)
     = Normal (VObj [success false; (lit "error", VStr (lit "socket hang up"))])
  /\ ~ In (VStr (lit "http://example.test/app.js")) (map (field "file") [Demo.lib_entry]).
Proof.
  cbv zeta. split; [vm_compute; reflexivity|].
  split; [vm_compute; reflexivity|].
  split; [vm_compute; reflexivity|].
  intros [H|[]]. vm_compute in H. discriminate.
Qed.

(** ** Example plugin *)

Section ExampleFacts.
Context {W : Type}.

(** C3 (amended): for every text [T] without an unpaired surrogate,
    [base64_encode] of [T] reports success with an [encoded] string, and
    [base64_decode] of that string reports success with [decoded] equal
    to [T]. *)
Theorem base64_round_trip_well_formed (T : jsstring) (s : state W) :
  Codec.well_formed T ->
  let E := Codec.base64_encode (Codec.utf8_encode T) in
  Example.base64EncodeHandler (base64_encode.mk T) s =
    (Normal (JSON_stringify
               (VObj [success true;
                      (lit "original", VStr T);
                      (lit "encoded", VStr E);
                      (lit "length", VNum (jslength E))])),
     s)
  /\
  Example.base64DecodeHandler (base64_decode.mk E) s =
    (Normal (JSON_stringify
               (VObj [success true;
                      (lit "encoded", VStr E);
                      (lit "decoded", VStr T);
                      (lit "length", VNum (jslength T))])),
     s).
Proof.
  intros HT E. split; [reflexivity|].
  unfold Example.base64DecodeHandler, try_catch, ret.
  cbn [base64_decode.encoded_text]. unfold E.
  rewrite base64_round_trip by (apply utf8_encode_bytes, HT).
  rewrite utf8_round_trip by exact HT. reflexivity.
Qed.
End ExampleFacts.

(** The text [hello]. *)
Lemma base64_round_trip_hello :
  Codec.well_formed (lit "hello") /\
  Example.base64EncodeHandler (base64_encode.mk (lit "hello")) Demo.start =
    (Normal (JSON_stringify
               (VObj [success true;
                      (lit "original", VStr (lit "hello"));
                      (lit "encoded", VStr (lit "aGVsbG8="));
                      (lit "length", VNum 8)])),
     Demo.start)
  /\
  Example.base64DecodeHandler (base64_decode.mk (lit "aGVsbG8=")) Demo.start =
    (Normal (JSON_stringify
               (VObj [success true;
                      (lit "encoded", VStr (lit "aGVsbG8="));
                      (lit "decoded", VStr (lit "hello"));
                      (lit "length", VNum 5)])),
     Demo.start).
Proof.
  assert (H : Codec.well_formed (lit "hello")).
  { repeat (apply Codec.wf_unit;
            [unfold code_unit; cbn; lia | reflexivity | reflexivity |]).
    apply Codec.wf_nil. }
  split; [exact H|].
  exact (base64_round_trip_well_formed (lit "hello") Demo.start H).
Defined.

(** C3, as stated, fails: a string that is a single high surrogate is
    encoded as the bytes of U+FFFD, and comes back as U+FFFD. *)
Lemma base64_round_trip_lone_surrogate :
  let T := [0xD800] in
  let E := lit "77+9" in
  Forall code_unit T /\
  Example.base64EncodeHandler (base64_encode.mk T) Demo.start =
    (Normal (JSON_stringify
               (VObj [success true;
                      (lit "original", VStr T);
                      (lit "encoded", VStr E);
                      (lit "length", VNum 4)])),
     Demo.start)
  /\
  Example.base64DecodeHandler (base64_decode.mk E) Demo.start =
    (Normal (JSON_stringify
               (VObj [success true;
                      (lit "encoded", VStr E);
                      (lit "decoded", VStr [0xFFFD]);
                      (lit "length", VNum 1)])),
     Demo.start)
  /\ [0xFFFD] <> T.
Proof.
  cbv zeta. split; [repeat constructor; unfold code_unit; lia|].
  split; [reflexivity|]. split; [reflexivity | discriminate].
Qed.

(** ** Every handler answers *)

Section Safe.
Context {S : Type} (U : option error -> Prop).

Lemma total_safe {A} (Q : A -> Prop) (c : M S A) : total U Q c -> safe U Q c.
Proof. intros H s. specialize (H s). destruct (fst (c s)); tauto. Qed.

Lemma total_ret {A} (Q : A -> Prop) (a : A) : Q a -> total U Q (ret (S := S) a).
Proof. intros H s. exact H. Qed.

Lemma total_uncaught {A} (Q : A -> Prop) e :
  U (Some e) -> total U Q (uncaught (S := S) e).
Proof. intros H s. exact H. Qed.

Lemma total_pending {A} (Q : A -> Prop) : U None -> total U Q (pending (S := S)).
Proof. intros H s. exact H. Qed.

Lemma safe_throw {A} (Q : A -> Prop) e : safe U Q (throw (S := S) e).
Proof. intros s. exact I. Qed.

Lemma safe_lift {A} (Q : A -> Prop) (r : error + A) :
  (forall a, r = inr a -> Q a) -> safe U Q (lift (S := S) r).
Proof. intros H s. destruct r; cbn; auto. Qed.

Lemma safe_bind {A B} (Q1 : A -> Prop) (Q : B -> Prop) (c : M S A) (k : A -> M S B) :
  safe U Q1 c -> (forall a, Q1 a -> safe U Q (k a)) -> safe U Q (bind c k).
Proof.
  intros Hc Hk s. unfold bind. specialize (Hc s).
  destruct (c s) as [[a|e|e|] s']; cbn [fst] in *; auto.
  apply Hk, Hc.
Qed.

Lemma total_bind {A B} (Q1 : A -> Prop) (Q : B -> Prop) (c : M S A) (k : A -> M S B) :
  total U Q1 c -> (forall a, Q1 a -> total U Q (k a)) -> total U Q (bind c k).
Proof.
  intros Hc Hk s. unfold bind. specialize (Hc s).
  destruct (c s) as [[a|e|e|] s']; cbn [fst] in *; auto.
  apply Hk, Hc.
Qed.

(** A [try] whose [catch] block does not throw does not throw. *)
Lemma total_try_catch {A} (Q : A -> Prop) (c : M S A) (h : error -> M S A) :
  safe U Q c -> (forall e, total U Q (h e)) -> total U Q (try_catch c h).
Proof.
  intros Hc Hh s. unfold try_catch. specialize (Hc s).
  destruct (c s) as [[a|e|e|] s']; cbn [fst] in *; auto.
  apply Hh.
Qed.

Lemma safe_try_catch {A} (Q : A -> Prop) (c : M S A) (h : error -> M S A) :
  safe U Q c -> (forall e, safe U Q (h e)) -> safe U Q (try_catch c h).
Proof.
  intros Hc Hh s. unfold try_catch. specialize (Hc s).
  destruct (c s) as [[a|e|e|] s']; cbn [fst] in *; auto.
  apply Hh.
Qed.

Lemma safe_weaken {A} (Q Q' : A -> Prop) (c : M S A) :
  safe U Q c -> (forall a, Q a -> Q' a) -> safe U Q' c.
Proof. intros H HQ s. specialize (H s). destruct (fst (c s)); auto. Qed.

Lemma safe_foldM {A B} (f : B -> A -> M S B) (l : list A) :
  (forall acc a, safe U (fun _ => True) (f acc a)) ->
  forall acc, safe U (fun _ => True) (foldM f acc l).
Proof.
  intros Hf. induction l as [|a l IH]; intros acc; cbn [foldM].
  - apply total_safe, total_ret, I.
  - eapply safe_bind; [apply Hf | intros; apply IH].
Qed.


End Safe.

Section SafeWorld.
Context {W : Type} (U : option error -> Prop).

Lemma total_call {A} (f : W -> A * W) : total U (fun _ => True) (call f).
Proof. intros s. unfold call. destruct (f (world s)). exact I. Qed.

Lemma total_ask {A} (f : W -> A) : total U (fun _ => True) (ask f).
Proof. intros s. exact I. Qed.

Lemma total_emit ev : total U (fun _ => True) (emit (W := W) ev).
Proof. intros s. exact I. Qed.

Lemma safe_await {A} (f : W -> (error + A) * W) : safe U (fun _ => True) (await f).
Proof.
  unfold await. eapply safe_bind; [apply total_safe, total_call|].
  intros a _. apply safe_lift. auto.
Qed.
End SafeWorld.

Lemma reply_intro b o : reply (JSON_stringify (VObj (success b :: o))).
Proof.
  split; [apply JSON_stringify_text|].
  exists (success b :: o), b. split; reflexivity.
Qed.

Lemma reply_object_intro b o : reply_object (VObj (success b :: o)).
Proof. exists (success b :: o), b. split; reflexivity. Qed.

Ltac safety_step :=
  first
    [ match goal with
      | |- forall _, _ => intro
      | |- True => exact I
      end
    | apply reply_intro
    | apply reply_object_intro
    | apply total_try_catch
    | apply total_ret
    | apply total_call
    | apply total_ask
    | apply total_emit
    | apply safe_throw
    | apply safe_await
    | apply safe_lift; intros; exact I
    | eapply total_bind with (Q1 := fun _ => True)
    | eapply safe_bind with (Q1 := fun _ => True)
    | match goal with
      | |- total _ _ (if ?b then _ else _) => destruct b
      | |- safe _ _ (if ?b then _ else _) => destruct b
      | |- total _ _ (match ?x with _ => _ end) => destruct x
      | |- safe _ _ (match ?x with _ => _ end) => destruct x
      | |- total _ _ (let '(_, _) := ?x in _) => destruct x
      | |- safe _ _ (let '(_, _) := ?x in _) => destruct x
      | |- safe _ _ (ret _) => apply total_safe
      | |- safe _ _ (call _) => apply total_safe
      | |- safe _ _ (ask _) => apply total_safe
      | |- safe _ _ (emit _) => apply total_safe
      | |- safe _ _ (try_catch _ _) => apply total_safe
      end ].

Ltac safety := repeat safety_step.

Section HandlersAnswer.
Context {W : Type} (P : platform W).

Lemma execAsync_safe U cmd cwd maxBuffer :
  safe U (fun _ => True) (execAsync P cmd cwd maxBuffer).
Proof. unfold execAsync. safety. Qed.











(** The listener of [end] is where a handler can fail to answer. *)
Lemma on_end_total url method follow res :
  total (astray P) reply_object (Web.on_end P url method follow res).
Proof.
  unfold Web.on_end. eapply total_bind with (Q1 := fun _ => True).
  - safety.
  - intros responseData _.
    destruct (_ && _ && _).
    + destruct (url_resolve P _ url) as [e|redirectUrl] eqn:E.
      * apply total_uncaught. eexists _, _. exact E.
      * apply total_ret. eexists _, true. split; reflexivity.
    + safety.
Qed.

Lemma failure_reply e url method : reply_object (Web.failure e url method).
Proof. apply reply_object_intro. Qed.

(** What the platform answers to a request it is sent. *)
Lemma total_request U (options : request_options) (body : option jsstring) :
  total U (fun outcome => outcome = Sent NoEvent -> unanswered P)
        (call (http_request P options body)).
Proof.
  intros s. unfold call.
  destruct (http_request P options body (world s)) as [outcome w] eqn:E.
  cbn [fst]. intros ->. exists options, body, (world s). rewrite E. reflexivity.
Qed.

Lemma webRequest_total args :
  total (astray P) reply_object (Web.webRequest P args).
Proof.
  unfold Web.webRequest.
  eapply total_bind
    with (Q1 := fun started : jsval + request_event =>
                  match started with
                  | inl r => reply_object r
                  | inr NoEvent => unanswered P
                  | inr _ => True
                  end).
  - apply total_try_catch.
    + eapply safe_bind with (Q1 := fun _ => True); [safety|]. intros urlObj _.
      eapply safe_bind with (Q1 := fun _ => True); [safety|]. intros _ _.
      eapply safe_bind; [apply total_safe, total_request|]. intros [e|ev] H.
      * apply safe_throw.
      * apply total_safe, total_ret. destruct ev; try exact I. apply H. reflexivity.
    + intros e. apply total_ret. apply failure_reply.
  - intros [result|[res|e| |]] H.
    + apply total_ret, H.
    + apply on_end_total.
    + apply total_ret, failure_reply.
    + eapply total_bind with (Q1 := fun _ => True); [safety|].
      intros _ _. apply total_ret, failure_reply.
    + apply total_pending. exact H.
Qed.



Lemma webRequest_safe args :
  safe (astray P) (fun _ => True) (Web.webRequest P args).
Proof.
  eapply safe_weaken; [apply total_safe, webRequest_total | auto].
Qed.



Lemma prop_safe U v k : safe (S := state W) U (fun _ => True) (prop v k).
Proof. unfold prop. safety. Qed.

Lemma add_topic_safe U results topic :
  safe U (fun _ => True) (Web.add_topic (W := W) results topic).
Proof.
  unfold Web.add_topic, Web.topic_title. safety; apply prop_safe.
Qed.






End HandlersAnswer.

(** * Further properties *)

(** ** The encoding tools on arbitrary text *)

Section CodecMore.
Import Codec.

Lemma replacement_scalar : scalar replacement.
Proof. unfold scalar, replacement. lia. Qed.

Lemma replacement_unit : utf16_of_cp replacement = [replacement].
Proof. reflexivity. Qed.

Lemma utf8_decode_cp c bs :
  scalar c ->
  utf8_decode (encode_cp c ++ bs) = utf16_of_cp c ++ utf8_decode bs.
Proof.
  intros Hc. unfold utf8_decode. rewrite decode_encode_cp by exact Hc. reflexivity.
Qed.

(** Text of any shape: what comes back is the text made well formed. *)
Lemma utf8_round_trip_any s :
  Forall code_unit s -> utf8_decode (utf8_encode s) = toWellFormed s.
Proof.
  assert (G : forall n s, (List.length s <= n)%nat -> Forall code_unit s ->
                          utf8_decode (utf8_encode s) = toWellFormed s).
  { induction n as [|n IH]; intros [|u rest] Hn Hs; cbn [List.length] in Hn;
      try lia; try reflexivity.
    inversion_clear Hs as [|? ? Hu Hrest].
    cbn [utf8_encode toWellFormed].
    destruct (is_high u) eqn:Hh.
    - destruct rest as [|v rest'].
      + rewrite <- (app_nil_r (encode_cp replacement)).
        rewrite utf8_decode_cp by apply replacement_scalar. reflexivity.
      + destruct (is_low v) eqn:Hl.
        * rewrite utf8_decode_cp by (apply pair_scalar; assumption).
          rewrite utf16_of_pair by assumption. cbn [app]. do 2 f_equal.
          inversion_clear Hrest. apply IH; [cbn [List.length] in Hn; lia | assumption].
        * rewrite utf8_decode_cp by apply replacement_scalar.
          rewrite replacement_unit. cbn [app]. f_equal.
          apply IH; [lia | assumption].
    - destruct (is_low u) eqn:Hl.
      + rewrite utf8_decode_cp by apply replacement_scalar.
        rewrite replacement_unit. cbn [app]. f_equal. apply IH; [lia | assumption].
      + rewrite utf8_decode_cp by (apply unit_scalar; assumption).
        rewrite utf16_of_unit by assumption. cbn [app]. f_equal.
        apply IH; [lia | assumption]. }
  apply (G (List.length s)). lia.
Qed.

Lemma utf8_encode_bytes_any s : Forall code_unit s -> Forall byte (utf8_encode s).
Proof.
  assert (G : forall n s, (List.length s <= n)%nat -> Forall code_unit s ->
                          Forall byte (utf8_encode s)).
  { induction n as [|n IH]; intros [|u rest] Hn Hs; cbn [List.length] in Hn;
      try lia; try constructor.
    inversion_clear Hs as [|? ? Hu Hrest].
    cbn [utf8_encode].
    destruct (is_high u) eqn:Hh.
    - destruct rest as [|v rest'].
      + apply encode_cp_bytes, replacement_scalar.
      + destruct (is_low v) eqn:Hl; apply Forall_app; split.
        * apply encode_cp_bytes, pair_scalar; assumption.
        * inversion_clear Hrest. apply IH; [cbn [List.length] in Hn; lia | assumption].
        * apply encode_cp_bytes, replacement_scalar.
        * apply IH; [lia | assumption].
    - destruct (is_low u) eqn:Hl; apply Forall_app; split.
      + apply encode_cp_bytes, replacement_scalar.
      + apply IH; [lia | assumption].
      + apply encode_cp_bytes, unit_scalar; assumption.
      + apply IH; [lia | assumption]. }
  apply (G (List.length s)). lia.
Qed.

Lemma toWellFormed_length s : List.length (toWellFormed s) = List.length s.
Proof.
  assert (G : forall n s, (List.length s <= n)%nat ->
                          List.length (toWellFormed s) = List.length s).
  { induction n as [|n IH]; intros [|u rest] Hn; cbn [List.length] in Hn;
      try lia; try reflexivity.
    cbn [toWellFormed].
    destruct (is_high u).
    - destruct rest as [|v rest']; [reflexivity|].
      destruct (is_low v); cbn [List.length].
      + rewrite IH by (cbn [List.length] in Hn; lia). reflexivity.
      + rewrite IH by lia. reflexivity.
    - destruct (is_low u); cbn [List.length]; rewrite IH by lia; reflexivity. }
  apply (G (List.length s)). lia.
Qed.

Lemma toWellFormed_fixed s : well_formed s -> toWellFormed s = s.
Proof.
  induction 1 as [|u s Hu Hh Hl Hs IH|h l s Hh Hl Hs IH]; cbn [toWellFormed].
  - reflexivity.
  - rewrite Hh, Hl, IH. reflexivity.
  - rewrite Hh, Hl, IH. reflexivity.
Qed.

Lemma b64char_known v :
  0 <= v < 64 -> 0 <= b64char v < 128 /\ (unbase64 (b64char v) <> None \/ b64char v = pad).
Proof.
  intros H. split.
  - unfold b64char.
    destruct (Z.ltb_spec v 26);
      [|destruct (Z.ltb_spec v 52);
        [|destruct (Z.ltb_spec v 62); [|destruct (Z.eqb_spec v 62)]]]; lia.
  - left. rewrite unbase64_b64char by exact H. discriminate.
Qed.

Lemma base64_encode_length bs :
  jslength (base64_encode bs) = 4 * ((jslength bs + 2) / 3).
Proof.
  unfold jslength. induction bs as [|a|a b|a b c l IH] using list_ind3.
  - reflexivity.
  - reflexivity.
  - reflexivity.
  - cbn [base64_encode]. rewrite length_app. cbn [List.length].
    rewrite !Nat2Z.inj_add, !Nat2Z.inj_succ, IH. cbn [Z.of_nat]. zdm.
Qed.

Ltac cells :=
  repeat (apply Forall_cons;
          [first [apply b64char_known; zdm
                 | split; [unfold pad; lia | right; reflexivity]]|]);
  apply Forall_nil.

Lemma base64_encode_alphabet bs :
  Forall byte bs ->
  Forall (fun c => 0 <= c < 128 /\ (unbase64 c <> None \/ c = pad)) (base64_encode bs).
Proof.
  induction bs as [|a|a b|a b c l IH] using list_ind3; intros H.
  - constructor.
  - inversion_clear H as [|? ? Ha _]. unfold byte in *. cbn [base64_encode].
    cells.
  - inversion_clear H as [|? ? Ha H']. inversion_clear H' as [|? ? Hb _].
    unfold byte in *. cbn [base64_encode].
    cells.
  - inversion_clear H as [|? ? Ha H']. inversion_clear H' as [|? ? Hb H].
    inversion_clear H as [|? ? Hc Hl].
    unfold byte in *. cbn [base64_encode]. apply Forall_app. split; [|apply IH, Hl].
    cells.
Qed.

Lemma sextets_skip a c b :
  skipped c -> sextets (a ++ c :: b) = sextets (a ++ b).
Proof.
  intros (Hc & Hp). induction a as [|x a IH]; cbn [app sextets].
  - rewrite Hc. apply Z.eqb_neq in Hp. rewrite Hp. reflexivity.
  - rewrite IH. reflexivity.
Qed.

Lemma unbase64_url_safe c : unbase64 (url_safe c) = unbase64 c.
Proof.
  unfold url_safe.
  destruct (Z.eqb_spec c 43); [subst; reflexivity|].
  destruct (Z.eqb_spec c 47); [subst; reflexivity|]. reflexivity.
Qed.

Lemma url_safe_pad c : (low_byte (url_safe c) =? pad) = (low_byte c =? pad).
Proof.
  unfold url_safe.
  destruct (Z.eqb_spec c 43); [subst; reflexivity|].
  destruct (Z.eqb_spec c 47); [subst; reflexivity|]. reflexivity.
Qed.

Lemma sextets_url_safe cs : sextets (map url_safe cs) = sextets cs.
Proof.
  induction cs as [|c cs IH]; cbn [map sextets]; [reflexivity|].
  rewrite unbase64_url_safe, url_safe_pad, IH. reflexivity.
Qed.

(** Only the low byte of a character counts. *)
Lemma low_byte_high d k : low_byte (d + 256 * k) = low_byte d.
Proof. unfold low_byte. rewrite Z.mul_comm. apply Z_mod_plus_full. Qed.

Lemma sextets_low_byte a d k b :
  sextets (a ++ (d + 256 * k) :: b) = sextets (a ++ d :: b).
Proof.
  induction a as [|x a IH]; cbn [app sextets].
  - unfold unbase64. rewrite !low_byte_high. reflexivity.
  - rewrite IH. reflexivity.
Qed.
End CodecMore.

Section EncodingTools.
Context {W : Type}.

(** X16: [base64_encode] followed by [base64_decode] gives back the text
    with U+FFFD in the place of every unpaired surrogate, and nothing else
    changed: [decoded] is [T.toWellFormed()], of the length of [T]. *)
Theorem base64_round_trip_any_text (T : jsstring) (s : state W) :
  Forall code_unit T ->
  let E := Codec.base64_encode (Codec.utf8_encode T) in
  Example.base64DecodeHandler (base64_decode.mk E) s =
    (Normal (JSON_stringify
               (VObj [success true;
                      (lit "encoded", VStr E);
                      (lit "decoded", VStr (toWellFormed T));
                      (lit "length", VNum (jslength T))])),
     s)
  /\ (Codec.well_formed T -> toWellFormed T = T).
Proof.
  intros HT E. split; [|apply toWellFormed_fixed].
  unfold Example.base64DecodeHandler, try_catch, ret.
  cbn [base64_decode.encoded_text]. unfold E.
  rewrite base64_round_trip by (apply utf8_encode_bytes_any, HT).
  rewrite utf8_round_trip_any by exact HT.
  unfold jslength. rewrite toWellFormed_length. reflexivity.
Qed.

(** X17: what [base64_encode] returns is base64 text: four characters for
    every three bytes of the UTF-8 form of the text, the last group
    padded, and no character but ASCII characters of the alphabet and
    [=]. *)
Theorem base64_encode_shape (T : jsstring) (s : state W) :
  Forall code_unit T ->
  exists E,
    Example.base64EncodeHandler (base64_encode.mk T) s =
      (Normal (JSON_stringify
                 (VObj [success true;
                        (lit "original", VStr T);
                        (lit "encoded", VStr E);
                        (lit "length",
                           VNum (4 * ((jslength (Codec.utf8_encode T) + 2) / 3)))])),
       s)
    /\ Forall (fun c => 0 <= c < 128 /\ (Codec.unbase64 c <> None \/ c = Codec.pad)) E.
Proof.
  intros HT. exists (Codec.base64_encode (Codec.utf8_encode T)). split.
  - unfold Example.base64EncodeHandler, try_catch, ret.
    cbn [base64_encode.text]. rewrite base64_encode_length. reflexivity.
  - apply base64_encode_alphabet, utf8_encode_bytes_any, HT.
Qed.

(** X18: [base64_decode] never reports a failure, whatever the text.  It
    reads every character by its low byte.  A character whose low byte is
    neither of the alphabet nor [=] is skipped -- a line break in the
    middle of the text changes nothing --, the URL-safe spelling ([-] for
    [+], [_] for [/]) is read as the standard one, and a character above
    U+00FF is read as the character of its low byte. *)
Theorem base64_decode_lenient (a b : jsstring) (c d k : Z) (s : state W) :
  skipped c ->
  let decoded := Codec.utf8_decode (Codec.base64_decode (a ++ b)) in
  let wide := Codec.utf8_decode (Codec.base64_decode (a ++ d :: b)) in
  let answer (text decoded : jsstring) :=
    (Normal (JSON_stringify
               (VObj [success true;
                      (lit "encoded", VStr text);
                      (lit "decoded", VStr decoded);
                      (lit "length", VNum (jslength decoded))])),
     s) in
  Example.base64DecodeHandler (base64_decode.mk (a ++ b)) s = answer (a ++ b) decoded
  /\ Example.base64DecodeHandler (base64_decode.mk (a ++ c :: b)) s
     = answer (a ++ c :: b) decoded
  /\ Example.base64DecodeHandler (base64_decode.mk (map url_safe (a ++ b))) s
     = answer (map url_safe (a ++ b)) decoded
  /\ Example.base64DecodeHandler (base64_decode.mk (a ++ d :: b)) s
     = answer (a ++ d :: b) wide
  /\ Example.base64DecodeHandler (base64_decode.mk (a ++ (d + 256 * k) :: b)) s
     = answer (a ++ (d + 256 * k) :: b) wide.
Proof.
  intros Hc decoded wide answer. unfold answer, decoded, wide.
  unfold Example.base64DecodeHandler, try_catch, ret.
  cbn [base64_decode.encoded_text]. unfold Codec.base64_decode.
  rewrite (sextets_skip a c b Hc), sextets_url_safe, sextets_low_byte. auto 6.
Qed.
End EncodingTools.

(** A high surrogate followed by a letter. *)
Lemma base64_round_trip_any_text_example :
  Forall code_unit [0xD800; 65] /\
  Example.base64DecodeHandler (base64_decode.mk (lit "77+9QQ==")) Demo.start =
    (Normal (JSON_stringify
               (VObj [success true;
                      (lit "encoded", VStr (lit "77+9QQ=="));
                      (lit "decoded", VStr [0xFFFD; 65]);
                      (lit "length", VNum 2)])),
     Demo.start).
Proof.
  assert (H : Forall code_unit [0xD800; 65])
    by (repeat constructor; unfold code_unit; lia).
  split; [exact H|].
  exact (proj1 (base64_round_trip_any_text [0xD800; 65] Demo.start H)).
Defined.

(** The text [hi]. *)
Lemma base64_encode_shape_example :
  Forall code_unit (lit "hi") /\
  exists E,
    Example.base64EncodeHandler (base64_encode.mk (lit "hi")) Demo.start =
      (Normal (JSON_stringify
                 (VObj [success true;
                        (lit "original", VStr (lit "hi"));
                        (lit "encoded", VStr E);
                        (lit "length", VNum 4)])),
       Demo.start)
    /\ Forall (fun c => 0 <= c < 128 /\ (Codec.unbase64 c <> None \/ c = Codec.pad)) E.
Proof.
  assert (H : Forall code_unit (lit "hi"))
    by (repeat constructor; unfold code_unit; cbn; lia).
  split; [exact H|].
  exact (base64_encode_shape (lit "hi") Demo.start H).
Defined.

(** [aGk=] with a line break after the second character decodes as [hi];
    with U+0141, whose low byte is the letter [A], in the same place, it
    decodes as [aGAk=] does. *)
Lemma base64_decode_lenient_example :
  skipped 10 /\
  Example.base64DecodeHandler (base64_decode.mk (lit "aG" ++ 10 :: lit "k=")) Demo.start =
    (Normal (JSON_stringify
               (VObj [success true;
                      (lit "encoded", VStr (lit "aG" ++ 10 :: lit "k="));
                      (lit "decoded", VStr (lit "hi"));
                      (lit "length", VNum 2)])),
     Demo.start) /\
  Example.base64DecodeHandler (base64_decode.mk (lit "aG" ++ 0x141 :: lit "k=")) Demo.start =
    (Normal (JSON_stringify
               (VObj [success true;
                      (lit "encoded", VStr (lit "aG" ++ 0x141 :: lit "k="));
                      (lit "decoded", VStr (lit "h`$"));
                      (lit "length", VNum 3)])),
     Demo.start).
Proof.
  assert (H : skipped 10) by (split; [reflexivity | discriminate]).
  split; [exact H|].
  pose proof (base64_decode_lenient (lit "aG") (lit "k=") 10 65 1 Demo.start H) as T.
  cbv zeta in T. destruct T as (_ & T2 & _ & _ & T5).
  split; [exact T2 | exact T5].
Defined.

(** ** Trimmed output *)

Section CommandOutput.
Context {W : Type} (P : platform W).

(** X15: whatever the command does -- it exits with code 0 or another, it
    cannot be started, it is killed, it writes more than the buffer holds
    -- the handler returns an object whose [stdout] and [stderr] are
    strings without white space at either end; trimming them again changes
    nothing. *)
Theorem execute_command_output_trimmed (args : execute_command.args) (s : state W) :
  exists o out err s',
    Command.executeCommandHandler P args s = (Normal (JSON_stringify (VObj o)), s')
    /\ get_field (lit "stdout") o = VStr out
    /\ get_field (lit "stderr") o = VStr err
    /\ trimmed out /\ trimmed err
    /\ trim out = out /\ trim err = err.
Proof.
  assert (Hopt : forall x, exists t, trim_or_empty x = VStr t /\ trimmed t).
  { intros [x|]; [rewrite trim_or_empty_some|]; eexists; split;
      try reflexivity; [apply trim_trimmed | apply trimmed_nil]. }
  unfold Command.executeCommandHandler, execAsync.
  destruct args as [command [d|]];
    cbn [execute_command.working_directory execute_command.command];
    unfold_monad.
  - destruct (exec P command d _ (world s)) as [[n out err|e] w].
    + destruct (n =? 0).
      * exists [success true; (lit "stdout", VStr (trim out));
                (lit "stderr", VStr (trim err));
                (lit "working_directory", VStr d)], (trim out), (trim err).
        eexists. split; [reflexivity|].
        repeat split; try reflexivity;
          try apply trim_trimmed; apply trimmed_fixed, trim_trimmed.
      * cbn [message code err_stdout err_stderr]. rewrite !trim_or_empty_some.
        eexists _, (trim out), (trim err), _. split; [reflexivity|].
        repeat split; try reflexivity;
          try apply trim_trimmed; apply trimmed_fixed, trim_trimmed.
    + destruct (Hopt (err_stdout e)) as (so & Eo & Ho).
      destruct (Hopt (err_stderr e)) as (se & Ee & He).
      rewrite Eo, Ee. eexists _, so, se, _. split; [reflexivity|].
      repeat split; try reflexivity; try apply Ho; try apply He;
        apply trimmed_fixed; assumption.
  - destruct (exec P command _ _ (world s)) as [[n out err|e] w].
    + destruct (n =? 0).
      * eexists _, (trim out), (trim err), _. split; [reflexivity|].
        repeat split; try reflexivity;
          try apply trim_trimmed; apply trimmed_fixed, trim_trimmed.
      * cbn [message code err_stdout err_stderr]. rewrite !trim_or_empty_some.
        eexists _, (trim out), (trim err), _. split; [reflexivity|].
        repeat split; try reflexivity;
          try apply trim_trimmed; apply trimmed_fixed, trim_trimmed.
    + destruct (Hopt (err_stdout e)) as (so & Eo & Ho).
      destruct (Hopt (err_stderr e)) as (se & Ee & He).
      rewrite Eo, Ee. eexists _, so, se, _. split; [reflexivity|].
      repeat split; try reflexivity; try apply Ho; try apply He;
        apply trimmed_fixed; assumption.
Qed.
End CommandOutput.

(** ** The requests a handler sends *)

Section Sends.
Context {W : Type}.

Lemma sends_weaken {A} (n m : nat) (c : JS W A) :
  sends n c -> (n <= m)%nat -> sends m c.
Proof.
  intros H Hnm s. destruct (H s) as (new & E & L). exists new. split; [exact E | lia].
Qed.

Lemma sends_ret {A} (a : A) : sends 0 (ret (S := state W) a).
Proof. intros s. exists []. rewrite app_nil_r. auto. Qed.

Lemma sends_throw {A} e : sends 0 (throw (S := state W) (A := A) e).
Proof. intros s. exists []. rewrite app_nil_r. auto. Qed.

Lemma sends_uncaught {A} e : sends 0 (uncaught (S := state W) (A := A) e).
Proof. intros s. exists []. rewrite app_nil_r. auto. Qed.

Lemma sends_pending {A} : sends 0 (pending (S := state W) (A := A)).
Proof. intros s. exists []. rewrite app_nil_r. auto. Qed.

Lemma sends_lift {A} (r : error + A) : sends 0 (lift (S := state W) r).
Proof. destruct r; [apply sends_throw | apply sends_ret]. Qed.

Lemma sends_call {A} (f : W -> A * W) : sends 0 (call f).
Proof.
  intros s. exists []. unfold call. destruct (f (world s)).
  rewrite app_nil_r. auto.
Qed.

Lemma sends_ask {A} (f : W -> A) : sends 0 (ask f).
Proof. intros s. exists []. rewrite app_nil_r. auto. Qed.

Lemma sends_emit ev : sends (if is_request ev then 1 else 0) (emit (W := W) ev).
Proof.
  intros s. unfold emit, requests. cbn [snd trace]. rewrite filter_app. cbn [filter].
  destruct (is_request ev); eexists; split; try reflexivity; cbn; lia.
Qed.

Lemma sends_console msg : sends 0 (emit (W := W) (EvConsole msg)).
Proof. apply (sends_emit (EvConsole msg)). Qed.

Lemma sends_destroy : sends 0 (emit (W := W) EvDestroy).
Proof. apply (sends_emit EvDestroy). Qed.

Lemma sends_bind {A B} (n m : nat) (c : JS W A) (k : A -> JS W B) :
  sends n c -> (forall a, sends m (k a)) -> sends (n + m) (bind c k).
Proof.
  intros Hc Hk s. destruct (Hc s) as (new & E & L). unfold bind.
  destruct (c s) as [[a|e|e|] s1]; cbn [snd] in *.
  - destruct (Hk a s1) as (new' & E' & L'). exists (new ++ new').
    rewrite E', E, app_assoc, length_app. split; [reflexivity | lia].
  - exists new. split; [exact E | lia].
  - exists new. split; [exact E | lia].
  - exists new. split; [exact E | lia].
Qed.

Lemma sends_try_catch {A} (n m : nat) (c : JS W A) (h : error -> JS W A) :
  sends n c -> (forall e, sends m (h e)) -> sends (n + m) (try_catch c h).
Proof.
  intros Hc Hh s. destruct (Hc s) as (new & E & L). unfold try_catch.
  destruct (c s) as [[a|e|e|] s1]; cbn [snd] in *.
  - exists new. split; [exact E | lia].
  - destruct (Hh e s1) as (new' & E' & L'). exists (new ++ new').
    rewrite E', E, app_assoc, length_app. split; [reflexivity | lia].
  - exists new. split; [exact E | lia].
  - exists new. split; [exact E | lia].
Qed.

Lemma sends_await {A} (f : W -> (error + A) * W) : sends 0 (await f).
Proof. apply (sends_bind 0 0); [apply sends_call | intros; apply sends_lift]. Qed.

(** A loop sends what its turns send. *)
Lemma sends_foldM {A B} (n : nat) (f : B -> A -> JS W B) (l : list A) :
  (forall acc a, sends n (f acc a)) ->
  forall acc, sends (List.length l * n) (foldM f acc l).
Proof.
  intros Hf. induction l as [|a l IH]; intros acc; cbn [foldM List.length].
  - apply sends_ret.
  - apply (sends_bind n (List.length l * n)); [apply Hf | intros; apply IH].
Qed.

Lemma sends_mapM {A B} (f : A -> JS W B) (l : list A) :
  (forall a, sends 0 (f a)) -> sends 0 (mapM f l).
Proof.
  intros Hf. induction l as [|a l IH]; cbn [mapM].
  - apply sends_ret.
  - apply (sends_bind 0 0); [apply Hf | intros].
    apply (sends_bind 0 0); [apply IH | intros; apply sends_ret].
Qed.

Lemma sends_quiet_loop {A B} (f : B -> A -> JS W B) (l : list A) acc :
  (forall acc a, sends 0 (f acc a)) -> sends 0 (foldM f acc l).
Proof.
  intros Hf. eapply sends_weaken; [apply sends_foldM, Hf | lia].
Qed.
End Sends.

(** Settles [sends 0 c] for a computation that sends nothing. *)
Ltac quiet_step :=
  first
    [ match goal with |- forall _, _ => intro end
    | apply sends_ret
    | apply sends_throw
    | apply sends_uncaught
    | apply sends_pending
    | apply sends_lift
    | apply sends_call
    | apply sends_ask
    | apply sends_await
    | apply sends_console
    | apply sends_destroy
    | apply (sends_bind 0 0)
    | apply (sends_try_catch 0 0)
    | apply sends_quiet_loop
    | apply sends_mapM
    | match goal with
      | |- sends _ (if ?b then _ else _) => destruct b
      | |- sends _ (match ?x with _ => _ end) => destruct x
      | |- sends _ (let '(_, _) := ?x in _) => destruct x
      end
    | progress cbv zeta ].

Ltac quiet := repeat quiet_step.

Section Budget.
Context {W : Type} (P : platform W).

Lemma execAsync_quiet cmd cwd maxBuffer : sends 0 (execAsync P cmd cwd maxBuffer).
Proof. unfold execAsync. quiet. Qed.

Lemma stat_quiet p : sends 0 (Filesystem.stat P p).
Proof. unfold Filesystem.stat. quiet. Qed.

Lemma Promise_all_quiet {A} (l : list (nat * (error + A))) :
  sends (W := W) 0 (Promise_all l).
Proof. unfold Promise_all. quiet. Qed.

Lemma prop_quiet v k : sends (W := W) 0 (prop v k).
Proof. unfold prop. quiet. Qed.

Lemma on_end_quiet url method follow res :
  sends 0 (Web.on_end P url method follow res).
Proof. unfold Web.on_end. quiet. Qed.

(** [webRequestHandler] sends the request it is asked for and no other:
    a redirect is reported, not followed. *)
Lemma webRequest_sends args : sends 1 (Web.webRequest P args).
Proof.
  unfold Web.webRequest. apply (sends_bind 1 0).
  - apply (sends_try_catch 1 0); [|quiet].
    apply (sends_bind 0 1); [quiet|]. intros urlObj.
    apply (sends_bind 1 0); [apply (sends_emit (EvRequest _ _))|]. quiet.
  - intros [result|[res|e| |]];
      [quiet | apply on_end_quiet | quiet | quiet | apply sends_pending].
Qed.

Lemma browseWithPuppeteer_quiet url l f sc ua :
  sends 0 (Web.browseWithPuppeteer P url l f sc ua).
Proof. unfold Web.browseWithPuppeteer. quiet. Qed.

Lemma browseStatic_sends url l f sc ua :
  sends 1 (Web.browseStatic P url l f sc ua).
Proof.
  unfold Web.browseStatic. apply (sends_bind 1 0); [apply webRequest_sends | quiet].
Qed.

Lemma add_topic_quiet results topic : sends 0 (Web.add_topic (W := W) results topic).
Proof. unfold Web.add_topic, Web.topic_title. quiet; apply prop_quiet. Qed.

Lemma webSearchHandler_sends args : sends 1 (Web.webSearchHandler P args).
Proof.
  unfold Web.webSearchHandler. apply (sends_try_catch 1 0); [|quiet].
  apply (sends_bind 0 1); [quiet|]. intros encoded.
  apply (sends_bind 1 0); [apply webRequest_sends|]. intros responseData.
  destruct (negb _); [quiet|].
  apply (sends_bind 0 0); [quiet|]. intros searchData.
  apply (sends_bind 0 0); [apply prop_quiet|]. intros abstract.
  apply (sends_bind 0 0).
  { destruct (truthy abstract); quiet; apply prop_quiet. }
  intros results.
  apply (sends_bind 0 0); [apply prop_quiet|]. intros relatedTopics.
  apply (sends_bind 0 0).
  { destruct (truthy relatedTopics); [|quiet].
    apply (sends_bind 0 0); [unfold Web.related_topics; quiet|].
    intros topics. apply sends_quiet_loop. intros. apply add_topic_quiet. }
  intros results'.
  apply (sends_bind 0 0); [|quiet].
  destruct (_ <? 3); [|quiet].
  apply (sends_try_catch 0 0); [|quiet].
  apply (sends_bind 0 0); [quiet|]. intros encoded'.
  apply (sends_bind 0 0); [quiet|]. intros cwd.
  apply (sends_bind 0 0); [apply execAsync_quiet | quiet].
Qed.

Lemma makeWebRequest_sends url method headers :
  sends 1 (Analysis.makeWebRequest P url method headers).
Proof.
  unfold Analysis.makeWebRequest. apply (sends_bind 1 0).
  - apply (sends_try_catch 1 0); [|quiet].
    apply (sends_bind 0 1); [quiet|]. intros urlObj.
    apply (sends_bind 1 0); [apply (sends_emit (EvRequest _ _))|]. quiet.
  - intros [result|[res|e| |]]; quiet.
Qed.

Lemma analyze_file_sends patterns acc jsFile :
  sends 1 (Analysis.analyze_file P patterns acc jsFile).
Proof.
  unfold Analysis.analyze_file. destruct acc as [found jsAnalysis].
  apply (sends_try_catch 1 0); [|quiet].
  apply (sends_bind 1 0); [apply makeWebRequest_sends|]. intros jsData.
  destruct (truthy _); [|quiet].
  destruct (Analysis.scan_file _ _ _ _ _) as [[found' fe] [e|]]; quiet.
Qed.

Lemma scan_inline_quiet patterns found script :
  sends 0 (Analysis.scan_inline P patterns found script).
Proof. unfold Analysis.scan_inline. quiet. Qed.

Lemma analyzeJavaScriptHandler_sends args :
  sends 11 (Analysis.analyzeJavaScriptHandler P args).
Proof.
  unfold Analysis.analyzeJavaScriptHandler. apply (sends_try_catch 11 0); [|quiet].
  apply (sends_bind 1 10); [apply makeWebRequest_sends|]. intros responseData.
  destruct (negb _); [eapply sends_weaken; [quiet | lia]|].
  apply (sends_bind 0 10).
  { apply sends_quiet_loop. intros. apply scan_inline_quiet. }
  intros found. apply (sends_bind 10 0).
  - eapply sends_weaken; [apply sends_foldM; intros; apply analyze_file_sends|].
    rewrite length_firstn. lia.
  - intros [found' jsAnalysis]. quiet.
Qed.

Lemma likely_api_quiet r : sends 0 (Analysis.likely_api (W := W) r).
Proof. unfold Analysis.likely_api, opt_includes. quiet. Qed.

Lemma probe_sends baseDomain results path :
  sends 1 (Analysis.probe P baseDomain results path).
Proof.
  unfold Analysis.probe. apply (sends_try_catch 1 0); [|quiet].
  apply (sends_bind 1 0); [apply makeWebRequest_sends|]. intros r.
  apply (sends_bind 0 0); [apply likely_api_quiet | quiet].
Qed.

Lemma probeApiEndpointsHandler_sends args :
  sends (List.length (default commonPaths (probe_api_endpoints.paths args)))
        (Analysis.probeApiEndpointsHandler P args).
Proof.
  unfold Analysis.probeApiEndpointsHandler.
  set (paths := default commonPaths (probe_api_endpoints.paths args)).
  eapply sends_weaken; [|apply Nat.eq_le_incl, Nat.add_0_r].
  apply (sends_try_catch (List.length paths) 0); [|quiet].
  apply (sends_bind 0 (List.length paths)); [quiet|]. intros urlObj.
  eapply sends_weaken; [|apply Nat.eq_le_incl, Nat.add_0_r].
  apply (sends_bind (List.length paths) 0); [|quiet].
  eapply sends_weaken; [|apply Nat.eq_le_incl, Nat.mul_1_r].
  apply sends_foldM. intros. apply probe_sends.
Qed.

(** X2: no handler sends more requests through [http] or [https] than
    its budget: the command, file and encoding tools send none;
    [web_request], [browse_website] (on its static path) and [web_search]
    send at most one; [analyze_javascript] at most eleven, the page and
    ten scripts; [probe_api_endpoints] at most one for each path.  This
    holds however the handler ends, and the requests sent before stay in
    the trace of the run. *)
Theorem request_budget (i : invocation) : sends (budget i) (handler P i).
Proof.
  destruct i as [args|args|args|args| |args|args|args|args|args|args|args|args];
    cbn [handler budget].
  - unfold Command.executeCommandHandler. quiet.
  - unfold Filesystem.readFileHandler. quiet.
  - unfold Filesystem.writeFileHandler. quiet.
  - unfold Filesystem.listDirectoryHandler. quiet. apply Promise_all_quiet.
  - unfold Filesystem.getCwdHandler. quiet.
  - unfold Web.webRequestHandler.
    apply (sends_bind 1 0); [apply webRequest_sends | quiet].
  - unfold Web.browseWebsiteHandler.
    apply (sends_try_catch 0 1); [apply browseWithPuppeteer_quiet|].
    intros e. apply (sends_bind 0 1); [quiet | intros; apply browseStatic_sends].
  - apply webSearchHandler_sends.
  - apply analyzeJavaScriptHandler_sends.
  - apply probeApiEndpointsHandler_sends.
  - unfold Example.base64EncodeHandler. quiet.
  - unfold Example.base64DecodeHandler. quiet.
  - unfold Example.hashTextHandler. quiet.
Qed.
End Budget.

(** ** Objects *)

Lemma jsstring_eqb_refl k : jsstring_eqb k k = true.
Proof. apply jsstring_eqb_eq. reflexivity. Qed.

Lemma jsstring_eqb_neq k k' : k <> k' -> jsstring_eqb k k' = false.
Proof.
  intros H. destruct (jsstring_eqb k k') eqn:E; [|reflexivity].
  apply jsstring_eqb_eq in E. contradiction.
Qed.

Lemma get_set_same k v o : get_field k (set_field k v o) = v.
Proof.
  induction o as [|[k' v'] o IH]; cbn [set_field get_field].
  - rewrite jsstring_eqb_refl. reflexivity.
  - destruct (jsstring_eqb k k') eqn:E; cbn [get_field]; rewrite ?E.
    + rewrite jsstring_eqb_refl. reflexivity.
    + exact IH.
Qed.

Lemma get_set_other k k' v o :
  k <> k' -> get_field k (set_field k' v o) = get_field k o.
Proof.
  intros Hk. induction o as [|[k0 v0] o IH]; cbn [set_field get_field].
  - rewrite (jsstring_eqb_neq _ _ Hk). reflexivity.
  - destruct (jsstring_eqb k' k0) eqn:E; cbn [get_field].
    + apply jsstring_eqb_eq in E. subst k0.
      rewrite (jsstring_eqb_neq _ _ Hk). reflexivity.
    + rewrite IH. reflexivity.
Qed.

Lemma get_absent k o : ~ In k (keys o) -> get_field k o = VUndef.
Proof.
  induction o as [|[k' v'] o IH]; cbn [keys map fst get_field]; intros H.
  - reflexivity.
  - rewrite jsstring_eqb_neq by (intros ->; apply H; left; reflexivity).
    apply IH. intros Hin. apply H. right. exact Hin.
Qed.

(** [{...a, ...b}]: a property of [b] has the value [b] gives it, any
    other property the value it has in [a]. *)
Lemma get_spread k b : forall a,
  NoDup (keys b) ->
  (In k (keys b) -> get_field k (spread a b) = get_field k b) /\
  (~ In k (keys b) -> get_field k (spread a b) = get_field k a).
Proof.
  unfold spread.
  induction b as [|[k' v] b IH]; intros a Hnd; cbn [keys map fst] in *.
  - split; [intros [] | reflexivity].
  - inversion_clear Hnd as [|? ? Hnot Hnd'].
    cbn [fold_left fst snd get_field].
    destruct (IH (set_field k' v a) Hnd') as [IH1 IH2].
    destruct (jsstring_eqb k k') eqn:E.
    + apply jsstring_eqb_eq in E. subst k'. split.
      * intros _. rewrite (IH2 Hnot). apply get_set_same.
      * intros H. exfalso. apply H. left. reflexivity.
    + assert (Hk : k <> k') by (intros ->; rewrite jsstring_eqb_refl in E; discriminate).
      split.
      * intros [->|Hin]; [contradiction Hk; reflexivity | apply IH1, Hin].
      * intros Hnotin. rewrite IH2 by (intros Hin; apply Hnotin; right; exact Hin).
        apply get_set_other, Hk.
Qed.

(** ** Web plugin: the headers of a request *)

Section RequestHeaders.

Lemma request_headers_other method headers data k :
  k <> lit "Content-Length" -> k <> lit "Content-Type" ->
  get_field k (Web.request_headers method headers data)
    = get_field k (spread Web.browserHeaders headers).
Proof.
  intros Hl Ht. unfold Web.request_headers.
  destruct data as [d|]; [|reflexivity].
  destruct (_ || _); [|reflexivity].
  destruct (truthy _); rewrite ?(get_set_other _ _ _ _ Ht);
    apply get_set_other, Hl.
Qed.

(** X4: the headers that [web_request] sends are the six browser-like
    defaults with the caller's headers laid over them, name by name and
    with the names compared exactly: a header the caller gives is sent
    with the caller's value, a default the caller does not name is sent
    as it is.  ([Content-Length] and [Content-Type] follow the body.) *)
Theorem web_request_headers_merge (args : web_request.args) (urlObj : URL)
        (k : jsstring) :
  let given := default [] (web_request.headers args) in
  let sent := o_headers (Web.request_of args urlObj) in
  NoDup (keys given) ->
  k <> lit "Content-Length" -> k <> lit "Content-Type" ->
  (In k (keys given) -> get_field k sent = get_field k given) /\
  (~ In k (keys given) -> get_field k sent = get_field k Web.browserHeaders).
Proof.
  intros given sent Hnd Hl Ht. unfold sent, Web.request_of, Web.options.
  cbn [o_headers]. fold given.
  rewrite (request_headers_other _ _ _ _ Hl Ht).
  apply get_spread, Hnd.
Qed.

(** X5: a body is described only when the method is [POST] or [PUT]:
    then [Content-Length] is the number of bytes of the body in UTF-8,
    whatever the caller wrote there, and [Content-Type] is the caller's,
    or the one of a form when the caller gives none.  With any other
    method the two headers are the caller's own, if any -- and the body
    is written to the request all the same. *)
Theorem web_request_body_headers (args : web_request.args) (urlObj : URL)
        (body : jsstring) :
  let given := default [] (web_request.headers args) in
  let method := Web.method_of args in
  let sent := o_headers (Web.request_of args urlObj) in
  NoDup (keys given) ->
  web_request.data args = Some body -> body <> [] ->
  Web.body_sent args = Some body
  /\ (method = lit "POST" \/ method = lit "PUT" ->
      get_field (lit "Content-Length") sent
        = VNum (jslength (Codec.utf8_encode body))
      /\ get_field (lit "Content-Type") sent
         = if truthy (get_field (lit "Content-Type") given)
           then get_field (lit "Content-Type") given
           else VStr (lit "application/x-www-form-urlencoded"))
  /\ (method <> lit "POST" -> method <> lit "PUT" ->
      get_field (lit "Content-Length") sent = get_field (lit "Content-Length") given
      /\ get_field (lit "Content-Type") sent = get_field (lit "Content-Type") given).
Proof.
  intros given method sent Hnd Hdata Hbody.
  assert (Hsent : Web.body_sent args = Some body).
  { unfold Web.body_sent. rewrite Hdata. destruct body; [contradiction|reflexivity]. }
  assert (Hfrom : forall k, ~ In k (keys Web.browserHeaders) ->
                            get_field k (spread Web.browserHeaders given)
                            = get_field k given).
  { intros k Hk. destruct (get_spread k given Web.browserHeaders Hnd) as [H1 H2].
    destruct (in_dec jsstring_eq_dec k (keys given)) as [Hin|Hnot].
    - apply H1, Hin.
    - rewrite (H2 Hnot), (get_absent _ _ Hk), (get_absent _ _ Hnot). reflexivity. }
  assert (Hlen : ~ In (lit "Content-Length") (keys Web.browserHeaders)).
  { cbn. intros H. repeat destruct H as [H|H]; try discriminate H; exact H. }
  assert (Htype : ~ In (lit "Content-Type") (keys Web.browserHeaders)).
  { cbn. intros H. repeat destruct H as [H|H]; try discriminate H; exact H. }
  split; [exact Hsent|].
  unfold sent, Web.request_of, Web.options. cbn [o_headers].
  fold given. fold (Web.method_of args). fold method.
  fold (Web.body_sent args). rewrite Hsent. unfold Web.request_headers.
  split.
  - intros Hm.
    replace (jsstring_eqb method (lit "POST") || jsstring_eqb method (lit "PUT"))
      with true
      by (destruct Hm as [-> | ->]; reflexivity).
    assert (Hct : get_field (lit "Content-Type")
                    (set_field (lit "Content-Length")
                       (VNum (jslength (Codec.utf8_encode body)))
                       (spread Web.browserHeaders given))
                  = get_field (lit "Content-Type") given).
    { rewrite get_set_other by discriminate. apply Hfrom, Htype. }
    rewrite Hct.
    destruct (truthy (get_field (lit "Content-Type") given)); split.
    + apply get_set_same.
    + exact Hct.
    + rewrite get_set_other by discriminate. apply get_set_same.
    + apply get_set_same.
  - intros Hpost Hput.
    rewrite (jsstring_eqb_neq _ _ Hpost), (jsstring_eqb_neq _ _ Hput). cbn [orb].
    split; apply Hfrom; assumption.
Qed.
End RequestHeaders.

(** A [GET] with an [Accept] header of the caller's. *)
Lemma web_request_headers_merge_example :
  let args :=
    web_request.mk Demo.home None (Some [(lit "Accept", VStr (lit "*/*"))]) None None in
  NoDup (keys [(lit "Accept", VStr (lit "*/*"))])
  /\ get_field (lit "Accept") (o_headers (Web.request_of args Host.home_url))
     = VStr (lit "*/*")
  /\ get_field (lit "Connection") (o_headers (Web.request_of args Host.home_url))
     = VStr (lit "keep-alive").
Proof.
  intros args.
  assert (Hnd : NoDup (keys [(lit "Accept", VStr (lit "*/*"))])).
  { repeat constructor. intros []. }
  split; [exact Hnd|]. split.
  - refine (proj1 (web_request_headers_merge args Host.home_url (lit "Accept")
                     Hnd _ _) _).
    + discriminate.
    + discriminate.
    + left. reflexivity.
  - refine (proj2 (web_request_headers_merge args Host.home_url (lit "Connection")
                     Hnd _ _) _).
    + discriminate.
    + discriminate.
    + intros [H|[]]. discriminate H.
Defined.

(** A [DELETE] with a body: the body is written, and no header tells its
    length. *)
Lemma web_request_body_headers_example :
  let args :=
    web_request.mk Demo.home (Some (lit "DELETE")) None (Some (lit "id=7")) None in
  Web.body_sent args = Some (lit "id=7")
  /\ get_field (lit "Content-Length") (o_headers (Web.request_of args Host.home_url))
     = VUndef.
Proof.
  intros args.
  destruct (web_request_body_headers args Host.home_url (lit "id=7")) as (H1 & _ & H3).
  - constructor.
  - reflexivity.
  - discriminate.
  - split; [exact H1|]. apply H3; discriminate.
Defined.

(** ** Web plugin: the browser and the body of a response *)

Section BrowserFacts.
Context {W : Type} (P : platform W).

(** X3: once the browser has been launched it is closed on every path,
    and the page is never left open.  When the page loads and the browser
    closes, the result is returned.  When the page cannot be loaded the
    browser is closed and the error of the page is thrown -- or the error
    of [close], when closing fails as well.  When closing fails after a
    page that did load, [close] is called a second time, and the error
    thrown is the first one unless the second call fails too.  Nothing is
    written to the console and no request is sent. *)
Theorem browser_always_closed (url : jsstring) (l f sc : bool)
        (ua : option jsstring) (s : state W) (w1 : W) :
  browser_launch P (world s) = (inr tt, w1) ->
  let loaded := browser_load P url (nonempty ua) w1 in
  let closed := browser_close P (snd loaded) in
  let again := browser_close P (snd closed) in
  let run := Web.browseWithPuppeteer P url l f sc ua s in
  match fst loaded, fst closed with
  | inr _, inr _ => (exists out, fst run = Normal out) /\ world (snd run) = snd closed
  | inr _, inl e =>
      fst run = Throw (match fst again with inl e' => e' | inr _ => e end)
      /\ world (snd run) = snd again
  | inl e, inr _ => fst run = Throw e /\ world (snd run) = snd closed
  | inl _, inl e' => fst run = Throw e' /\ world (snd run) = snd closed
  end
  /\ trace (snd run) = trace s.
Proof.
  intros Hlaunch loaded closed again run.
  unfold run, again, closed, loaded, Web.browseWithPuppeteer. unfold_monad.
  rewrite Hlaunch. cbv beta iota zeta. cbn [world trace].
  destruct (browser_load P url (nonempty ua) w1) as [[e|page] w2];
    cbv beta iota zeta; cbn [fst snd world trace].
  - destruct (browser_close P w2) as [[e'|[]] w3]; cbn [fst snd];
      repeat split; reflexivity.
  - destruct (browser_close P w2) as [[e|[]] w3];
      cbv beta iota zeta; cbn [fst snd world trace].
    + destruct (browser_close P w3) as [[e'|[]] w4]; cbn [fst snd];
        repeat split; reflexivity.
    + split; [split; [eexists; reflexivity | reflexivity] | reflexivity].
Qed.

Lemma not_redirect n :
  ~ In n Web.redirect_codes -> existsb (Z.eqb n) Web.redirect_codes = false.
Proof.
  intros H. destruct (existsb (Z.eqb n) Web.redirect_codes) eqn:E; [|reflexivity].
  apply existsb_exists in E. destruct E as (m & Hm & E).
  apply Z.eqb_eq in E. subst m. contradiction.
Qed.

(** X6: a body that cannot be decompressed does not fail the request.
    When the response says [Content-Encoding: gzip] (or [deflate]) and
    its body is not gzip (deflate) data, the handler writes
    [Decompression failed: ...] to the console and returns
    [success:true] with the bytes as they came, read as UTF-8. *)
Theorem web_request_wrong_encoding (args : web_request.args) (s : state W)
        (urlObj : URL) (res : response) (w' : W) (e : error) :
  let raw := List.concat (res_chunks res) in
  let encoding := get_field (lit "content-encoding") (res_headers res) in
  url_parse P (web_request.url args) = inr urlObj ->
  http_request P (Web.request_of args urlObj) (Web.body_sent args) (world s)
    = (Sent (OnEnd res), w') ->
  (encoding = VStr (lit "gzip") /\ gunzipSync P raw = inl e) \/
  (encoding = VStr (lit "deflate") /\ inflateSync P raw = inl e) ->
  ~ In (statusCode res) Web.redirect_codes ->
  Web.webRequestHandler P args s =
    (Normal (JSON_stringify
               (VObj [success true;
                      (lit "status_code", VNum (statusCode res));
                      (lit "status_message", VStr (statusMessage res));
                      (lit "headers", VObj (res_headers res));
                      (lit "body", VStr (Codec.utf8_decode raw));
                      (lit "url", VStr (web_request.url args));
                      (lit "method", VStr (Web.method_of args));
                      (lit "redirected", VBool false)])),
     mkState w'
       (trace s ++ [EvRequest (Web.request_of args urlObj) (Web.body_sent args);
                    EvConsole (lit "Decompression failed: " ++ message e)])).
Proof.
  intros raw encoding Hurl Hreq Henc Hcode.
  unfold Web.webRequestHandler. unfold bind at 1.
  rewrite (webRequest_sent P args s urlObj _ w' Hurl Hreq).
  unfold Web.on_end. fold raw encoding.
  rewrite (not_redirect _ Hcode), andb_false_r. cbn [andb].
  destruct Henc as [[-> Hz]|[-> Hz]]; cbn [jsval_eqb]; unfold_monad.
  - replace (jsstring_eqb (lit "gzip") (lit "gzip")) with true by reflexivity.
    rewrite Hz. cbv beta iota zeta. cbn [world trace].
    rewrite <- app_assoc. reflexivity.
  - replace (jsstring_eqb (lit "deflate") (lit "gzip")) with false by reflexivity.
    replace (jsstring_eqb (lit "deflate") (lit "deflate")) with true by reflexivity.
    rewrite Hz. cbv beta iota zeta. cbn [world trace].
    rewrite <- app_assoc. reflexivity.
Qed.
End BrowserFacts.

(** The host's browser opens the home page and closes. *)
Lemma browser_always_closed_example :
  browser_launch Host.node [] = (inr tt, []) /\
  (exists out,
     fst (Web.browseWithPuppeteer Host.node Demo.home false false false None Host.fresh)
       = Normal out) /\
  world (snd (Web.browseWithPuppeteer Host.node Demo.home false false false None
                Host.fresh)) = [].
Proof.
  split; [reflexivity|].
  exact (proj1 (browser_always_closed Host.node Demo.home false false false None
                  Host.fresh [] eq_refl)).
Defined.

(** The host's server labels the plain text [plain] as gzip. *)
Lemma web_request_wrong_encoding_example :
  let args := Demo.get (lit "http://example.test/packed") in
  exists urlObj,
    url_parse Host.node (web_request.url args) = inr urlObj /\
    fst (Web.webRequestHandler Host.node args Host.fresh) =
      Normal (JSON_stringify
                (VObj [success true;
                       (lit "status_code", VNum 200);
                       (lit "status_message", VStr (lit "OK"));
                       (lit "headers",
                          VObj [(lit "content-encoding", VStr (lit "gzip"))]);
                       (lit "body", VStr (lit "plain"));
                       (lit "url", VStr (lit "http://example.test/packed"));
                       (lit "method", VStr (lit "GET"));
                       (lit "redirected", VBool false)])).
Proof.
  intros args.
  destruct (url_parse Host.node (web_request.url args)) as [e|urlObj] eqn:Hurl;
    [vm_compute in Hurl; discriminate|].
  exists urlObj. split; [reflexivity|].
  assert (Hreq : http_request Host.node (Web.request_of args urlObj)
                   (Web.body_sent args) (world Host.fresh)
                 = (Sent (OnEnd Host.packed), [])).
  { vm_compute in Hurl. injection Hurl as <-. reflexivity. }
  rewrite (web_request_wrong_encoding Host.node args Host.fresh urlObj Host.packed []
             (Error (lit "incorrect header check")) Hurl Hreq).
  - reflexivity.
  - left. split; reflexivity.
  - cbn. intros H. repeat destruct H as [H|H]; try discriminate H; exact H.
Defined.

(** ** Web plugin: what [web_search] and [browse_website] return *)

Lemma slice0_within {A} (n : Z) (l : list A) :
  (List.length (slice0 n l) <= List.length l)%nat.
Proof. unfold slice0. rewrite length_firstn. apply Nat.le_min_r. Qed.

Lemma keys_set_field k k' v o :
  In k (keys (set_field k' v o)) -> k = k' \/ In k (keys o).
Proof.
  induction o as [|[k0 v0] o IH]; cbn [set_field keys map fst In].
  - intros [<-|[]]. left. reflexivity.
  - destruct (jsstring_eqb k' k0) eqn:E; cbn [keys map fst In].
    + intros [<-|H]; [left; reflexivity | right; right; exact H].
    + intros [<-|H]; [right; left; reflexivity|].
      destruct (IH H) as [->|Hin]; [left; reflexivity | right; right; exact Hin].
Qed.

Section SecurityHeaders.
Variable hs : object.

Lemma copied_headers k l : forall acc,
  get_field k (fold_left (copy_header hs) l acc) =
  if existsb (jsstring_eqb k) l && truthy (get_field k hs)
  then get_field k hs else get_field k acc.
Proof.
  induction l as [|a l IH]; intros acc; cbn [fold_left existsb].
  - reflexivity.
  - rewrite IH. unfold copy_header.
    destruct (jsstring_eqb k a) eqn:E.
    + apply jsstring_eqb_eq in E. subst a. cbn [orb andb].
      destruct (truthy (get_field k hs)) eqn:T.
      * rewrite get_set_same. destruct (existsb _ l); reflexivity.
      * rewrite andb_false_r. reflexivity.
    + assert (Hk : k <> a)
        by (intros ->; rewrite jsstring_eqb_refl in E; discriminate).
      cbn [orb].
      destruct (truthy (get_field a hs)); [rewrite (get_set_other _ _ _ _ Hk)|];
        reflexivity.
Qed.

Lemma copied_keys k l : forall acc,
  In k (keys (fold_left (copy_header hs) l acc)) -> In k l \/ In k (keys acc).
Proof.
  induction l as [|a l IH]; intros acc; cbn [fold_left].
  - auto.
  - intros H. destruct (IH _ H) as [Hl|Hacc]; [left; right; exact Hl|].
    unfold copy_header in Hacc. destruct (truthy (get_field a hs)); [|right; exact Hacc].
    destruct (keys_set_field _ _ _ _ Hacc) as [->|Hin];
      [left; left; reflexivity | right; exact Hin].
Qed.

(** X8: [security_headers] is the response's headers cut down to the
    six security headers: a header is copied, with its value, exactly
    when its name is one of the six and its value is not empty; nothing
    else of the response gets in. *)
Theorem security_headers_whitelist (k : jsstring) :
  get_field k (security_headers hs) =
    (if existsb (jsstring_eqb k) securityHeaders && truthy (get_field k hs)
     then get_field k hs else VUndef)
  /\ (In k (keys (security_headers hs)) -> In k securityHeaders).
Proof.
  change (security_headers hs) with (fold_left (copy_header hs) securityHeaders []).
  split.
  - apply (copied_headers k securityHeaders []).
  - intros H. destruct (copied_keys _ _ _ H) as [Hin|[]]. exact Hin.
Qed.
End SecurityHeaders.

Section SearchAndBrowse.
Context {W : Type} (P : platform W).

Lemma search_results_bounded (args : web_search.args) :
  let n := default 10 (web_search.num_results args) in
  0 <= n ->
  total (astray P)
    (fun out =>
       exists o,
         out = JSON_stringify (VObj o) /\
         (get_field (lit "success") o = VBool false \/
          exists results total_results,
            get_field (lit "success") o = VBool true /\
            get_field (lit "results") o = VArr results /\
            get_field (lit "total_results") o = VNum total_results /\
            Z.of_nat (List.length results) <= n /\
            Z.of_nat (List.length results) <= total_results))
    (Web.webSearchHandler P args).
Proof.
  intros n Hn.
  assert (Hfail : forall o,
            exists o',
              JSON_stringify (VObj (success false :: o)) = JSON_stringify (VObj o') /\
              (get_field (lit "success") o' = VBool false \/
               exists results total_results,
                 get_field (lit "success") o' = VBool true /\
                 get_field (lit "results") o' = VArr results /\
                 get_field (lit "total_results") o' = VNum total_results /\
                 Z.of_nat (List.length results) <= n /\
                 Z.of_nat (List.length results) <= total_results)).
  { intros o. exists (success false :: o). split; [reflexivity | left; reflexivity]. }
  unfold Web.webSearchHandler. fold n. apply total_try_catch.
  - eapply safe_bind with (Q1 := fun _ => True); [safety|]. intros encoded _.
    eapply safe_bind; [apply webRequest_safe|]. intros responseData _.
    destruct (negb _); [apply total_safe, total_ret, Hfail|].
    eapply safe_bind with (Q1 := fun _ => True); [safety|]. intros searchData _.
    eapply safe_bind; [apply prop_safe|]. intros abstract _.
    eapply safe_bind with (Q1 := fun _ => True).
    { destruct (truthy abstract); safety; apply prop_safe. }
    intros results _.
    eapply safe_bind; [apply prop_safe|]. intros relatedTopics _.
    eapply safe_bind with (Q1 := fun _ => True).
    { destruct (truthy relatedTopics); [|safety].
      eapply safe_bind with (Q1 := fun _ => True).
      - unfold Web.related_topics. safety.
      - intros topics _. apply safe_foldM. intros. apply add_topic_safe. }
    intros results' _.
    eapply safe_bind with (Q1 := fun _ => True).
    { destruct (_ <? 3); [|safety]. apply total_safe, total_try_catch.
      - safety; apply execAsync_safe.
      - intros e. safety. }
    intros results'' _. apply total_safe, total_ret.
    eexists. split; [reflexivity|]. right.
    exists (slice0 n results''), (Z.of_nat (List.length results'')).
    split; [reflexivity|]. split; [reflexivity|]. split; [reflexivity|].
    split; [apply slice0_at_most, Hn|].
    apply Nat2Z.inj_le, slice0_within.
  - intros e. apply total_ret, Hfail.
Qed.

(** X7: whatever the API and the fallback answer, a successful
    [web_search] returns at most [num_results] results when
    [num_results] is not negative -- at most 10 when it is left out --
    and never more than [total_results], the number it had collected. *)
Theorem web_search_at_most (args : web_search.args) (s s' : state W)
        (out : jsstring) :
  let n := default 10 (web_search.num_results args) in
  0 <= n ->
  Web.webSearchHandler P args s = (Normal out, s') ->
  exists o,
    out = JSON_stringify (VObj o) /\
    (get_field (lit "success") o = VBool false \/
     exists results total_results,
       get_field (lit "success") o = VBool true /\
       get_field (lit "results") o = VArr results /\
       get_field (lit "total_results") o = VNum total_results /\
       Z.of_nat (List.length results) <= n /\
       Z.of_nat (List.length results) <= total_results).
Proof.
  intros n Hn Hrun. pose proof (search_results_bounded args Hn s) as H.
  rewrite Hrun in H. exact H.
Qed.

End SearchAndBrowse.

(** The search of the example world, with [num_results] left out. *)
Lemma web_search_at_most_example :
  let args := web_search.mk (lit "rocq") None in
  0 <= 10 /\
  exists out s' o,
    Web.webSearchHandler Demo.node args Demo.start = (Normal out, s') /\
    out = JSON_stringify (VObj o) /\
    (get_field (lit "success") o = VBool false \/
     exists results total_results,
       get_field (lit "success") o = VBool true /\
       get_field (lit "results") o = VArr results /\
       get_field (lit "total_results") o = VNum total_results /\
       Z.of_nat (List.length results) <= 10 /\
       Z.of_nat (List.length results) <= total_results).
Proof.
  intros args. split; [discriminate|].
  destruct (Web.webSearchHandler Demo.node args Demo.start) as [[out|e|e|] s'] eqn:E;
    try (vm_compute in E; discriminate).
  destruct (web_search_at_most Demo.node args Demo.start s' out) as (o & Ho & H).
  - discriminate.
  - exact E.
  - exists out, s', o. auto.
Defined.

Section BrowseBounds.
Context {W : Type} (P : platform W).

Lemma browse_ok_failure o : browse_ok (JSON_stringify (VObj (success false :: o))).
Proof. exists (success false :: o). split; [reflexivity | left; reflexivity]. Qed.

Lemma kept_headers hs k : In k (keys (security_headers hs)) -> In k securityHeaders.
Proof.
  change (security_headers hs) with (fold_left (copy_header hs) securityHeaders []).
  intros H. destruct (copied_keys _ _ _ _ H) as [Hin|[]]. exact Hin.
Qed.

Lemma browseWithPuppeteer_ok url l f sc ua :
  safe (astray P) browse_ok (Web.browseWithPuppeteer P url l f sc ua).
Proof.
  unfold Web.browseWithPuppeteer.
  eapply safe_bind with (Q1 := fun _ => True); [safety|].
  intros [e|[]] _; [apply safe_throw|].
  apply safe_try_catch.
  - eapply safe_bind with (Q1 := fun _ => True); [safety|]. intros page _.
    eapply safe_bind with (Q1 := fun _ => True); [safety|]. intros _ _.
    apply total_safe, total_ret.
    eexists. split; [reflexivity|]. right. eexists _, _.
    split; [reflexivity|]. split; [reflexivity|]. split; [|split; [reflexivity|]].
    + destruct (p_innerText page) as [e|t]; cbn [Web.or_else List.length]; [lia|].
      rewrite length_firstn. apply Nat.le_min_l.
    + apply kept_headers.
  - intros e. eapply safe_bind with (Q1 := fun _ => True); [safety|]. intros _ _.
    apply safe_throw.
Qed.

Lemma browseStatic_ok url l f sc ua :
  total (astray P) browse_ok (Web.browseStatic P url l f sc ua).
Proof.
  unfold Web.browseStatic.
  eapply total_bind; [apply webRequest_total|]. intros r _.
  destruct (negb _); apply total_ret; [apply browse_ok_failure|].
  eexists. split; [reflexivity|]. right. eexists _, _.
  split; [reflexivity|]. split; [reflexivity|]. split; [|split; [reflexivity|]].
  - rewrite length_firstn. apply Nat.le_min_l.
  - apply kept_headers.
Qed.

(** X9: on either path, a result of [browse_website] that reports
    success carries at most 2000 characters of [text_content], and its
    [security_headers] hold none but the six security headers. *)
Theorem browse_website_bounded (args : browse_website.args) (s s' : state W)
        (out : jsstring) :
  Web.browseWebsiteHandler P args s = (Normal out, s') -> browse_ok out.
Proof.
  intros Hrun.
  assert (H : total (astray P) browse_ok (Web.browseWebsiteHandler P args)).
  { unfold Web.browseWebsiteHandler. apply total_try_catch.
    - apply browseWithPuppeteer_ok.
    - intros e. eapply total_bind with (Q1 := fun _ => True); [safety|].
      intros _ _. apply browseStatic_ok. }
  specialize (H s). rewrite Hrun in H. exact H.
Qed.

(** ** Web plugin: what the static path extracts *)

Lemma extractScriptsFromHTML_items html url :
  Web.extractScriptsFromHTML P html url =
  flat_map
    (fun m =>
       match capture P RE_src m with
       | Some src =>
           match url_resolve P src url with
           | inr abs =>
               [VObj [(lit "type", VStr (lit "external")); (lit "url", VStr abs);
                      (lit "relative", VStr src)]]
           | inl _ =>
               [VObj [(lit "type", VStr (lit "external")); (lit "url", VStr src);
                      (lit "relative", VStr src); (lit "invalid_url", VBool true)]]
           end
       | None => []
       end)
    (match_all P RE_script_src html).
Proof.
  unfold Web.extractScriptsFromHTML.
  match goal with |- _ = flat_map ?f _ => rewrite (collected _ f) end.
  - reflexivity.
  - intros acc m. destruct (capture P RE_src m) as [src|].
    + destruct (url_resolve P src url); reflexivity.
    + symmetry. apply app_nil_r.
Qed.

(** X10: the links and scripts of the static path.  Every anchor (script
    tag) whose [href] ([src]) can be read gives one entry, and every entry
    comes from one: its [relative] is the attribute as written, and its
    [url] is the attribute resolved against the page's URL -- or, when it
    does not resolve, the attribute itself with [invalid_url:true].  An
    address that cannot be resolved is kept, and fails nothing. *)
Theorem static_links_and_scripts (html url : jsstring) :
  let described (re : regex) (m : jsstring) (entry : jsval) :=
    exists ref,
      capture P re m = Some ref /\
      field "relative" entry = VStr ref /\
      match url_resolve P ref url with
      | inr abs => field "url" entry = VStr abs /\ field "invalid_url" entry = VUndef
      | inl _ => field "url" entry = VStr ref /\ field "invalid_url" entry = VBool true
      end in
  (forall entry, In entry (Web.extractLinksFromHTML P html url) ->
     exists m, In m (match_all P RE_anchor html) /\ described RE_href m entry)
  /\ (forall m ref, In m (match_all P RE_anchor html) -> capture P RE_href m = Some ref ->
        exists entry, In entry (Web.extractLinksFromHTML P html url) /\
                      described RE_href m entry)
  /\ (forall entry, In entry (Web.extractScriptsFromHTML P html url) ->
        exists m, In m (match_all P RE_script_src html) /\ described RE_src m entry)
  /\ (forall m ref, In m (match_all P RE_script_src html) -> capture P RE_src m = Some ref ->
        exists entry, In entry (Web.extractScriptsFromHTML P html url) /\
                      described RE_src m entry).
Proof.
  intros described. rewrite extractLinksFromHTML_items, extractScriptsFromHTML_items.
  unfold described. repeat split.
  - intros entry H. apply in_flat_map in H. destruct H as (m & Hm & H).
    exists m. split; [exact Hm|].
    destruct (capture P RE_href m) as [href|]; [|destruct H].
    exists href. cbv zeta in H.
    destruct (url_resolve P href url); destruct H as [<-|[]]; auto.
  - intros m ref Hm Href.
    destruct (url_resolve P ref url) as [e|abs] eqn:E;
      eexists; (split; [apply in_flat_map; exists m; split; [exact Hm|];
                        rewrite Href; cbv zeta; rewrite E; left; reflexivity|]);
      exists ref; rewrite E; auto.
  - intros entry H. apply in_flat_map in H. destruct H as (m & Hm & H).
    exists m. split; [exact Hm|].
    destruct (capture P RE_src m) as [src|]; [|destruct H].
    exists src.
    destruct (url_resolve P src url); destruct H as [<-|[]]; auto.
  - intros m ref Hm Href.
    destruct (url_resolve P ref url) as [e|abs] eqn:E;
      eexists; (split; [apply in_flat_map; exists m; split; [exact Hm|];
                        rewrite Href; rewrite E; left; reflexivity|]);
      exists ref; rewrite E; auto.
Qed.

Lemma extractMetaTagsFromHTML_items html :
  Web.extractMetaTagsFromHTML P html =
  flat_map
    (fun meta =>
       match capture P RE_content meta with
       | Some content =>
           match capture P RE_name meta, capture P RE_property meta with
           | Some n, _ =>
               [VObj [(lit "name", VStr n); (lit "content", VStr content);
                      (lit "type", VStr (lit "name"))]]
           | None, Some p =>
               [VObj [(lit "name", VStr p); (lit "content", VStr content);
                      (lit "type", VStr (lit "property"))]]
           | None, None => []
           end
       | None => []
       end)
    (match_all P RE_meta html).
Proof.
  unfold Web.extractMetaTagsFromHTML.
  match goal with |- _ = flat_map ?f _ => rewrite (collected _ f) end.
  - reflexivity.
  - intros acc m. cbv zeta. destruct (capture P RE_content m) as [content|].
    + destruct (capture P RE_name m), (capture P RE_property m);
        try reflexivity; symmetry; apply app_nil_r.
    + symmetry. apply app_nil_r.
Qed.

(** X11: the meta tags of the static path.  A tag is listed exactly when
    it has a [content] and a [name] or a [property]; the entry is called
    after the [name] when there is one, and after the [property]
    otherwise, and [type] says which. *)
Theorem static_meta_tags (html : jsstring) :
  let tags := Web.extractMetaTagsFromHTML P html in
  (forall entry, In entry tags ->
     exists meta content,
       In meta (match_all P RE_meta html) /\
       capture P RE_content meta = Some content /\
       field "content" entry = VStr content /\
       ((exists n, capture P RE_name meta = Some n /\
                   field "name" entry = VStr n /\
                   field "type" entry = VStr (lit "name"))
        \/ (capture P RE_name meta = None /\
            exists p, capture P RE_property meta = Some p /\
                      field "name" entry = VStr p /\
                      field "type" entry = VStr (lit "property"))))
  /\ (forall meta content,
        In meta (match_all P RE_meta html) ->
        capture P RE_content meta = Some content ->
        capture P RE_name meta <> None \/ capture P RE_property meta <> None ->
        exists entry, In entry tags /\ field "content" entry = VStr content)
  /\ (List.length tags <= List.length (match_all P RE_meta html))%nat.
Proof.
  intros tags. unfold tags. rewrite extractMetaTagsFromHTML_items. repeat split.
  - intros entry H. apply in_flat_map in H. destruct H as (meta & Hm & H).
    destruct (capture P RE_content meta) as [content|] eqn:Ec; [|destruct H].
    exists meta, content. split; [exact Hm|]. split; [exact Ec|].
    destruct (capture P RE_name meta) as [n|] eqn:En.
    + destruct H as [<-|[]]. split; [reflexivity|]. left. exists n. auto.
    + destruct (capture P RE_property meta) as [p|] eqn:Ep; [|destruct H].
      destruct H as [<-|[]]. split; [reflexivity|]. right.
      split; [reflexivity|]. exists p. auto.
  - intros meta content Hm Hc Hn.
    destruct (capture P RE_name meta) as [n|] eqn:En.
    + eexists. split; [apply in_flat_map; exists meta; split; [exact Hm|];
                       rewrite Hc, En; left; reflexivity|]. reflexivity.
    + destruct (capture P RE_property meta) as [p|] eqn:Ep.
      * eexists. split; [apply in_flat_map; exists meta; split; [exact Hm|];
                         rewrite Hc, En, Ep; left; reflexivity|]. reflexivity.
      * destruct Hn as [Hn|Hn]; contradiction Hn; reflexivity.
  - induction (match_all P RE_meta html) as [|meta l IH]; cbn [flat_map List.length].
    + lia.
    + rewrite length_app.
      destruct (capture P RE_content meta);
        [destruct (capture P RE_name meta), (capture P RE_property meta)|];
        cbn [List.length]; lia.
Qed.
End BrowseBounds.

(** The page of the example world, taken on the static path. *)
Lemma browse_website_bounded_example :
  exists out s',
    Web.browseWebsiteHandler Demo.node
      (browse_website.mk Demo.home None None None None) Demo.start = (Normal out, s')
    /\ browse_ok out.
Proof.
  destruct (Web.browseWebsiteHandler Demo.node
              (browse_website.mk Demo.home None None None None) Demo.start)
    as [[out|e|e|] s'] eqn:E; try (vm_compute in E; discriminate).
  exists out, s'. split; [reflexivity|].
  exact (browse_website_bounded Demo.node _ _ _ _ E).
Defined.

(** ** Web analysis plugin: the files and the paths *)

Section AnalysisBounds.
Context {W : Type} (P : platform W).

(** What the request helper resolves with: a failure and its message, or
    the response. *)
Lemma makeWebRequest_result url method headers (s s1 : state W) r :
  Analysis.makeWebRequest P url method headers s = (Normal r, s1) ->
  (exists m, r = VObj [success false; (lit "error", VStr m)]) \/
  (exists res body,
     r = VObj [success true;
               (lit "status_code", VNum (statusCode res));
               (lit "headers", VObj (res_headers res));
               (lit "body", VStr body)]).
Proof.
  unfold Analysis.makeWebRequest. unfold_monad.
  destruct (url_parse P url) as [e|urlObj].
  - intros H. apply returned in H. destruct H as [<- _]. left. eexists. reflexivity.
  - destruct (http_request P _ _ (world s)) as [[e|[res|e| |]] w];
      intros H; try discriminate H; apply returned in H; destruct H as [<- _];
      try (left; eexists; reflexivity).
    right. eexists _, _. reflexivity.
Qed.

(** A turn of the loop over the files adds at most one entry. *)
Lemma analyze_file_adds patterns found jsAnalysis jsFile (s s' : state W)
      found' jsAnalysis' :
  Analysis.analyze_file P patterns (found, jsAnalysis) jsFile s
    = (Normal (found', jsAnalysis'), s') ->
  exists added, jsAnalysis' = jsAnalysis ++ added /\ (List.length added <= 1)%nat.
Proof.
  intros H. unfold Analysis.analyze_file in H.
  destruct (makeWebRequest_cases P jsFile (lit "GET") [] s) as (s1 & [[r Hr]|[_ Hr]]);
    unfold bind, try_catch in H; rewrite Hr in H; [|discriminate H].
  destruct (truthy (field "success" r)).
  - destruct (Analysis.scan_file P patterns (string_of (field "body" r)) found [])
      as [[f1 fe] [e|]];
      apply returned in H; destruct H as [H _]; injection H as _ <-;
      eexists; split; try reflexivity; cbn; lia.
  - apply returned in H. destruct H as [H _]. injection H as _ <-.
    exists []. rewrite app_nil_r. split; [reflexivity | cbn; lia].
Qed.

Lemma files_added patterns files : forall found0 ja0 (s s' : state W) found ja,
  foldM (Analysis.analyze_file P patterns) (found0, ja0) files s
    = (Normal (found, ja), s') ->
  (List.length ja <= List.length ja0 + List.length files)%nat.
Proof.
  induction files as [|jsFile files IH]; intros found0 ja0 s s' found ja H.
  - apply returned in H. destruct H as [H _]. injection H as _ <-. lia.
  - rewrite foldM_cons in H.
    destruct (Analysis.analyze_file P patterns (found0, ja0) jsFile s)
      as [[[f1 ja1]|e|e|] s1] eqn:E; try discriminate.
    destruct (analyze_file_adds _ _ _ _ _ _ _ _ E) as (added & -> & Hadded).
    apply IH in H. rewrite length_app in H. cbn [List.length]. lia.
Qed.

(** X12: [analyze_javascript] looks at ten script files at most.  A
    result that reports success lists at most ten entries in [js_files],
    however many scripts the page names; [js_files_analyzed] is the
    number of these entries and [total_endpoints_found] the number of
    [endpoints]. *)
Theorem analyze_javascript_bounded (args : analyze_javascript.args)
        (s s' : state W) (out : jsstring) :
  Analysis.analyzeJavaScriptHandler P args s = (Normal out, s') ->
  exists o,
    out = JSON_stringify (VObj o) /\
    (get_field (lit "success") o = VBool false \/
     exists endpoints files,
       get_field (lit "success") o = VBool true /\
       get_field (lit "endpoints") o = VArr endpoints /\
       get_field (lit "total_endpoints_found") o
         = VNum (Z.of_nat (List.length endpoints)) /\
       get_field (lit "js_files") o = VArr files /\
       get_field (lit "js_files_analyzed") o = VNum (Z.of_nat (List.length files)) /\
       (List.length files <= 10)%nat).
Proof.
  intros H. unfold Analysis.analyzeJavaScriptHandler in H.
  destruct (makeWebRequest_cases P (analyze_javascript.url args) (lit "GET") [] s)
    as (s1 & [[r Hr]|[_ Hr]]);
    unfold try_catch in H; unfold bind at 1 in H; rewrite Hr in H; [|discriminate H].
  destruct (negb (truthy (field "success" r))).
  - apply returned in H. destruct H as [<- _].
    eexists. split; [reflexivity | left; reflexivity].
  - unfold bind at 1 in H.
    destruct (foldM (Analysis.scan_inline P _) [] _ s1) as [[found0|e|e|] s2];
      [| apply returned in H; destruct H as [<- _];
         eexists; split; [reflexivity | left; reflexivity]
       | discriminate
       | discriminate ].
    unfold bind at 1 in H.
    destruct (foldM (Analysis.analyze_file P _) (found0, []) _ s2)
      as [[[found ja]|e|e|] s3] eqn:E;
      [| apply returned in H; destruct H as [<- _];
         eexists; split; [reflexivity | left; reflexivity]
       | discriminate
       | discriminate ].
    apply returned in H. destruct H as [<- _].
    apply files_added in E. rewrite length_firstn in E. cbn [List.length] in E.
    eexists. split; [reflexivity|]. right. exists found, ja.
    repeat split; try reflexivity. lia.
Qed.

(** The pattern loop stops at the first pattern that throws, and keeps
    what the patterns before it added. *)
Lemma scan_file_stops content bad rest e : forall ahead found fileEndpoints,
  Forall (fun p => exists ms, Analysis.matches P p content = inr ms) ahead ->
  Analysis.matches P bad content = inl e ->
  exists found' fileEndpoints',
    Analysis.scan_file P (ahead ++ bad :: rest) content found fileEndpoints
      = (found', fileEndpoints', Some e) /\
    incl found found' /\
    (forall p ms, In p ahead -> Analysis.matches P p content = inr ms ->
                  incl ms found').
Proof.
  induction ahead as [|p ahead IH]; intros found fe Hok Hbad;
    cbn [app Analysis.scan_file].
  - rewrite Hbad. exists found, fe. split; [reflexivity|].
    split; [apply incl_refl | intros p ms []].
  - inversion_clear Hok as [|? ? [ms Hms] Hrest]. rewrite Hms.
    destruct (IH (set_add_all jsval_eqb found ms) (set_add_all jsval_eqb fe ms)
                 Hrest Hbad) as (found' & fe' & Hrun & Hincl & Hall).
    exists found', fe'. split; [exact Hrun|]. split.
    + intros y Hy. apply Hincl. apply (set_add_all_in _ jsval_eqb_eq). left. exact Hy.
    + intros q ms' [<-|Hq] Hq'.
      * rewrite Hms in Hq'. injection Hq' as <-. intros y Hy. apply Hincl.
        apply (set_add_all_in _ jsval_eqb_eq). right. exact Hy.
      * apply (Hall q ms' Hq Hq').
Qed.

(** X13: in the loop over the script files, a pattern of the caller's
    that throws on the text of a file fails that file only: the file
    gets the entry [{file, error}] with the message of the pattern, the
    loop goes on, and what the patterns before it matched in that file
    stays among the endpoints. *)
Theorem analyze_javascript_bad_pattern (ahead rest : list pattern) (src : jsstring)
        (found jsAnalysis : list jsval) (jsFile : jsstring) (s s1 : state W)
        (jsData : jsval) (e : error) :
  let content := string_of (field "body" jsData) in
  Analysis.makeWebRequest P jsFile (lit "GET") [] s = (Normal jsData, s1) ->
  truthy (field "success" jsData) = true ->
  Forall (fun p => exists ms, Analysis.matches P p content = inr ms) ahead ->
  match_string P src content = inl e ->
  exists found',
    Analysis.analyze_file P (ahead ++ Custom src :: rest) (found, jsAnalysis) jsFile s
      = (Normal (found',
                 jsAnalysis ++ [VObj [(lit "file", VStr jsFile);
                                      (lit "error", VStr (message e))]]),
         s1) /\
    incl found found' /\
    (forall p ms, In p ahead -> Analysis.matches P p content = inr ms ->
                  incl ms found').
Proof.
  intros content Hreq Hok Hahead Hsrc.
  assert (Hbad : Analysis.matches P (Custom src) content = inl e).
  { cbn [Analysis.matches]. rewrite Hsrc. reflexivity. }
  destruct (scan_file_stops content (Custom src) rest e ahead found [] Hahead Hbad)
    as (found' & fe' & Hrun & Hincl & Hall).
  exists found'. split; [|split; [exact Hincl | exact Hall]].
  unfold Analysis.analyze_file, try_catch, bind. rewrite Hreq, Hok.
  fold content. rewrite Hrun. reflexivity.
Qed.

(** X14: a path whose request fails -- the URL is refused, the
    connection breaks, the request times out -- is reported by the probe
    like any other: an entry with [status_code:"error"],
    [accessible:false], [content_type:"unknown"] and [response_size:0].
    Its [likely_api] is [undefined], so the entry is written without it;
    the message of the failure is not reported. *)
Theorem probe_failed_request (baseDomain path : jsstring) (results : list jsval)
        (s s1 : state W) (r : jsval) :
  let testUrl := baseDomain ++ path in
  let entry :=
    [(lit "url", VStr testUrl);
     (lit "status_code", VStr (lit "error"));
     (lit "accessible", VBool false);
     (lit "content_type", VStr (lit "unknown"));
     (lit "response_size", VNum 0)] in
  Analysis.makeWebRequest P testUrl (lit "GET") [] s = (Normal r, s1) ->
  truthy (field "success" r) = false ->
  Analysis.probe P baseDomain results path s
    = (Normal (results ++ [VObj (entry ++ [(lit "likely_api", VUndef)])]), s1)
  /\ JSON_stringify (VObj (entry ++ [(lit "likely_api", VUndef)]))
     = JSON_stringify (VObj entry).
Proof.
  intros testUrl entry Hreq Hfail. split; [|reflexivity].
  destruct (makeWebRequest_result _ _ _ _ _ _ Hreq) as [[m ->]|(res & body & ->)];
    [|discriminate Hfail].
  unfold Analysis.probe, try_catch. fold testUrl. unfold bind at 1.
  rewrite Hreq. reflexivity.
Qed.
End AnalysisBounds.

(** The page of the example world names two scripts. *)
Lemma analyze_javascript_bounded_example :
  exists out s' o,
    Analysis.analyzeJavaScriptHandler Demo.node
      (analyze_javascript.mk Demo.home None) Demo.start = (Normal out, s') /\
    out = JSON_stringify (VObj o) /\
    (get_field (lit "success") o = VBool false \/
     exists endpoints files,
       get_field (lit "success") o = VBool true /\
       get_field (lit "endpoints") o = VArr endpoints /\
       get_field (lit "total_endpoints_found") o
         = VNum (Z.of_nat (List.length endpoints)) /\
       get_field (lit "js_files") o = VArr files /\
       get_field (lit "js_files_analyzed") o = VNum (Z.of_nat (List.length files)) /\
       (List.length files <= 10)%nat).
Proof.
  destruct (Analysis.analyzeJavaScriptHandler Demo.node
              (analyze_javascript.mk Demo.home None) Demo.start)
    as [[out|e|e|] s'] eqn:E; try (vm_compute in E; discriminate).
  destruct (analyze_javascript_bounded Demo.node _ _ _ _ E) as (o & Ho & H).
  exists out, s', o. auto.
Defined.

(** The host refuses the pattern [(]; [/lib.js] can be fetched. *)
Lemma analyze_javascript_bad_pattern_example :
  let jsFile := lit "http://example.test/lib.js" in
  exists found' s1,
    Analysis.analyze_file Host.node [Custom (lit "(")] ([], []) jsFile Host.fresh
      = (Normal (found',
                 [VObj [(lit "file", VStr jsFile);
                        (lit "error",
                           VStr (lit "Invalid regular expression: /(/: Unterminated group"))]]),
         s1).
Proof.
  intros jsFile.
  destruct (Analysis.makeWebRequest Host.node jsFile (lit "GET") [] Host.fresh)
    as [[jsData|e|e|] s1] eqn:E; try (vm_compute in E; discriminate).
  assert (Hok : truthy (field "success" jsData) = true).
  { vm_compute in E. apply returned in E. destruct E as [<- _]. reflexivity. }
  destruct (analyze_javascript_bad_pattern Host.node [] [] (lit "(") [] [] jsFile
              Host.fresh s1 jsData Host.unterminated E Hok)
    as (found' & Hrun & _).
  - constructor.
  - reflexivity.
  - exists found', s1. exact Hrun.
Defined.

(** Nothing answers at [/nothing] in the example world. *)
Lemma probe_failed_request_example :
  exists s1,
    Analysis.probe Demo.node (lit "http://example.test") [] (lit "/nothing") Demo.start
      = (Normal [VObj [(lit "url", VStr (lit "http://example.test/nothing"));
                       (lit "status_code", VStr (lit "error"));
                       (lit "accessible", VBool false);
                       (lit "content_type", VStr (lit "unknown"));
                       (lit "response_size", VNum 0);
                       (lit "likely_api", VUndef)]],
         s1).
Proof.
  destruct (Analysis.makeWebRequest Demo.node
              (lit "http://example.test" ++ lit "/nothing") (lit "GET") [] Demo.start)
    as [[r|e|e|] s1] eqn:E; try (vm_compute in E; discriminate).
  assert (Hfail : truthy (field "success" r) = false).
  { vm_compute in E. apply returned in E. destruct E as [<- _]. reflexivity. }
  exists s1.
  exact (proj1 (probe_failed_request Demo.node (lit "http://example.test")
                  (lit "/nothing") [] Demo.start s1 r E Hfail)).
Defined.

(** ** Filesystem plugin: writing and reading back, and the listing *)

Section WriteAndList.
Context {W : Type} (P : platform W).

(** X19: what [write_file] wrote, [read_file] reads, as far as UTF-8
    keeps it.  On a file system where [stat] and [readFile] change
    nothing, a file read as UTF-8 gives the text that was last written to
    it as UTF-8, and the working directory stays where it is: when
    [write_file] reports success for a path, [read_file] of the same path
    right after it reports success with the same absolute path, as [size]
    the [bytes_written] of the writing, and as [content] the text that
    was written with U+FFFD in the place of every surrogate without its
    partner -- so a text without such surrogates comes back as it was
    written. *)
Theorem write_then_read (args : write_file.args) (s : state W) (w1 w2 : W)
        (t : nat) (st : stats) :
  let file_path := write_file.file_path args in
  let content := write_file.content args in
  let absolutePath := path_resolve P (world s) file_path in
  let kept := Codec.utf8_decode (Codec.utf8_encode content) in
  (forall p w, snd (fs_stat P p w) = w) ->
  (forall p w, snd (fs_readFile P p w) = w) ->
  (forall p c w w', fs_writeFile P p c w = (inr tt, w') ->
                    fst (fs_readFile P p w')
                      = inr (Codec.utf8_decode (Codec.utf8_encode c))) ->
  (forall w p, path_resolve P w p = path_resolve P (world s) p) ->
  fs_mkdir P (path_dirname P absolutePath) (world s) = (inr tt, w1) ->
  fs_writeFile P absolutePath content w1 = (inr tt, w2) ->
  fst (fs_stat P absolutePath w2) = (t, inr st) ->
  let s' := mkState w2 (trace s) in
  Filesystem.writeFileHandler P args s =
    (Normal (JSON_stringify
               (VObj [success true;
                      (lit "path", VStr absolutePath);
                      (lit "bytes_written", VNum (size st))])),
     s')
  /\
  Filesystem.readFileHandler P (read_file.mk file_path) s' =
    (Normal (JSON_stringify
               (VObj [success true;
                      (lit "content", VStr kept);
                      (lit "path", VStr absolutePath);
                      (lit "size", VNum (size st));
                      (lit "modified", mtime st)])),
     s')
  /\ (Forall code_unit content -> kept = toWellFormed content)
  /\ (Codec.well_formed content -> kept = content).
Proof.
  intros file_path content absolutePath kept Hstat Hread Hback Hcwd Hmkdir Hwrite Hst s'.
  assert (Hstat' : fs_stat P absolutePath w2 = ((t, inr st), w2)).
  { pose proof (Hstat absolutePath w2) as Hw.
    destruct (fs_stat P absolutePath w2) as [r w]. cbn [fst snd] in *.
    subst r w. reflexivity. }
  assert (Hread' : fs_readFile P absolutePath w2 = (inr kept, w2)).
  { pose proof (Hread absolutePath w2) as Hw.
    pose proof (Hback _ _ _ _ Hwrite) as Hc.
    destruct (fs_readFile P absolutePath w2) as [r w]. cbn [fst snd] in *.
    subst r w. reflexivity. }
  split; [|split; [|split]].
  - unfold Filesystem.writeFileHandler, Filesystem.stat. unfold_monad.
    fold file_path content absolutePath.
    rewrite Hmkdir. cbv beta iota zeta. cbn [world trace].
    rewrite Hwrite. cbv beta iota zeta. cbn [world trace].
    rewrite Hstat'. reflexivity.
  - unfold Filesystem.readFileHandler, Filesystem.stat. unfold_monad.
    cbn [read_file.file_path]. unfold s'. cbn [world trace].
    rewrite (Hcwd w2 file_path). fold absolutePath.
    rewrite Hread'. cbv beta iota zeta. cbn [world trace].
    rewrite Hstat'. reflexivity.
  - apply utf8_round_trip_any.
  - apply utf8_round_trip.
Qed.

(** The rejection that [Promise.all] passes on is the earliest. *)
Lemma first_rejection_earliest {A} (l : list (nat * (error + A))) t e :
  first_rejection l = Some (t, e) ->
  forall t' e', In (t', inl e') l -> (t <= t')%nat.
Proof.
  revert t e. induction l as [|[t0 [e0|a0]] l IH]; intros t e H t' e' Hin;
    cbn [first_rejection] in H.
  - destruct Hin.
  - destruct (first_rejection l) as [[t1 e1]|] eqn:E.
    + destruct (Nat.ltb_spec t1 t0); injection H as <- <-;
        (destruct Hin as [Hin|Hin];
         [injection Hin as <- <-; lia | specialize (IH _ _ eq_refl _ _ Hin); lia]).
    + injection H as <- <-. destruct Hin as [Hin|Hin]; [injection Hin as <- <-; lia|].
      apply first_rejection_none in E. rewrite Forall_forall in E.
      destruct (E _ Hin) as [a Ha]. discriminate Ha.
  - destruct Hin as [Hin|Hin]; [discriminate Hin|]. exact (IH _ _ H _ _ Hin).
Qed.

(** X20: when the [stat] of several entries fails, the error that
    [list_directory] reports is the one of the [stat] that failed first
    in time -- which need not be the first entry in the order of the
    directory. *)
Theorem list_directory_first_failure (args : list_directory.args) (s s2 : state W)
        (entries : list dirent) (w1 : W) (promises : list (nat * (error + jsval))) :
  let absolutePath := path_resolve P (world s) (Filesystem.directory_or_dot args) in
  fs_readdir P absolutePath (world s) = (inr entries, w1) ->
  mapM (Filesystem.describe P absolutePath) entries (mkState w1 (trace s))
    = (Normal promises, s2) ->
  Exists rejected promises ->
  exists t e,
    In (t, inl e) promises /\
    (forall t' e', In (t', inl e') promises -> (t <= t')%nat) /\
    Filesystem.listDirectoryHandler P args s =
      (Normal (JSON_stringify
                 (VObj [success false;
                        (lit "error", VStr (message e));
                        (lit "path", VStr (Filesystem.directory_or_dot args))])),
       s2).
Proof.
  intros absolutePath Hdir Hmap Hex.
  destruct (some_rejected _ Hex) as (t & e & Hfirst & Hin).
  exists t, e. split; [exact Hin|]. split; [apply (first_rejection_earliest _ _ _ Hfirst)|].
  unfold Filesystem.listDirectoryHandler. unfold_monad.
  fold absolutePath. rewrite Hdir. cbv beta iota zeta. cbn [world trace].
  rewrite Hmap. unfold Promise_all. rewrite Hfirst. reflexivity.
Qed.
End WriteAndList.

(** On the host, [notes/a.txt] is written and read back. *)
Lemma write_then_read_example :
  let args := write_file.mk (lit "notes/a.txt") (lit "hello") in
  let s' := mkState [(lit "/srv/notes/a.txt", Codec.utf8_encode (lit "hello"))] [] in
  Filesystem.writeFileHandler Host.node args Host.fresh =
    (Normal (JSON_stringify
               (VObj [success true;
                      (lit "path", VStr (lit "/srv/notes/a.txt"));
                      (lit "bytes_written", VNum 5)])),
     s')
  /\
  Filesystem.readFileHandler Host.node (read_file.mk (lit "notes/a.txt")) s' =
    (Normal (JSON_stringify
               (VObj [success true;
                      (lit "content", VStr (lit "hello"));
                      (lit "path", VStr (lit "/srv/notes/a.txt"));
                      (lit "size", VNum 5);
                      (lit "modified", Demo.new_year)])),
     s').
Proof.
  intros args s'.
  refine (let H := write_then_read Host.node args Host.fresh []
                     [(lit "/srv/notes/a.txt", Codec.utf8_encode (lit "hello"))] 1
                     (mkStats 5 Demo.new_year)
                     _ _ _ _ eq_refl eq_refl eq_refl in
          conj (proj1 H) (proj1 (proj2 H))).
  - reflexivity.
  - reflexivity.
  - intros p c w w' H. injection H as <-. cbn. unfold Host.readFile.
    cbn [Host.lookup]. rewrite jsstring_eqb_refl. reflexivity.
  - reflexivity.
Defined.

(** On the host neither name of [/tmp] is a file, and the [stat] of the
    second fails before the [stat] of the first. *)
Lemma list_directory_first_failure_example :
  let promises : list (nat * (error + jsval)) :=
    [(5%nat, inl (Demo.enoent (lit "stat") (lit "/tmp/zz")));
     (1%nat, inl (Demo.enoent (lit "stat") (lit "/tmp/a")))] in
  Exists rejected promises /\
  exists t e,
    In (t, inl e) promises /\
    (forall t' e', In (t', inl e') promises -> (t <= t')%nat) /\
    Filesystem.listDirectoryHandler Host.node (list_directory.mk (Some (lit "/tmp")))
      Host.fresh =
      (Normal (JSON_stringify
                 (VObj [success false;
                        (lit "error", VStr (message e));
                        (lit "path", VStr (lit "/tmp"))])),
       Host.fresh).
Proof.
  intros promises.
  assert (Hex : Exists (@rejected jsval) promises).
  { apply Exists_cons_hd. eexists. reflexivity. }
  split; [exact Hex|].
  exact (list_directory_first_failure Host.node (list_directory.mk (Some (lit "/tmp")))
           Host.fresh Host.fresh
           [mkDirent (lit "zz") false; mkDirent (lit "a") false] []
           promises eq_refl eq_refl Hex).
Defined.

(** ** How a probe reads an answer, and a page that cannot be had *)

Section AnswerFacts.
Context {W : Type} (P : platform W).

(** X21: a path that is answered.  For a response with a status and a
    [Content-Type] header, the entry of the probe carries the status, the
    content type and the length of the body; it is [accessible] exactly
    when the status is below 400 -- a 404 is an answer, not an accessible
    endpoint -- and [likely_api] exactly when the body contains an opening
    brace followed by a double quote, or an opening bracket followed by an
    opening brace, or the content type contains [json] or [xml]. *)
Theorem probe_answered_request (baseDomain path : jsstring) (results : list jsval)
        (s s1 : state W) (res : response) (body contentType : jsstring) :
  let testUrl := baseDomain ++ path in
  Analysis.makeWebRequest P testUrl (lit "GET") [] s
    = (Normal (VObj [success true;
                     (lit "status_code", VNum (statusCode res));
                     (lit "headers", VObj (res_headers res));
                     (lit "body", VStr body)]),
       s1) ->
  statusCode res <> 0 ->
  get_field (lit "content-type") (res_headers res) = VStr contentType ->
  contentType <> [] ->
  Analysis.probe P baseDomain results path s
    = (Normal
         (results ++
          [VObj [(lit "url", VStr testUrl);
                 (lit "status_code", VNum (statusCode res));
                 (lit "accessible", VBool (statusCode res <? 400));
                 (lit "content_type", VStr contentType);
                 (lit "response_size", VNum (jslength body));
                 (lit "likely_api",
                    VBool (includes (lit "{" ++ dq) body
                           || includes (lit "[{") body
                           || includes (lit "json") contentType
                           || includes (lit "xml") contentType))]]),
       s1).
Proof.
  intros testUrl Hreq Hstatus Htype Hsome.
  unfold Analysis.probe, try_catch. fold testUrl. unfold bind at 1. rewrite Hreq.
  assert (Hlikely :
            Analysis.likely_api
              (VObj [success true;
                     (lit "status_code", VNum (statusCode res));
                     (lit "headers", VObj (res_headers res));
                     (lit "body", VStr body)]) s1
            = (Normal (VBool (includes (lit "{" ++ dq) body
                              || includes (lit "[{") body
                              || includes (lit "json") contentType
                              || includes (lit "xml") contentType)), s1)).
  { unfold Analysis.likely_api.
    change (opt_field "body" _) with (VStr body).
    change (opt_field "content-type" (opt_field "headers" _))
      with (get_field (lit "content-type") (res_headers res)).
    rewrite Htype. cbn [opt_includes]. unfold bind, ret. cbn [truthy].
    destruct (includes (lit "{" ++ dq) body); [reflexivity|].
    destruct (includes (lit "[{") body); [reflexivity|].
    destruct (includes (lit "json") contentType); reflexivity. }
  unfold bind. rewrite Hlikely. unfold ret. do 4 f_equal.
  change (field "status_code" _) with (VNum (statusCode res)).
  change (field "success" _) with (VBool true).
  change (opt_field "content-type" (opt_field "headers" _))
    with (get_field (lit "content-type") (res_headers res)).
  change (opt_field "body" _) with (VStr body).
  rewrite Htype. unfold js_or, js_and, js_lt, opt_length. cbn [truthy].
  apply Z.eqb_neq in Hstatus. rewrite Hstatus. cbn [negb].
  destruct contentType as [|u ct]; [contradiction Hsome; reflexivity|].
  destruct (jslength body =? 0) eqn:E; cbn [negb]; [|reflexivity].
  apply Z.eqb_eq in E. rewrite E. reflexivity.
Qed.

(** X22: when the browser path fails and the static fetch fails as well,
    [browse_website] returns [{success:false, error, url}] where [error]
    is what the static fetch reported; the error of the browser is
    written to the console and appears nowhere in the result. *)
Theorem browse_website_both_fail (args : browse_website.args) (s s1 s2 : state W)
        (e : error) (responseData : jsval) :
  Web.primary P args s = (Throw e, s1) ->
  Web.webRequest P (Web.static_request args) (Web.logged s1 e)
    = (Normal responseData, s2) ->
  truthy (field "success" responseData) = false ->
  Web.browseWebsiteHandler P args s =
    (Normal (JSON_stringify
               (VObj [success false;
                      (lit "error", field "error" responseData);
                      (lit "url", VStr (browse_website.url args))])),
     s2)
  /\ trace (Web.logged s1 e)
     = trace s1 ++ [EvConsole (lit "Puppeteer failed, falling back to static parsing: "
                               ++ message e)].
Proof.
  intros Hp Hreq Hfail. split; [|reflexivity].
  unfold Web.browseWebsiteHandler, try_catch. fold (Web.primary P args).
  rewrite Hp. unfold bind at 1. unfold emit at 1. fold (Web.logged s1 e).
  unfold Web.browseStatic. fold (Web.static_request args).
  unfold bind at 1. rewrite Hreq. rewrite Hfail. reflexivity.
Qed.
End AnswerFacts.

(** [/api] of the example world answers [[]] as JSON. *)
Lemma probe_answered_request_example :
  exists s1,
    Analysis.probe Demo.node (lit "http://example.test") [] (lit "/api") Demo.start
      = (Normal [Demo.api_entry], s1).
Proof.
  destruct (Analysis.makeWebRequest Demo.node
              (lit "http://example.test" ++ lit "/api") (lit "GET") [] Demo.start)
    as [[r|e|e|] s1] eqn:E; try (vm_compute in E; discriminate).
  exists s1.
  refine (probe_answered_request Demo.node (lit "http://example.test") (lit "/api") []
            Demo.start s1
            (mkResponse 200 (lit "OK")
               [(lit "content-type", VStr (lit "application/json"))]
               [Codec.utf8_encode (lit "[]")])
            (lit "[]") (lit "application/json") _ _ eq_refl _).
  - rewrite E. vm_compute in E. apply returned in E. destruct E as [<- <-].
    vm_compute. reflexivity.
  - discriminate.
  - discriminate.
Defined.

(** The example world has no browser, and nothing answers at [/nothing]. *)
Lemma browse_website_both_fail_example :
  let args :=
    browse_website.mk (lit "http://example.test/nothing") None None None None in
  exists s2,
    Web.browseWebsiteHandler Demo.node args Demo.start =
      (Normal (JSON_stringify
                 (VObj [success false;
                        (lit "error", VStr (lit "socket hang up"));
                        (lit "url", VStr (lit "http://example.test/nothing"))])),
       s2).
Proof.
  intros args.
  destruct (Web.webRequest Demo.node (Web.static_request args)
              (Web.logged Demo.start Demo.no_browser))
    as [[r|e|e|] s2] eqn:E; try (vm_compute in E; discriminate).
  assert (Hr : r = Web.failure Demo.hang_up (lit "http://example.test/nothing")
                     (lit "GET")).
  { vm_compute in E. apply returned in E. destruct E as [<- _]. reflexivity. }
  exists s2.
  destruct (browse_website_both_fail Demo.node args Demo.start Demo.start s2
              Demo.no_browser r eq_refl E) as [Hrun _].
  - rewrite Hr. reflexivity.
  - rewrite Hrun, Hr. reflexivity.
Defined.

(** ** The request of the static path *)

(** X23: the [user_agent] given to [browse_website] reaches the wire on
    the static path.  The request of that path is a [GET] without body;
    its [User-Agent] header is the caller's [user_agent] when one is
    given and is not empty, and the browser-like default otherwise; every
    other default header is sent as it is. *)
Theorem browse_static_user_agent (args : browse_website.args) (urlObj : URL)
        (k : jsstring) :
  let request := Web.request_of (Web.static_request args) urlObj in
  o_method request = lit "GET"
  /\ Web.body_sent (Web.static_request args) = None
  /\ get_field (lit "User-Agent") (o_headers request)
     = match nonempty (browse_website.user_agent args) with
       | Some ua => VStr ua
       | None => get_field (lit "User-Agent") Web.browserHeaders
       end
  /\ (k <> lit "User-Agent" ->
      get_field k (o_headers request) = get_field k Web.browserHeaders).
Proof.
  intros request. split; [reflexivity|]. split; [reflexivity|].
  unfold request, Web.request_of, Web.options, Web.static_request.
  cbn [o_headers web_request.method web_request.headers web_request.data
       default nonempty Web.request_headers].
  destruct (nonempty (browse_website.user_agent args)) as [ua|].
  - split.
    + destruct (get_spread (lit "User-Agent") [(lit "User-Agent", VStr ua)]
                  Web.browserHeaders) as [H _].
      * repeat constructor. intros [].
      * rewrite H; [reflexivity | left; reflexivity].
    + intros Hk.
      destruct (get_spread k [(lit "User-Agent", VStr ua)] Web.browserHeaders)
        as [_ H].
      * repeat constructor. intros [].
      * apply H. intros [Hin|[]]. apply Hk. symmetry. exact Hin.
  - split; [reflexivity | intros _; reflexivity].
Qed.

(** ** A pattern that throws on an inline script *)

Section InlinePattern.
Context {W : Type} (P : platform W).

Lemma scan_inline_stops script bad rest e : forall ahead found (s : state W),
  Forall (fun p => exists ms,
            Analysis.matches P p (Analysis.content_of P script) = inr ms) ahead ->
  Analysis.matches P bad (Analysis.content_of P script) = inl e ->
  Analysis.scan_inline P (ahead ++ bad :: rest) found script s = (Throw e, s).
Proof.
  unfold Analysis.scan_inline. fold (Analysis.content_of P script).
  induction ahead as [|p ahead IH]; intros found s Hok Hbad; cbn [app].
  - rewrite foldM_cons. unfold bind, lift. rewrite Hbad. reflexivity.
  - inversion_clear Hok as [|? ? [ms Hms] Hrest].
    rewrite foldM_cons. unfold bind at 1, lift at 1. rewrite Hms. unfold ret at 1.
    apply IH; assumption.
Qed.

(** X24: the inline scripts are scanned outside the [try] of the loop
    over the files.  When the page has an inline script and a pattern of
    the caller's throws on it -- a string that is not a regular expression
    throws on every text -- the whole analysis fails: the handler returns
    [{success:false, error, url}] with the message of the pattern, no
    script file is requested and nothing that was found is reported. *)
Theorem analyze_javascript_bad_pattern_inline (args : analyze_javascript.args)
        (s s1 : state W) (responseData : jsval) (ahead rest : list pattern)
        (src script : jsstring) (scripts : list jsstring) (e : error) :
  let url := analyze_javascript.url args in
  let htmlContent := string_of (field "body" responseData) in
  Analysis.patterns_of (analyze_javascript.search_patterns args)
    = ahead ++ Custom src :: rest ->
  Analysis.makeWebRequest P url (lit "GET") [] s = (Normal responseData, s1) ->
  truthy (field "success" responseData) = true ->
  match_all P RE_inline_script htmlContent = script :: scripts ->
  Forall (fun p => exists ms,
            Analysis.matches P p (Analysis.content_of P script) = inr ms) ahead ->
  match_string P src (Analysis.content_of P script) = inl e ->
  Analysis.analyzeJavaScriptHandler P args s =
    (Normal (JSON_stringify
               (VObj [success false;
                      (lit "error", VStr (message e));
                      (lit "url", VStr url)])),
     s1).
Proof.
  intros url htmlContent Hpatterns Hreq Hok Hscripts Hahead Hsrc.
  assert (Hbad : Analysis.matches P (Custom src) (Analysis.content_of P script) = inl e).
  { cbn [Analysis.matches]. rewrite Hsrc. reflexivity. }
  unfold Analysis.analyzeJavaScriptHandler. fold url.
  rewrite Hpatterns. unfold try_catch. unfold bind at 1. rewrite Hreq, Hok.
  cbn [negb]. fold htmlContent. rewrite Hscripts.
  unfold bind at 1. rewrite foldM_cons.
  rewrite (scan_inline_stops script (Custom src) rest e ahead [] s1 Hahead Hbad).
  reflexivity.
Qed.
End InlinePattern.

(** The page of the example world has inline scripts, and the host
    refuses the pattern [(]. *)
Lemma analyze_javascript_bad_pattern_inline_example :
  exists s1,
    Analysis.analyzeJavaScriptHandler Host.node
      (analyze_javascript.mk Demo.home (Some [lit "("])) Host.fresh =
      (Normal (JSON_stringify
                 (VObj [success false;
                        (lit "error",
                           VStr (lit "Invalid regular expression: /(/: Unterminated group"));
                        (lit "url", VStr Demo.home)])),
       s1).
Proof.
  destruct (Analysis.makeWebRequest Host.node Demo.home (lit "GET") [] Host.fresh)
    as [[r|e|e|] s1] eqn:E; try (vm_compute in E; discriminate).
  assert (Hr : r = VObj [success true;
                         (lit "status_code", VNum 200);
                         (lit "headers",
                            VObj [(lit "content-type", VStr (lit "text/html"))]);
                         (lit "body", VStr Demo.page_html)]).
  { vm_compute in E. apply returned in E. destruct E as [<- _]. reflexivity. }
  exists s1.
  refine (analyze_javascript_bad_pattern_inline Host.node
            (analyze_javascript.mk Demo.home (Some [lit "("])) Host.fresh s1 r
            [] [] (lit "(") Demo.app_script [Demo.lib_script; Demo.inline_script]
            Host.unterminated eq_refl E _ _ _ _).
  - rewrite Hr. reflexivity.
  - rewrite Hr. reflexivity.
  - constructor.
  - reflexivity.
Defined.
